(** * Shard migration (influx_tsm) and shard inspection (inspect)

    A shallow embedding of the two command line tools of the repository:

    - [Tsm]: the converter of b1/bz1 shards to tsm1 ([main], [backupDatabase],
      [copyDir], [convertShard]);
    - [Inspect]: the summary table and the full dump of [cmd/inspect/main.go]
      ([main], [countSeries], [dumpData], [btou64], [u64tob], [ShardIDs]).

    Go's standard library and the operating system are modelled by a small
    file system (a finite map from cleaned path strings to nodes), the
    packages of the repository that both tools import (tsdb, b1, bz1, the
    converter) are parameters. *)

From Stdlib Require Import ZArith NArith String Ascii List Lia Bool DecimalString.
From stdpp Require Import base option list gmap strings sorting.

Local Open Scope string_scope.
Local Open Scope Z_scope.

(** ** Strings, as the Go [strings] package treats them *)

Module Str.

(** [strings.HasPrefix]. *)
Definition HasPrefix (s p : string) : bool := String.prefix p s.

(** [strings.HasSuffix]: [suf] ends [s] when it is [s] or ends its tail. *)
Fixpoint HasSuffix (s suf : string) : bool :=
  String.eqb s suf ||
  match s with
  | EmptyString => false
  | String _ s' => HasSuffix s' suf
  end.

(** Drop the first [n] characters. *)
Fixpoint drop (n : nat) (s : string) : string :=
  match n, s with
  | O, _ => s
  | S _, EmptyString => EmptyString
  | S n', String _ s' => drop n' s'
  end.

(** [strings.Replace(s, old, new, 1)]: the leftmost occurrence of [old]
    is replaced, the rest of [s] is kept. *)
Fixpoint Replace1 (s old new : string) : string :=
  if String.prefix old s then new +:+ drop (String.length old) s
  else match s with
       | EmptyString => EmptyString
       | String c s' => String c (Replace1 s' old new)
       end.

(** [strings.Split(s, sep)] for a one-character separator. *)
Fixpoint Split_go (sep : ascii) (cur : string) (s : string) : list string :=
  match s with
  | EmptyString => [String.rev cur]
  | String c s' =>
      if Ascii.eqb c sep then String.rev cur :: Split_go sep EmptyString s'
      else Split_go sep (String c cur) s'
  end.
Definition Split (s : string) (sep : ascii) : list string :=
  Split_go sep EmptyString s.

(** [strings.Join]. *)
Definition Join (l : list string) (sep : string) : string := String.concat sep l.

(** [strings.ToLower] on the ASCII letters. *)
Definition lower (c : ascii) : ascii :=
  let n := N_of_ascii c in
  if ((65 <=? n) && (n <=? 90))%N then ascii_of_N (n + 32) else c.
Fixpoint ToLower (s : string) : string :=
  match s with
  | EmptyString => EmptyString
  | String c s' => String (lower c) (ToLower s')
  end.

(** [strings.TrimRight(s, "\n")]. *)
Fixpoint TrimRightNL (s : string) : string :=
  match s with
  | EmptyString => EmptyString
  | String c s' =>
      match TrimRightNL s' with
      | EmptyString => if Ascii.eqb c "010" then EmptyString else String c EmptyString
      | t => String c t
      end
  end.

(** No path separator inside. *)
Fixpoint slashfree (s : string) : bool :=
  match s with
  | EmptyString => true
  | String c s' => negb (Ascii.eqb c "/") && slashfree s'
  end.

(** [%d] of an integer. *)
Definition show_Z (z : Z) : string := NilZero.string_of_int (Z.to_int z).

End Str.


(** ** Computations of a Go program

    A function of the program is a function of the state of its run that
    returns a value, or stops short of one: by [os.Exit], by a run-time
    panic, or (in the model only) for want of fuel in a loop that the
    model cannot bound. *)

Module Go.

Inductive halt := Exit (code : Z) | Panic | OutOfFuel.

Inductive res (A : Type) :=
| Val (a : A)
| Halt (h : halt).
Arguments Val {A} a.
Arguments Halt {A} h.

Definition M (S A : Type) : Type := S → res A * S.

Definition ret {S A} (a : A) : M S A := λ s, (Val a, s).
Definition bind {S A B} (m : M S A) (k : A → M S B) : M S B :=
  λ s, match m s with
       | (Val a, s') => k a s'
       | (Halt h, s') => (Halt h, s')
       end.
Definition os_Exit {S A} (code : Z) : M S A := λ s, (Halt (Exit code), s).
Definition panic {S A} : M S A := λ s, (Halt Panic, s).
Definition out_of_fuel {S A} : M S A := λ s, (Halt OutOfFuel, s).

Declare Scope go_scope.
Delimit Scope go_scope with go.
Notation "x <~ m ;; k" := (bind m (λ x, k))
  (at level 100, m at next level, right associativity) : go_scope.
Notation "m >> k" := (bind m (λ _, k))
  (at level 100, right associativity) : go_scope.

End Go.

(** ** The migration tool: influx_tsm *)

Module Tsm.

(** *** Errors *)

Inductive errno := ENOENT | EEXIST | ENOTDIR | EISDIR | EACCES | ENOTEMPTY | EOF.

(** A Go [error] value: an [*os.PathError], or an error made by
    [fmt.Errorf] or returned by a collaborator, with its message. *)
Inductive error :=
| PathError (op path : string) (e : errno)
| ErrorString (msg : string)
| SkipDir.

Definition errno_string (e : errno) : string :=
  match e with
  | ENOENT => "no such file or directory"
  | EEXIST => "file exists"
  | ENOTDIR => "not a directory"
  | EISDIR => "is a directory"
  | EACCES => "permission denied"
  | ENOTEMPTY => "directory not empty"
  | EOF => "EOF"
  end.

(** [err.Error()]. *)
Definition Error (e : error) : string :=
  match e with
  | PathError op path e => op +:+ " " +:+ path +:+ ": " +:+ errno_string e
  | ErrorString msg => msg
  | SkipDir => "skip this directory"
  end.

Definition is_SkipDir (e : error) : bool :=
  match e with SkipDir => true | _ => false end.

(** [os.IsNotExist(err)]; [err] may be nil. *)
Definition IsNotExist (err : option error) : bool :=
  match err with
  | Some (PathError _ _ ENOENT) => true
  | _ => false
  end.

(** *** The file system *)

(** A directory or a regular file, with its permission bits: what
    [os.FileInfo] shows of it ([IsDir], [Mode]). *)
Inductive node :=
| Dir (perm : N)
| File (perm : N) (data : string).

Definition IsDir (nd : node) : bool :=
  match nd with Dir _ => true | File _ _ => false end.
Definition Mode (nd : node) : N :=
  match nd with Dir p => p | File p _ => p end.

(** [filepath.Join]: the non-empty elements joined by the separator. The
    paths of this model are clean already (no [.], [..] or doubled
    separator), so that the final [Clean] changes nothing. *)
Definition Join (elems : list string) : string :=
  Str.Join (filter (λ s, s ≠ "") elems) "/".

(** A path split at its last separator: directory and base name. [None]
    for a name without separator, which lives in the working directory. *)
Fixpoint split_last (s : string) : option (string * string) :=
  match s with
  | EmptyString => None
  | String c s' =>
      match split_last s' with
      | Some (d, n) => Some (String c d, n)
      | None => if Ascii.eqb c "/" then Some (EmptyString, s') else None
      end
  end.

(** [filepath.Base] on clean paths. *)
Definition Base (p : string) : string :=
  match split_last p with Some (_, n) => n | None => p end.

(** [k] is [p] or lies below it. *)
Definition underb (p k : string) : bool :=
  String.eqb k p || String.prefix (p +:+ "/") k.

(** The name of [k] inside directory [p], when [k] is an entry of [p]. *)
Definition entry_of (p k : string) : option string :=
  if String.prefix (p +:+ "/") k then
    let n := Str.drop (String.length p + 1) k in
    if Str.slashfree n && negb (String.eqb n "") then Some n else None
  else None.

(** Modelled from the spec: the format tags of [tsdb.EngineFormat], the
    two legacy formats and the target format. *)
Inductive EngineFormat := B1 | BZ1 | TSM1.

(** Modelled from the spec: the [tsdb.ShardInfo] of the converter's own
    tsdb package (database name, retention-policy name, filesystem path
    below the retention policy, legacy-format tag, byte size). *)
Record ShardInfo := mkShardInfo {
  Database : string;
  RetentionPolicy : string;
  Path : string;
  Format : EngineFormat;
  Size : Z
}.

(** The events of a run that the properties on the order of its steps
    speak of: the calls of [Shards()], [backupDatabase] and [convertShard]
    by [main] and what the last two returned, the calls of the reader and
    of the converter, and the two system calls that destroy. *)
Inductive event :=
| CallShards (db : string)
| CallBackup (src : string)
| RetBackup (src : string) (err : option error)
| CallConvert (si : ShardInfo)
| RetConvert (si : ShardInfo) (err : option error)
| ReaderOpen (src : string) (err : option error)
| NewConverter (dst : string) (sz : N)
| ConverterProcess (dst : string) (err : option error)
| ReaderClose (src : string) (err : option error)
| SysRemoveAll (path : string) (err : option error)
| SysRename (old new : string) (err : option error).

(** The state of a run: the file system ([nodes], and the paths on which
    every system call fails with EACCES), the standard streams, and the
    events so far. *)
Record World := mkWorld {
  nodes : gmap string node;
  denied : gset string;
  stdin : string;
  stdout : list string;
  stderr : list string;
  trace : list event
}.

Definition set_nodes (m : gmap string node) (w : World) : World :=
  mkWorld m (denied w) (stdin w) (stdout w) (stderr w) (trace w).

(** *** Computations *)

Export Go.
Local Open Scope go_scope.

(** The computations of the converter, over the state of its run. *)
Definition M (A : Type) : Type := Go.M World A.

(** [fmt.Printf] / [fmt.Println] on standard output, [fmt.Fprintf] on
    standard error; the argument is the formatted text. *)
Definition Printf (s : string) : M unit :=
  λ w, (Val tt, mkWorld (nodes w) (denied w) (stdin w) (stdout w ++ [s]) (stderr w) (trace w)).
Definition Eprintf (s : string) : M unit :=
  λ w, (Val tt, mkWorld (nodes w) (denied w) (stdin w) (stdout w) (stderr w ++ [s]) (trace w)).
Definition emit (e : event) : M unit :=
  λ w, (Val tt, mkWorld (nodes w) (denied w) (stdin w) (stdout w) (stderr w) (trace w ++ [e])).

Definition nl : string := String "010" EmptyString.


(** *** System calls *)

Definition is_denied (p : string) (w : World) : bool :=
  bool_decide (p ∈ denied w).

(** The directory that holds [p] is there. A name without separator
    lives in the working directory, which always is. *)
Definition parent_is_dir (p : string) (m : gmap string node) : bool :=
  match split_last p with
  | None => true
  | Some (d, _) =>
      match m !! d with Some (Dir _) => true | _ => false end
  end.

(** [os.Stat] and [os.Lstat] (the model has no symbolic links). *)
Definition os_Stat (p : string) : M (node + error) :=
  λ w, if is_denied p w then (Val (inr (PathError "stat" p EACCES)), w)
       else match nodes w !! p with
            | Some nd => (Val (inl nd), w)
            | None => (Val (inr (PathError "stat" p ENOENT)), w)
            end.

(** [os.Mkdir]. *)
Definition os_Mkdir (p : string) (perm : N) : M (option error) :=
  λ w, if is_denied p w then (Val (Some (PathError "mkdir" p EACCES)), w)
       else match nodes w !! p with
            | Some _ => (Val (Some (PathError "mkdir" p EEXIST)), w)
            | None =>
                if parent_is_dir p (nodes w)
                then (Val None, set_nodes (<[p := Dir perm]> (nodes w)) w)
                else (Val (Some (PathError "mkdir" p ENOENT)), w)
            end.

(** [os.MkdirAll]: nothing to do on a directory; otherwise the parent is
    made first, then the directory itself. The recursion is on the
    length of the path, which each step to the parent shortens. *)
Fixpoint MkdirAll_go (n : nat) (p : string) (perm : N) : M (option error) :=
  st <~ os_Stat p;;
  match st with
  | inl nd =>
      if IsDir nd then ret None else ret (Some (PathError "mkdir" p ENOTDIR))
  | inr _ =>
      perr <~ match n, split_last p with
              | S n', Some (d, _) =>
                  if String.eqb d "" then ret None else MkdirAll_go n' d perm
              | _, _ => ret None
              end;;
      match perr with
      | Some e => ret (Some e)
      | None =>
          err <~ os_Mkdir p perm;;
          match err with
          | None => ret None
          | Some e =>
              st' <~ os_Stat p;;
              match st' with
              | inl (Dir _) => ret None
              | _ => ret (Some e)
              end
          end
      end
  end.

Definition os_MkdirAll (p : string) (perm : N) : M (option error) :=
  MkdirAll_go (String.length p) p perm.

(** [os.Open] of a regular file for reading, with the bytes it will
    deliver. *)
Definition os_Open (p : string) : M (string + error) :=
  λ w, if is_denied p w then (Val (inr (PathError "open" p EACCES)), w)
       else match nodes w !! p with
            | Some (File _ data) => (Val (inl data), w)
            | Some (Dir _) => (Val (inr (PathError "open" p EISDIR)), w)
            | None => (Val (inr (PathError "open" p ENOENT)), w)
            end.

(** [os.OpenFile(p, os.O_CREATE|os.O_WRONLY, perm)]: an existing file is
    opened as it is (no truncation), a missing one is created empty. *)
Definition os_OpenFile_create (p : string) (perm : N) : M (option error) :=
  λ w, if is_denied p w then (Val (Some (PathError "open" p EACCES)), w)
       else match nodes w !! p with
            | Some (File _ _) => (Val None, w)
            | Some (Dir _) => (Val (Some (PathError "open" p EISDIR)), w)
            | None =>
                if parent_is_dir p (nodes w)
                then (Val None, set_nodes (<[p := File perm ""]> (nodes w)) w)
                else (Val (Some (PathError "open" p ENOENT)), w)
            end.

(** [io.Copy(out, in)] into the file opened at [p]: the bytes are written
    from offset 0 over what the file holds. *)
Definition io_Copy (p : string) (data : string) : M (option error) :=
  λ w, match nodes w !! p with
       | Some (File perm old) =>
           (Val None,
            set_nodes (<[p := File perm (data +:+ Str.drop (String.length data) old)]> (nodes w)) w)
       | _ => (Val (Some (PathError "write" p EISDIR)), w)
       end.

(** [readDirNames]: the names of the entries of directory [p], sorted. *)
Definition readDirNames (p : string) (m : gmap string node) : list string :=
  merge_sort String.le (omap (entry_of p) (map_to_list m).*1).

(** [ioutil.ReadDir]: the sorted entries of a directory, by name. *)
Definition ioutil_ReadDir (p : string) : M (list string + error) :=
  λ w, if is_denied p w then (Val (inr (PathError "open" p EACCES)), w)
       else match nodes w !! p with
            | Some (Dir _) => (Val (inl (readDirNames p (nodes w))), w)
            | Some (File _ _) => (Val (inr (PathError "readdirent" p ENOTDIR)), w)
            | None => (Val (inr (PathError "open" p ENOENT)), w)
            end.

(** [os.RemoveAll]: the path and all below it go; a missing path is no
    error. *)
Definition os_RemoveAll (p : string) : M (option error) :=
  λ w, let err := if is_denied p w then Some (PathError "remove" p EACCES) else None in
       let w' := match err with
                 | Some _ => w
                 | None => set_nodes (filter (λ kv, underb p kv.1 = false) (nodes w)) w
                 end in
       (Val err,
        mkWorld (nodes w') (denied w') (stdin w') (stdout w') (stderr w')
                (trace w' ++ [SysRemoveAll p err])).

(** Has directory [p] an entry? *)
Definition has_entries (p : string) (m : gmap string node) : bool :=
  match readDirNames p m with [] => false | _ => true end.

(** The outcome of [rename(2)] before anything moves. *)
Definition rename_check (old new : string) (w : World) : option error :=
  if is_denied old w || is_denied new w then Some (PathError "rename" old EACCES)
  else match nodes w !! old with
       | None => Some (PathError "rename" old ENOENT)
       | Some src =>
           if negb (parent_is_dir new (nodes w)) then Some (PathError "rename" old ENOENT)
           else match src, nodes w !! new with
                | _, None => None
                | Dir _, Some (Dir _) =>
                    if has_entries new (nodes w) then Some (PathError "rename" old ENOTEMPTY)
                    else None
                | Dir _, Some (File _ _) => Some (PathError "rename" old ENOTDIR)
                | File _ _, Some (Dir _) => Some (PathError "rename" old EISDIR)
                | File _ _, Some (File _ _) => None
                end
       end.

(** [os.Rename]: [old] and all below it move to [new]. *)
Definition os_Rename (old new : string) : M (option error) :=
  λ w, let err := rename_check old new w in
       let m := nodes w in
       let moved : gmap string node :=
         list_to_map
           ((λ kv : string * node, (new +:+ Str.drop (String.length old) kv.1, kv.2))
              <$> map_to_list (filter (λ kv, underb old kv.1 = true) m)) in
       let rest := filter (λ kv, underb old kv.1 = false) m in
       let m' := match err with Some _ => m | None => moved ∪ rest end in
       (Val err,
        mkWorld m' (denied w) (stdin w) (stdout w) (stderr w)
                (trace w ++ [SysRename old new err])).


(** *** [filepath.Walk] *)

Definition WalkFunc : Type := string → option node → option error → M (option error).

(** The loop of [walk] over the entries of directory [path]; [visit] is
    the walk of an entry that could be examined. *)
Fixpoint walk_entries (visit : string → node → M (option error)) (walkFn : WalkFunc)
    (path : string) (names : list string) : M (option error) :=
  match names with
  | [] => ret None
  | name :: rest =>
      let filename := Join [path; name] in
      st <~ os_Stat filename;;
      match st with
      | inr e =>
          err <~ walkFn filename None (Some e);;
          match err with
          | Some e' =>
              if is_SkipDir e' then walk_entries visit walkFn path rest else ret (Some e')
          | None => walk_entries visit walkFn path rest
          end
      | inl fileInfo =>
          err <~ visit filename fileInfo;;
          match err with
          | Some e' =>
              if negb (IsDir fileInfo) || negb (is_SkipDir e')
              then ret (Some e') else walk_entries visit walkFn path rest
          | None => walk_entries visit walkFn path rest
          end
      end
  end.

(** [walk] of path/filepath: the function is called on the node, then on
    every entry of a directory in lexical order, entries being read when
    the directory is reached. A tree that grows under the walk would
    never be exhausted, hence the fuel. *)
Fixpoint walk (fuel : nat) (path : string) (info : node) (walkFn : WalkFunc)
  : M (option error) :=
  match fuel with
  | O => out_of_fuel
  | S fuel' =>
      err <~ walkFn path (Some info) None;;
      match err with
      | Some e => if IsDir info && is_SkipDir e then ret None else ret (Some e)
      | None =>
          if negb (IsDir info) then ret None
          else
            names <~ (λ w, (Val (readDirNames path (nodes w)), w));;
            walk_entries (λ filename fileInfo, walk fuel' filename fileInfo walkFn)
                         walkFn path names
      end
  end.

(** [filepath.Walk]: a root that cannot be examined is handed to the
    function with its error and a nil [info]. *)
Definition filepath_Walk (fuel : nat) (root : string) (walkFn : WalkFunc)
  : M (option error) :=
  st <~ os_Stat root;;
  match st with
  | inr e => walkFn root None (Some e)
  | inl info => walk fuel root info walkFn
  end.

(** *** The converter's own functions *)

Definition backupExt : string := "bak".
Definition tsmExt : string := "tsm".
Definition maxTSMSz : N := 1 * 1024 * 1024 * 1024.

(** The closure [copyFile] of [copyDir]. It never looks at the error the
    walk hands it, and asks a nil [info] whether it is a directory. *)
Definition copyFile (dest src : string) : WalkFunc :=
  λ path info _,
    let toPath := Str.Replace1 path src dest in
    match info with
    | None => panic
    | Some info =>
        if IsDir info then
          err <~ os_MkdirAll toPath (Mode info);;
          match err with
          | Some e => ret (Some e)
          | None => ret None
          end
        else
          err <~ (in_ <~ os_Open path;;
                  match in_ with
                  | inr e => ret (Some e)
                  | inl data =>
                      out <~ os_OpenFile_create toPath (Mode info);;
                      match out with
                      | Some e => ret (Some e)
                      | None => io_Copy toPath data
                      end
                  end);;
          match err with
          | Some e => ret (Some e)
          | None => ret None
          end
    end.

(** [copyDir] copies the directory at [src] to [dest]. *)
Definition copyDir (fuel : nat) (dest src : string) : M (option error) :=
  filepath_Walk fuel src (copyFile dest src).

(** [backupDatabase] backs up the database at [src]. *)
Definition backupDatabase (fuel : nat) (src : string) : M (option error) :=
  let dest := Join [src +:+ "." +:+ backupExt] in
  st <~ os_Stat dest;;
  let err := match st with inl _ => None | inr e => Some e end in
  if negb (IsNotExist err)
  then ret (Some (ErrorString ("backup of " +:+ src +:+ " already exists")))
  else copyDir fuel dest src.


(** *** The tsdb package of the converter *)

(** Modelled from the spec: [ShardInfo.FullPath], the shard's place in
    the layout [<root>/<database>/<retentionPolicy>/<shardID>]. *)
Definition FullPath (si : ShardInfo) (dataPath : string) : string :=
  Join [dataPath; Database si; RetentionPolicy si; Path si].

(** Modelled from the spec: [ShardInfo.FormatAsString], the name of the
    format tag. *)
Definition FormatAsString (si : ShardInfo) : string :=
  match Format si with B1 => "b1" | BZ1 => "bz1" | TSM1 => "tsm1" end.

Definition Format_eqb (a b : EngineFormat) : bool :=
  match a, b with
  | B1, B1 | BZ1, BZ1 | TSM1, TSM1 => true
  | _, _ => false
  end.

(** Modelled from the spec: the order of [sort.Sort(tsdb.ShardInfos)],
    by (database, retention policy, path). *)
Definition si_leb (a b : ShardInfo) : bool :=
  match String.compare (Database a) (Database b) with
  | Lt => true
  | Gt => false
  | Eq =>
      match String.compare (RetentionPolicy a) (RetentionPolicy b) with
      | Lt => true
      | Gt => false
      | Eq => String.leb (Path a) (Path b)
      end
  end.
Definition si_le (a b : ShardInfo) : Prop := si_leb a b.
#[global] Instance si_le_dec : RelDecision si_le.
Proof. intros a b. unfold si_le. apply _. Defined.

Definition sortShards (l : list ShardInfo) : list ShardInfo := merge_sort si_le l.

(** Modelled from the spec: [ShardInfos.FilterFormat], the order-preserving
    filter that drops the shards of the given (target) format. *)
Definition FilterFormat (l : list ShardInfo) (fmt : EngineFormat) : list ShardInfo :=
  List.filter (λ si, negb (Format_eqb (Format si) fmt)) l.

(** Modelled from the spec: [ShardInfos.FilterDatabases], the
    order-preserving filter by database name; an empty or absent list of
    names means all databases. *)
Definition FilterDatabases (l : list ShardInfo) (dbs : list string) : list ShardInfo :=
  match dbs with
  | [] => l
  | _ => List.filter (λ si, bool_decide (Database si ∈ dbs)) l
  end.

(** Modelled from the spec: [ShardInfos.Databases], every distinct
    database touched by a shard of the list, once. *)
Definition Databases (l : list ShardInfo) : list string :=
  remove_dups (Database <$> l).

(** The packages behind the converter, as the tool sees them: the listing
    of a database's shards ([tsdb.NewDatabase(path).Shards()]), the
    readers of the b1 and bz1 packages ([Open], [Close]), the converter
    ([NewConverter(dst, sz).Process(reader)]), and the clock. Each is a
    function of the file system it finds, and returns the file system it
    leaves. *)
Record Collab := mkCollab {
  db_Shards : string → gmap string node → list ShardInfo + error;
  reader_Open : EngineFormat → string → gmap string node → option error * gmap string node;
  converter_Process :
    string → N → EngineFormat → string → gmap string node → option error * gmap string node;
  reader_Close : EngineFormat → string → gmap string node → option error * gmap string node;
  elapsed : string → string
}.

(** A call of a collaborator: the file system it leaves and its event. *)
Definition collab (f : gmap string node → option error * gmap string node)
    (ev : option error → event) : M (option error) :=
  λ w, let r := f (nodes w) in
       (Val r.1,
        mkWorld r.2 (denied w) (stdin w) (stdout w) (stderr w) (trace w ++ [ev r.1])).

(** The conversion [uint32(x)] of a [uint64]. *)
Definition uint32 (x : N) : N := (x mod 2 ^ 32)%N.

(** [convertShard] converts the shard in-place. [dataPath] and [tsmSz] are
    the globals of the program. *)
Definition convertShard (C : Collab) (dataPath : string) (tsmSz : N) (si : ShardInfo)
  : M (option error) :=
  let src := FullPath si dataPath in
  let dst := src +:+ "." +:+ tsmExt in
  match Format si with
  | TSM1 => ret (Some (ErrorString ("Unsupported shard format: " +:+ FormatAsString si)))
  | fmt =>
      (* Open the shard, and create a converter. *)
      err <~ collab (reader_Open C fmt src) (ReaderOpen src);;
      match err with
      | Some e =>
          ret (Some (ErrorString
                 ("Failed to open " +:+ src +:+ " for conversion: " +:+ Error e)))
      | None =>
          emit (NewConverter dst (uint32 tsmSz)) >>
          (* Perform the conversion. *)
          err <~ collab (converter_Process C dst (uint32 tsmSz) fmt src)
                        (ConverterProcess dst);;
          match err with
          | Some e =>
              ret (Some (ErrorString
                     ("Conversion of " +:+ src +:+ " failed: " +:+ Error e)))
          | None =>
              (* Delete source shard, and rename new tsm1 shard. *)
              err <~ collab (reader_Close C fmt src) (ReaderClose src);;
              match err with
              | Some e =>
                  ret (Some (ErrorString
                         ("Conversion of " +:+ src +:+ " failed due to close: " +:+ Error e)))
              | None =>
                  err <~ os_RemoveAll (FullPath si dataPath);;
                  match err with
                  | Some e =>
                      ret (Some (ErrorString
                             ("Deletion of " +:+ src +:+ " failed: " +:+ Error e)))
                  | None =>
                      err <~ os_Rename dst src;;
                      match err with
                      | Some e =>
                          ret (Some (ErrorString
                                 ("Rename of " +:+ dst +:+ " to " +:+ src +:+ " failed: "
                                  +:+ Error e)))
                      | None => ret None
                      end
                  end
              end
          end
      end
  end.


(** *** [main] *)

(** What [flag.Parse] leaves: the positional arguments and the flags
    [-dbs], [-sz] (a [uint64]) and [-parallel]. *)
Record Config := mkConfig {
  args : list string;
  ds : string;
  tsmSz : N;
  parallel : bool
}.

(** [bufio.Reader.ReadString('\n')] on standard input: the text up to
    and with the first newline, or the error of a stream that ends
    before one. *)
Fixpoint read_line (s : string) : option (string * string) :=
  match s with
  | EmptyString => None
  | String c s' =>
      if Ascii.eqb c "010" then Some (String c EmptyString, s')
      else match read_line s' with
           | Some (l, r) => Some (String c l, r)
           | None => None
           end
  end.

Definition ReadString_nl : M (string + error) :=
  λ w, match read_line (stdin w) with
       | Some (l, r) =>
           (Val (inl l), mkWorld (nodes w) (denied w) r (stdout w) (stderr w) (trace w))
       | None =>
           (Val (inr (PathError "read" "/dev/stdin" EOF)),
            mkWorld (nodes w) (denied w) "" (stdout w) (stderr w) (trace w))
       end.

(** Lines 91-105: the shards of every directory of the data root that
    does not look like a backup. *)
Fixpoint collectShards (C : Collab) (dataPath : string) (dbs : list string)
    (shards : list ShardInfo) : M (list ShardInfo) :=
  match dbs with
  | [] => ret shards
  | db :: rest =>
      if Str.HasSuffix db backupExt then
        Printf ("Skipping " +:+ db +:+ " as it looks like a backup." +:+ nl) >>
        collectShards C dataPath rest shards
      else
        let d := Join [dataPath; db] in
        emit (CallShards db) >>
        shs <~ (λ w, (Val (db_Shards C d (nodes w)), w));;
        match shs with
        | inr err =>
            Eprintf ("failed to access shards for database " +:+ Base d +:+ ": "
                     +:+ Error err +:+ nl) >>
            os_Exit 1
        | inl shs => collectShards C dataPath rest (shards ++ shs)
        end
  end.

(** Lines 76-107: the requested databases, the listing of the data root
    and the shards to convert, sorted and filtered. *)
Definition reqDs (cfg : Config) : list string :=
  match Str.Split (ds cfg) "," with
  | [EmptyString] => []
  | l => l
  end.

Definition discover (C : Collab) (cfg : Config) (dataPath : string) : M (list ShardInfo) :=
  dbs <~ ioutil_ReadDir dataPath;;
  match dbs with
  | inr err =>
      Eprintf ("failed to access data directory at " +:+ dataPath +:+ ": "
               +:+ Error err +:+ nl) >>
      os_Exit 1
  | inl dbs =>
      Printf nl >>
      shards <~ collectShards C dataPath dbs [];;
      ret (FilterDatabases (FilterFormat (sortShards shards) TSM1) (reqDs cfg))
  end.

(** Lines 115-123: the table of the shards to convert, through a
    [tabwriter] (the padding of its columns is not modelled). *)
Definition tab : string := String "009" EmptyString.

Definition planRow (dataPath : string) (si : ShardInfo) : string :=
  Database si +:+ tab +:+ RetentionPolicy si +:+ tab +:+ FullPath si dataPath +:+ tab
  +:+ FormatAsString si +:+ tab +:+ Str.show_Z (Size si) +:+ nl.

Definition displayPlan (dataPath : string) (shards : list ShardInfo) : M unit :=
  Printf nl >>
  Printf (String.concat ""
            (("Database" +:+ tab +:+ "Retention" +:+ tab +:+ "Path" +:+ tab +:+ "Engine"
              +:+ tab +:+ "Size" +:+ nl) :: (planRow dataPath <$> shards))).

(** Lines 140-148: backup each directory. *)
Fixpoint backupAll (fuel : nat) (dataPath : string) (dbs : list string) : M unit :=
  match dbs with
  | [] => ret tt
  | db :: rest =>
      emit (CallBackup (Join [dataPath; db])) >>
      err <~ backupDatabase fuel (Join [dataPath; db]);;
      emit (RetBackup (Join [dataPath; db]) err) >>
      match err with
      | Some e =>
          Printf ("Backup of database " +:+ db +:+ " failed: " +:+ Error e +:+ nl) >>
          os_Exit 1
      | None =>
          Printf ("Database " +:+ db +:+ " backed up." +:+ nl) >>
          backupAll fuel dataPath rest
      end
  end.

(** Lines 150-160: convert each shard. *)
Fixpoint convertAll (C : Collab) (dataPath : string) (sz : N) (shards : list ShardInfo)
  : M unit :=
  match shards with
  | [] => ret tt
  | si :: rest =>
      emit (CallConvert si) >>
      err <~ convertShard C dataPath sz si;;
      emit (RetConvert si err) >>
      match err with
      | Some e =>
          Printf ("Failed to convert " +:+ FullPath si dataPath +:+ ": " +:+ Error e +:+ nl) >>
          os_Exit 1
      | None =>
          Printf ("Conversion of " +:+ FullPath si dataPath +:+ " successful ("
                  +:+ elapsed C (FullPath si dataPath) +:+ ")" +:+ nl) >>
          convertAll C dataPath sz rest
      end
  end.

Definition main (fuel : nat) (C : Collab) (cfg : Config) : M unit :=
  match args cfg with
  | [] =>
      Eprintf ("No data directory specified" +:+ nl) >>
      os_Exit 1
  | dataPath :: _ =>
      if (maxTSMSz <? tsmSz cfg)%N then
        Eprintf ("Maximum TSM file size is " +:+ Str.show_Z (Z.of_N maxTSMSz) +:+ nl) >>
        os_Exit 1
      else
        (* Determine the list of databases; get the list of shards. *)
        shards <~ discover C cfg dataPath;;
        (* Anything to convert? *)
        if (length shards =? 0)%nat then
          Printf ("Nothing to do." +:+ nl) >>
          os_Exit 0
        else
          (* Display list of convertible shards. *)
          displayPlan dataPath shards >>
          (* Get confirmation from user. *)
          Printf (nl +:+ "These shards will be converted. Proceed? y/N: ") >>
          yn <~ ReadString_nl;;
          match yn with
          | inr err =>
              Eprintf ("failed to read response: " +:+ Error err) >>
              os_Exit 1
          | inl yn =>
              if negb (String.eqb (Str.TrimRightNL (Str.ToLower yn)) "y") then
                Printf ("Conversion aborted." +:+ nl) >>
                os_Exit 1
              else
                Printf ("Conversion starting...." +:+ nl) >>
                backupAll fuel dataPath (Databases shards) >>
                convertAll C dataPath (tsmSz cfg) shards
          end
  end.

End Tsm.

(** ** Observations on runs of the migration tool *)

Module TsmObs.
Import Tsm.

(** A computation that only reads or writes the file system: the
    streams and the events are as before. *)
Definition fs_only {A} (f : M A) : Prop :=
  ∀ w, (f w).2 = set_nodes (nodes (f w).2) w.

(** The events of the backup step and of the conversion step. *)
Definition is_backup_event (e : event) : bool :=
  match e with
  | CallBackup _ | RetBackup _ _ => true
  | _ => false
  end.

Definition is_convert_event (e : event) : bool :=
  match e with
  | CallConvert _ | RetConvert _ _ | ReaderOpen _ _ | NewConverter _ _
  | ConverterProcess _ _ | ReaderClose _ _ | SysRemoveAll _ _ | SysRename _ _ _ => true
  | _ => false
  end.

Definition is_discover_event (e : event) : bool :=
  match e with
  | CallShards _ => true
  | _ => false
  end.

(** The collaborators leave everything at and below [src] as it is
    (the converter writes beside the shard, the readers only read). *)
Definition keeps (src : string) (f : gmap string node → option error * gmap string node)
  : Prop :=
  ∀ m k, underb src k = true → (f m).2 !! k = m !! k.

Definition collab_frame (C : Collab) (src : string) : Prop :=
  ∀ fmt,
    keeps src (reader_Open C fmt src) ∧
    (∀ sz, keeps src (converter_Process C (src +:+ "." +:+ tsmExt) sz fmt src)) ∧
    keeps src (reader_Close C fmt src).

(** A relative path that continues a path: nothing, or a separator and
    more. *)
Definition sfxb (r : string) : bool :=
  match r with
  | EmptyString => true
  | String c _ => Ascii.eqb c "/"
  end.

(** [k] is [p] or a path below [p]. *)
Definition below (p k : string) : Prop := ∃ r, sfxb r = true ∧ k = p +:+ r.

(** The file system is a tree: every path with a separator has a
    non-empty last name and lies in a directory that is there. *)
Definition fs_ok (m : gmap string node) : bool :=
  forallb (λ kv : string * node,
             match split_last kv.1 with
             | Some (d, n) => negb (String.eqb n "") && parent_is_dir kv.1 m
             | None => true
             end)
          (map_to_list m).

(** Fuel that exhausts any tree of [m]: more than the length of its
    longest path. *)
Definition enough_fuel (m : gmap string node) : nat :=
  S (list_sum (String.length <$> (map_to_list m).*1)).

(** A computation all of whose events satisfy [P]. *)
Definition emits (P : event → Prop) {A} (f : M A) : Prop :=
  ∀ w, ∃ evs, trace (f w).2 = (trace w ++ evs)%list ∧ Forall P evs.

(** A computation that leaves the file system as it is. *)
Definition reads_only {A} (f : M A) : Prop :=
  ∀ w, nodes (f w).2 = nodes w.

(** The diagnostic of line 94. *)
Definition skip_message (db : string) : string :=
  "Skipping " +:+ db +:+ " as it looks like a backup." +:+ nl.

(** The answer that lets the conversion start: a first line [y] or
    [Y]. *)
Definition confirms (input : string) : Prop :=
  ∃ rest, input = "y" +:+ nl +:+ rest ∨ input = "Y" +:+ nl +:+ rest.

(** A computation that changes the file system at most at the paths
    that satisfy [P]. *)
Definition touches (P : string → Prop) {A} (f : M A) : Prop :=
  ∀ w k, ¬ P k → nodes (f w).2 !! k = nodes w !! k.

(** A collaborator that writes at most at and below [dst]; and the
    three of them. *)
Definition writes_within (dst : string)
    (f : gmap string node → option error * gmap string node) : Prop :=
  ∀ m k, ¬ below dst k → (f m).2 !! k = m !! k.

Definition collab_within (C : Collab) (src dst : string) : Prop :=
  ∀ fmt,
    writes_within dst (reader_Open C fmt src) ∧
    (∀ sz, writes_within dst (converter_Process C dst sz fmt src)) ∧
    writes_within dst (reader_Close C fmt src).

(** The conversions that have returned, in the order of the run, each
    with its error. *)
Definition outcomes (evs : list event) : list (ShardInfo * option error) :=
  omap (λ e, match e with RetConvert si err => Some (si, err) | _ => None end) evs.

(** The events of the steps inside [convertShard]. *)
Definition is_step_event (e : event) : bool :=
  match e with
  | ReaderOpen _ _ | NewConverter _ _ | ConverterProcess _ _ | ReaderClose _ _
  | SysRemoveAll _ _ | SysRename _ _ _ => true
  | _ => false
  end.

(** A computation that always returns, and whose events are steps of a
    conversion. *)
Definition returns {A} (f : M A) : Prop :=
  ∀ w, (∃ a, (f w).1 = Val a) ∧
       ∃ evs, trace (f w).2 = (trace w ++ evs)%list ∧
              Forall (λ e, is_step_event e = true) evs.

(** A name without a comma, and the number of commas of a string. *)
Fixpoint commafree (s : string) : bool :=
  match s with
  | EmptyString => true
  | String c s' => negb (Ascii.eqb c ",") && commafree s'
  end.

Fixpoint commas (s : string) : nat :=
  match s with
  | EmptyString => O
  | String c s' => (if Ascii.eqb c "," then 1 else 0) + commas s'
  end.

End TsmObs.

(** ** A data root for the examples *)

Module TsmSample.
Import Tsm TsmObs.

Definition root : gmap string node :=
  list_to_map
    [("d", Dir 493); ("d/db", Dir 493); ("d/db/rp", Dir 448);
     ("d/db/rp/1", File 420 "legacy-1"); ("d/db/rp/2", File 384 "legacy-2");
     ("d/mydb.bak", Dir 493); ("d/mydb.bak/rp", Dir 493)].

Definition world : World := mkWorld root ∅ ("y" +:+ nl) [] [] [].

Definition shard1 : ShardInfo := mkShardInfo "db" "rp" "1" BZ1 8.
Definition shard2 : ShardInfo := mkShardInfo "db" "rp" "2" B1 8.

Definition listing (d : string) (m : gmap string node) : list ShardInfo + error :=
  if String.eqb d "d/db" then inl [shard2; shard1]
  else if String.eqb d "d/mydb.bak" then inl [mkShardInfo "mydb.bak" "rp" "7" B1 1]
  else inl [].

(** Readers and a converter that work: the converter leaves the new
    shard beside the old one. *)
Definition working : Collab :=
  mkCollab listing
    (λ _ _ m, (None, m))
    (λ dst _ _ _ m, (None, <[dst := File 420 "tsm1"]> m))
    (λ _ _ m, (None, m))
    (λ _, "1ms").

(** A converter that fails after it has written a part of the new shard. *)
Definition failing : Collab :=
  mkCollab listing
    (λ _ _ m, (None, m))
    (λ dst _ _ _ m, (Some (ErrorString "no space left on device"),
                     <[dst := File 420 "ts"]> m))
    (λ _ _ m, (None, m))
    (λ _, "1ms").

Definition config : Config := mkConfig ["d"] "" 1000 false.

(** A request for a database that is not there, and a size above the
    limit. *)
Definition config_other : Config := mkConfig ["d"] "nodb" 1000 false.
Definition config_big : Config := mkConfig ["d"] "" (2 ^ 31) false.

(** The state after discovery. *)
Definition discovered : World :=
  mkWorld root ∅ ("y" +:+ nl) [nl; skip_message "mydb.bak"] [] [CallShards "db"].

(** A converter that reports success and has written nothing. *)
Definition silent : Collab :=
  mkCollab listing
    (λ _ _ m, (None, m))
    (λ _ _ _ _ m, (None, m))
    (λ _ _ m, (None, m))
    (λ _, "1ms").

(** The example with the answer [n]. *)
Definition world_no : World := mkWorld root ∅ ("n" +:+ nl) [] [] [].

(** Two files, the second longer than the first. *)
Definition pair : World :=
  mkWorld (list_to_map [("a", File 420 "new"); ("b", File 384 "older")]) ∅ "" [] [] [].

(** The three names of a request. *)
Definition config_three : Config := mkConfig ["d"] "db,mydb,,x" 1000 false.

End TsmSample.

(** ** The inspection tool: cmd/inspect *)

Module Inspect.
Export Go.
Local Open Scope go_scope.

Definition nl : string := String "010" EmptyString.
Definition tab : string := String "009" EmptyString.

(** *** The tsdb package, as the tool reads it *)

(** A decoded field value: the [interface{}] of the map that
    [DecodeFieldsWithNames] returns. A [float64] comes with the text that
    [%v] prints for it. *)
Inductive FieldValue :=
| Float64 (text : string)
| Int64 (i : Z)
| Bool (b : bool)
| String_ (s : string).

(** [%T] and [%v] of a field value. *)
Definition fmt_T (v : FieldValue) : string :=
  match v with
  | Float64 _ => "float64"
  | Int64 _ => "int64"
  | Bool _ => "bool"
  | String_ _ => "string"
  end.

Definition fmt_v (v : FieldValue) : string :=
  match v with
  | Float64 text => text
  | Int64 i => Str.show_Z i
  | Bool b => if b then "true" else "false"
  | String_ s => s
  end.

(** [*tsdb.FieldCodec]: [DecodeFieldsWithNames] gives the fields of an
    encoded value and an error. The fields are listed in the order in
    which the [range] over the returned map visits them in this run:
    Go leaves that order open. *)
Record FieldCodec := mkFieldCodec {
  DecodeFieldsWithNames : list Byte.byte → list (string * FieldValue) * option string
}.

(** A point of a series as the cursor returns it: the key (the
    timestamp, big-endian) and the encoded value. *)
Definition item : Type := list Byte.byte * list Byte.byte.

(** [*tsdb.Shard]: the error of [ReadOnlyTx()] if it fails; the cursor of
    a transaction for a series key ([tx.Cursor(key, tsdb.Forward)]: nil
    when the series is not in the shard, else the points that [Seek] to
    the beginning and then [Next] return, until the nil value that ends
    them); [FieldCodec(measurement)], nil when there is none; and
    [SeriesCount()]. *)
Record Shard := mkShard {
  ReadOnlyTx : option string;
  Cursor : string → option (list item);
  FieldCodecOf : string → option FieldCodec;
  SeriesCount : Z + string
}.

(** [*tsdb.Measurement]. *)
Record Measurement := mkMeasurement {
  Name : string;
  TagKeys : list string;
  TagValues : string → list string;
  FieldNames : list string;
  SeriesKeys : list string
}.

(** [*tsdb.Store], opened. [Measurements db] is
    [DatabaseIndex(db).Measurements()]. *)
Record Store := mkStore {
  ShardIDs : list N;
  ShardOf : N → Shard;
  Databases : list string;
  Measurements : string → list Measurement;
  ShardN : Z;
  DatabaseIndexN : Z;
  DiskSize : Z * option string
}.

(** *** The state of a run *)

(** What the claims on transactions and on the dump observe: a
    transaction begun on a shard (read-only or not), rolled back or
    committed; a point returned by the cursor of a series; a line of the
    dump, with the key, the joined fields and the timestamp it prints. *)
Inductive event :=
| TxBegin (shard : N) (readonly : bool)
| TxRollback (shard : N)
| TxCommit (shard : N)
| Yield (shard : N) (key : string) (p : item)
| PointLine (key fields : string) (ts : Z).

(** [out] is what was written to the writer [w] (the rows of the table
    pass through a tabwriter, the dump through a bufio writer: neither
    the padding of the one nor the buffer of the other is modelled),
    [stdout] what [fmt.Printf] and [fmt.Println] printed, [open_tx] the
    shards with a transaction open. *)
Record State := mkState {
  out : list string;
  stdout : list string;
  open_tx : list N;
  log : list event
}.

Definition M (A : Type) : Type := Go.M State A.

Definition Fprintf (s : string) : M unit :=
  λ st, (Val tt, mkState (out st ++ [s]) (stdout st) (open_tx st) (log st)).
Definition Printf (s : string) : M unit :=
  λ st, (Val tt, mkState (out st) (stdout st ++ [s]) (open_tx st) (log st)).
Definition emit (e : event) : M unit :=
  λ st, (Val tt, mkState (out st) (stdout st) (open_tx st) (log st ++ [e])).

(** A transaction as the tool holds it: nil after a failed
    [ReadOnlyTx]. *)
Definition Tx : Type := option (N * Shard).

(** [shard.ReadOnlyTx()]. *)
Definition shard_ReadOnlyTx (id : N) (shard : Shard) : M (Tx * option string) :=
  match ReadOnlyTx shard with
  | Some err => ret (None, Some err)
  | None =>
      λ st, (Val (Some (id, shard), None),
             mkState (out st) (stdout st) (id :: open_tx st) (log st ++ [TxBegin id true]))
  end.

(** Remove the first occurrence. *)
Fixpoint remove_first (id : N) (l : list N) : list N :=
  match l with
  | [] => []
  | x :: l' => if N.eqb x id then l' else x :: remove_first id l'
  end.

(** [tx.Rollback()]; a method call on the nil transaction panics. *)
Definition tx_Rollback (tx : Tx) : M unit :=
  match tx with
  | None => panic
  | Some (id, _) =>
      λ st, (Val tt,
             mkState (out st) (stdout st) (remove_first id (open_tx st))
                     (log st ++ [TxRollback id]))
  end.

(** [tx.Cursor(key, tsdb.Forward)]. *)
Definition tx_Cursor (tx : Tx) (key : string) : M (option (list item)) :=
  match tx with
  | None => panic
  | Some (_, shard) => ret (Cursor shard key)
  end.

(** *** Helpers of the tool *)

Definition byte_Z (b : Byte.byte) : Z := Z.of_N (Byte.to_N b).

(** [btou64], that is [binary.BigEndian.Uint64]: the first eight bytes;
    a shorter slice panics. *)
Definition btou64 (b : list Byte.byte) : option Z :=
  match b with
  | b0 :: b1 :: b2 :: b3 :: b4 :: b5 :: b6 :: b7 :: _ =>
      Some (Z.lor (Z.lor (Z.lor (Z.lor (Z.lor (Z.lor (Z.lor
              (byte_Z b7)
              (Z.shiftl (byte_Z b6) 8))
              (Z.shiftl (byte_Z b5) 16))
              (Z.shiftl (byte_Z b4) 24))
              (Z.shiftl (byte_Z b3) 32))
              (Z.shiftl (byte_Z b2) 40))
              (Z.shiftl (byte_Z b1) 48))
              (Z.shiftl (byte_Z b0) 56))
  | _ => None
  end.

(** The conversion [int64(x)] of a [uint64]. *)
Definition int64 (x : Z) : Z := if x <? 2 ^ 63 then x else x - 2 ^ 64.

(** [byte(x)]: the low eight bits of an integer. *)
Definition byte_of_Z (z : Z) : Byte.byte :=
  default Byte.x00 (Byte.of_N (Z.to_N (z mod 256))).

(** [u64tob] converts a uint64 into an 8-byte slice
    ([binary.BigEndian.PutUint64]). *)
Definition u64tob (v : Z) : list Byte.byte :=
  [byte_of_Z (Z.shiftr v 56); byte_of_Z (Z.shiftr v 48); byte_of_Z (Z.shiftr v 40);
   byte_of_Z (Z.shiftr v 32); byte_of_Z (Z.shiftr v 24); byte_of_Z (Z.shiftr v 16);
   byte_of_Z (Z.shiftr v 8); byte_of_Z v].

(** [sort.Strings], [sort.Sort(ShardIDs(...))] with [Less] as [<] on
    [uint64], and the order of [tsdb.Measurements], by name. *)
Definition sortStrings (l : list string) : list string := merge_sort String.le l.

Definition sortShardIDs (l : list N) : list N := merge_sort N.le l.

Definition m_le (a b : Measurement) : Prop := String.le (Name a) (Name b).
#[global] Instance m_le_dec : RelDecision m_le.
Proof. intros a b. unfold m_le. apply _. Defined.
Definition sortMeasurements (l : list Measurement) : list Measurement := merge_sort m_le l.

(** The methods of [ShardIDs], the [sort.Interface] of a slice of shard
    ids: [Len], [Less] ([a[i] < a[j]]) and [Swap]
    ([a[i], a[j] = a[j], a[i]]). An index out of range panics: [None]. *)
Definition Len (a : list N) : nat := length a.
Definition Less (a : list N) (i j : nat) : option bool :=
  x ← a !! i; y ← a !! j; Some (x <? y)%N.
Definition Swap (a : list N) (i j : nat) : option (list N) :=
  x ← a !! i; y ← a !! j; Some (<[i := y]> (<[j := x]> a)).

(** Lines 98-102: the number of tag values of a measurement. *)
Definition tagValuesN (m : Measurement) : Z :=
  fold_left (λ acc tag, acc + Z.of_nat (length (TagValues m tag))) (TagKeys m) 0.

(** A [for ... range] loop without [break] or [continue]. *)
Fixpoint forEach {A} (body : A → M unit) (l : list A) : M unit :=
  match l with
  | [] => ret tt
  | x :: rest => body x >> forEach body rest
  end.

(** *** [countSeries] *)

Fixpoint countSeries_loop (store : Store) (ids : list N) (count : Z) : M Z :=
  match ids with
  | [] => ret count
  | shardID :: rest =>
      match SeriesCount (ShardOf store shardID) with
      | inr err =>
          Printf ("series count failed: " +:+ err +:+ nl) >>
          countSeries_loop store rest count
      | inl cnt => countSeries_loop store rest (count + cnt)
      end
  end.

Definition countSeries (store : Store) : M Z :=
  countSeries_loop store (ShardIDs store) 0.

(** *** The summary table of [main] (lines 88-148) *)

(** The first value of a cursor after [Seek] to the beginning: nil (no
    bytes) on a cursor without points. *)
Definition seekFirst (shardID : N) (key : string) (items : list item)
  : M (list Byte.byte) :=
  match items with
  | [] => ret []
  | p :: _ => emit (Yield shardID key p) >> ret p.2
  end.

(** Lines 136-139: the sorted [name:type] of the decoded fields. *)
Definition fieldTypes (fields : list (string * FieldValue)) : list string :=
  sortStrings ((λ fv, fv.1 +:+ ":" +:+ fmt_T fv.2) <$> fields).

(** Lines 141-142: the row of a measurement in a shard. *)
Definition summaryRow (shardID : N) (db : string) (m : Measurement)
    (fieldSummary : list string) : string :=
  "# " +:+ Str.show_Z (Z.of_N shardID) +:+ tab +:+ db +:+ tab +:+ Name m +:+ tab
  +:+ Str.show_Z (Z.of_nat (length (TagKeys m))) +:+ "/" +:+ Str.show_Z (tagValuesN m)
  +:+ tab +:+ Str.show_Z (Z.of_nat (length (FieldNames m)))
  +:+ " [" +:+ Str.Join fieldSummary "," +:+ "]" +:+ tab
  +:+ Str.show_Z (Z.of_nat (length (SeriesKeys m))) +:+ nl.

(** Lines 117-144: the loop over the series keys, left at the first key
    that has a cursor in the shard. *)
Fixpoint sampleKeys (shardID : N) (shard : Shard) (tx : Tx) (db : string)
    (m : Measurement) (series : list string) : M unit :=
  match series with
  | [] => ret tt
  | key :: rest =>
      cursor <~ tx_Cursor tx key;;
      match cursor with
      | None =>
          (* Series doesn't exist in this shard *)
          sampleKeys shardID shard tx db m rest
      | Some items =>
          (* Seek to the beginning *)
          value <~ seekFirst shardID key items;;
          fieldSummary <~
            match FieldCodecOf shard (Name m) with
            | Some codec =>
                let r := DecodeFieldsWithNames codec value in
                match r.2 with
                | Some err => Printf ("Failed to decode values: " +:+ err)
                | None => ret tt
                end >>
                ret (fieldTypes r.1)
            | None => ret []
            end;;
          Fprintf (summaryRow shardID db m fieldSummary)
          (* break *)
      end
  end.

(** Lines 110-146: one shard, for one measurement. *)
Definition sampleShard (store : Store) (db : string) (m : Measurement)
    (series : list string) (shardID : N) : M unit :=
  let shard := ShardOf store shardID in
  r <~ shard_ReadOnlyTx shardID shard;;
  match r.2 with
  | Some err => Printf ("Failed to get transaction: " +:+ err)
  | None => ret tt
  end >>
  sampleKeys shardID shard r.1 db m series >>
  tx_Rollback r.1.

Definition summary (store : Store) : M unit :=
  let shardIDs := ShardIDs store in
  let databases := sortStrings (Databases store) in
  forEach
    (λ db,
       let measurements := sortMeasurements (Measurements store db) in
       forEach
         (λ m,
            let series := sortStrings (SeriesKeys m) in
            forEach (sampleShard store db m series) (sortShardIDs shardIDs))
         measurements)
    databases.

(** *** [dumpData] *)

(** Lines 222-224: [name=value] of the decoded fields. *)
Definition fieldValues (fields : list (string * FieldValue)) : list string :=
  (λ fv, fv.1 +:+ "=" +:+ fmt_v fv.2) <$> fields.

(** Line 225: the line of a point. *)
Definition pointLine (key fields : string) (ts : Z) : string :=
  key +:+ " " +:+ fields +:+ " " +:+ Str.show_Z ts +:+ nl.

(** Lines 215-226: the loop from [cursor.Seek] over [cursor.Next] until
    the value is nil. *)
Fixpoint dumpPoints (shardID : N) (key : string) (codec : FieldCodec)
    (items : list item) : M unit :=
  match items with
  | [] => ret tt
  | p :: rest =>
      emit (Yield shardID key p) >>
      let r := DecodeFieldsWithNames codec p.2 in
      match r.2 with
      | Some err => Printf ("Failed to decode values: " +:+ err)
      | None => ret tt
      end >>
      let fieldSummary := fieldValues r.1 in
      match btou64 p.1 with
      | None => panic
      | Some u =>
          emit (PointLine key (Str.Join fieldSummary ",") (int64 u)) >>
          Fprintf (pointLine key (Str.Join fieldSummary ",") (int64 u)) >>
          dumpPoints shardID key codec rest
      end
  end.

(** Lines 205-227: one series, in one shard. *)
Definition dumpSeries (shardID : N) (shard : Shard) (tx : Tx) (m : Measurement)
    (key : string) : M unit :=
  cursor <~ tx_Cursor tx key;;
  match cursor with
  | None =>
      (* Series doesn't exist in this shard *)
      ret tt
  | Some items =>
      match FieldCodecOf shard (Name m) with
      | Some codec => dumpPoints shardID key codec items
      | None => ret tt
      end
  end.

(** Lines 197-230: one shard, for one measurement. *)
Definition dumpShard (store : Store) (m : Measurement) (series : list string)
    (shardID : N) : M unit :=
  let shard := ShardOf store shardID in
  r <~ shard_ReadOnlyTx shardID shard;;
  match r.2 with
  | Some err => Printf ("Failed to get transaction: " +:+ err)
  | None => ret tt
  end >>
  forEach (dumpSeries shardID shard r.1 m) series >>
  tx_Rollback r.1.

Definition dumpData (store : Store) : M (option string) :=
  let shardIDs := ShardIDs store in
  let databases := sortStrings (Databases store) in
  Fprintf ("# DML" +:+ nl) >>
  forEach
    (λ db,
       Fprintf ("# CONTEXT-DATABASE:" +:+ db +:+ nl) >>
       Fprintf ("# CONTEXT-RETENTION-POLICY:default" +:+ nl) >>
       let measurements := sortMeasurements (Measurements store db) in
       forEach
         (λ m,
            let series := sortStrings (SeriesKeys m) in
            forEach (dumpShard store m series) (sortShardIDs shardIDs))
         measurements)
    databases >>
  ret None.

(** *** [main] *)

(** What the start of [main] finds: the error of [tstore.Open()], the
    error of opening the output file, and the store. *)
Record Env := mkEnv {
  open_err : option string;
  outfile_err : option string;
  store : Store
}.

Definition main (env : Env) : M unit :=
  match open_err env with
  | Some err => Printf ("Failed to open dir: " +:+ err +:+ nl) >> os_Exit 1
  | None =>
      match outfile_err env with
      | Some err => Printf ("Failed to open: " +:+ err +:+ nl) >> os_Exit 1
      | None =>
          let tstore := store env in
          match (DiskSize tstore).2 with
          | Some err => Printf ("Failed to determine disk usage: " +:+ err +:+ nl)
          | None => ret tt
          end >>
          (* Summary stats *)
          series <~ countSeries tstore;;
          Fprintf ("# Shards: " +:+ Str.show_Z (ShardN tstore)
                   +:+ ", Indexes: " +:+ Str.show_Z (DatabaseIndexN tstore)
                   +:+ ", Databases: " +:+ Str.show_Z (Z.of_nat (length (Databases tstore)))
                   +:+ ", Disk Size: " +:+ Str.show_Z (DiskSize tstore).1
                   +:+ ", Series: " +:+ Str.show_Z series +:+ nl) >>
          Fprintf ("#" +:+ nl) >>
          Fprintf (Str.Join ["# Shard"; "DB"; "Measurement"; "Tags [#K/#V]";
                             "Fields [Name:Type]"; "Series"] tab +:+ nl) >>
          summary tstore >>
          err <~ dumpData tstore;;
          match err with
          | Some e => Printf (e +:+ nl)
          | None => ret tt
          end
      end
  end.

End Inspect.

(** ** Observations on runs of the inspection tool *)

Module InspectObs.
Import Inspect.

(** The points that cursors returned and the lines of the dump, in the
    order of the run. *)
Definition yields (evs : list event) : list item :=
  omap (λ e, match e with Yield _ _ p => Some p | _ => None end) evs.

Definition lines (evs : list event) : list (string * string * Z) :=
  omap (λ e, match e with PointLine k f ts => Some (k, f, ts) | _ => None end) evs.

(** The timestamp that the dump prints for a point. *)
Definition pointTime (p : item) : option Z := int64 <$> btou64 p.1.

(** The key of a point is a timestamp: eight bytes at least. *)
Definition timed (p : item) : Prop := (8 ≤ length p.1)%nat.

(** Transactions in a list of events: one at a time, each begun
    read-only and then rolled back, none committed. [cur] is the shard
    of the transaction that is open. *)
Fixpoint tx_ok (cur : option N) (evs : list event) : bool :=
  match evs with
  | [] => match cur with None => true | Some _ => false end
  | TxBegin id ro :: rest =>
      match cur with
      | None => ro && tx_ok (Some id) rest
      | Some _ => false
      end
  | TxRollback id :: rest =>
      match cur with
      | Some id' => N.eqb id id' && tx_ok None rest
      | None => false
      end
  | TxCommit _ :: _ => false
  | _ :: rest => tx_ok cur rest
  end.

(** No transaction that can write, no commit. *)
Definition read_only (e : event) : bool :=
  match e with
  | TxBegin _ ro => ro
  | TxCommit _ => false
  | _ => true
  end.

(** No event of a transaction at all. *)
Definition no_tx (e : event) : bool :=
  match e with
  | TxBegin _ _ | TxRollback _ | TxCommit _ => false
  | _ => true
  end.

(** The store hands out a transaction on every shard it lists, and the
    keys of its cursors are timestamps. *)
Definition store_ok (s : Store) : Prop :=
  ∀ id, id ∈ ShardIDs s →
    ReadOnlyTx (ShardOf s id) = None ∧
    ∀ key items p, Cursor (ShardOf s id) key = Some items → p ∈ items → timed p.

(** The line of the dump for a point: the key of the series, the joined
    [name=value] of the decoded fields and the timestamp. *)
Definition lineOf (key : string) (codec : FieldCodec) (p : item)
  : option (string * string * Z) :=
  ts ← pointTime p;
  Some (key, Str.Join (fieldValues (DecodeFieldsWithNames codec p.2).1) ",", ts).

(** The text of a line. *)
Definition render (l : string * string * Z) : string := pointLine l.1.1 l.1.2 l.2.

(** A computation without an event of a transaction. *)
Definition quiet {A} (f : M A) : Prop :=
  ∀ st, ∃ evs, log (f st).2 = (log st ++ evs)%list ∧
               Forall (λ e, no_tx e = true) evs ∧
               open_tx (f st).2 = open_tx st.

(** A computation whose transactions are read-only, never committed,
    and, when it ends normally, one at a time and each rolled back. *)
Definition tx_safe {A} (f : M A) : Prop :=
  ∀ st, ∃ evs, log (f st).2 = (log st ++ evs)%list ∧
               Forall (λ e, read_only e = true) evs ∧
               (∀ a, (f st).1 = Val a →
                     tx_ok None evs = true ∧ open_tx (f st).2 = open_tx st).

(** A computation that ends with a value. *)
Definition total {A} (f : M A) : Prop := ∀ st, ∃ a, (f st).1 = Val a.

(** A computation that ends normally and has written [rows], reading at
    most one point for each. *)
Definition writes (rows : list string) (f : M unit) : Prop :=
  ∀ st, (f st).1 = Val tt ∧
        out (f st).2 = (out st ++ rows)%list ∧
        ∃ evs, log (f st).2 = (log st ++ evs)%list ∧
               (length (yields evs) ≤ length rows)%nat.

(** *** The table of the summary, as a list of rows *)

(** The first value of a cursor, nil when it has no point. *)
Definition firstValue (items : list item) : list Byte.byte :=
  match items with [] => [] | p :: _ => p.2 end.

(** The inferred types of the fields of a value. *)
Definition inferred (shard : Shard) (m : Measurement) (value : list Byte.byte)
  : list string :=
  match FieldCodecOf shard (Name m) with
  | Some codec => fieldTypes (DecodeFieldsWithNames codec value).1
  | None => []
  end.

(** What the code does: for each measurement, for each shard in
    ascending order, one row for the first series key (in lexical
    order) that has a cursor in the shard, none when no key has. *)
Definition shardRow (s : Store) (db : string) (m : Measurement) (id : N) : list string :=
  match omap (Cursor (ShardOf s id)) (sortStrings (SeriesKeys m)) with
  | [] => []
  | items :: _ => [summaryRow id db m (inferred (ShardOf s id) m (firstValue items))]
  end.

Definition summaryRows (s : Store) : list string :=
  db ← sortStrings (Databases s);
  m ← sortMeasurements (Measurements s db);
  id ← sortShardIDs (ShardIDs s);
  shardRow s db m id.




(** *** The dump, as a list of lines *)

(** The lines of a series in a shard: one for each point of its cursor,
    none when the shard has no cursor for the key or no codec for the
    measurement. *)
Definition seriesLines (shard : Shard) (m : Measurement) (key : string) : list string :=
  match Cursor shard key, FieldCodecOf shard (Name m) with
  | Some items, Some codec => render <$> omap (lineOf key codec) items
  | _, _ => []
  end.

(** The whole dump: databases and measurements in the order of their
    names, shards in ascending order, series keys in lexical order. *)
Definition dumpRows (s : Store) : list string :=
  ("# DML" +:+ nl) ::
  (db ← sortStrings (Databases s);
   ([("# CONTEXT-DATABASE:" +:+ db +:+ nl); ("# CONTEXT-RETENTION-POLICY:default" +:+ nl)]
    ++ (m ← sortMeasurements (Measurements s db);
        id ← sortShardIDs (ShardIDs s);
        key ← sortStrings (SeriesKeys m);
        seriesLines (ShardOf s id) m key))%list).

(** *** The counts and the heads of the output *)

(** The count of [countSeries]: the sum over the shards that can be
    counted; and the diagnostics of those that cannot. *)
Definition seriesTotal (s : Store) (ids : list N) : Z :=
  foldr (λ id acc, match SeriesCount (ShardOf s id) with
                   | inl cnt => cnt + acc
                   | inr _ => acc
                   end) 0 ids.

Definition countFailures (s : Store) (ids : list N) : list string :=
  omap (λ id, match SeriesCount (ShardOf s id) with
              | inl _ => None
              | inr err => Some ("series count failed: " +:+ err +:+ nl)
              end) ids.

(** The first line of the output (line 80) and the heads of the columns
    (line 86). *)
Definition statsLine (s : Store) : string :=
  "# Shards: " +:+ Str.show_Z (ShardN s)
  +:+ ", Indexes: " +:+ Str.show_Z (DatabaseIndexN s)
  +:+ ", Databases: " +:+ Str.show_Z (Z.of_nat (length (Databases s)))
  +:+ ", Disk Size: " +:+ Str.show_Z (DiskSize s).1
  +:+ ", Series: " +:+ Str.show_Z (seriesTotal s (ShardIDs s)) +:+ nl.

Definition columns : string :=
  Str.Join ["# Shard"; "DB"; "Measurement"; "Tags [#K/#V]";
            "Fields [Name:Type]"; "Series"] tab +:+ nl.

(** *** The shards that are scanned *)

(** The shards on which a transaction was begun, in the order of the
    run. *)
Definition begun (evs : list event) : list N :=
  omap (λ e, match e with TxBegin id _ => Some id | _ => None end) evs.

(** Every shard in ascending order, once for each measurement of each
    database. *)
Definition scans (s : Store) : list N :=
  db ← sortStrings (Databases s);
  m ← sortMeasurements (Measurements s db);
  sortShardIDs (ShardIDs s).

(** A computation that, when it ends normally, has begun its
    transactions on the shards [ids], in this order. *)
Definition opens {A} (ids : list N) (f : M A) : Prop :=
  ∀ st a, (f st).1 = Val a →
    ∃ evs, log (f st).2 = (log st ++ evs)%list ∧ begun evs = ids.

(** *** The dump, scan by scan *)

(** The points that cursors returned in a run, each with the shard and
    the series key of its cursor. *)
Definition reads (evs : list event) : list (N * string * item) :=
  omap (λ e, match e with Yield id key p => Some (id, key, p) | _ => None end) evs.

(** Those of one series in one shard. *)
Definition readOf (id : N) (key : string) (evs : list event) : list item :=
  omap (λ r : N * string * item,
          if N.eqb r.1.1 id && String.eqb r.1.2 key then Some r.2 else None)
       (reads evs).

(** The text of the line of a point: the series key, the comma-joined
    [name=value] of its fields and its timestamp. *)
Definition lineText (key : string) (fields : list (string * FieldValue)) (ts : Z) : string :=
  key +:+ " " +:+ Str.Join ((λ fv, fv.1 +:+ "=" +:+ fmt_v fv.2) <$> fields) ","
  +:+ " " +:+ Str.show_Z ts +:+ nl.

(** One scan of a series in a shard: the points of the cursor when the
    shard has a cursor for the key and a codec for the measurement, and
    the line of each. *)
Definition scanPoints (shard : Shard) (m : Measurement) (key : string) : list item :=
  match Cursor shard key, FieldCodecOf shard (Name m) with
  | Some items, Some _ => items
  | _, _ => []
  end.

Definition scanLines (shard : Shard) (m : Measurement) (key : string) : list string :=
  match Cursor shard key, FieldCodecOf shard (Name m) with
  | Some items, Some codec =>
      omap (λ p, lineText key (DecodeFieldsWithNames codec p.2).1 <$> pointTime p) items
  | _, _ => []
  end.

(** The scans of a dump: for each database and each of its measurements
    in the order of their names, every shard of the store in ascending
    order, and in it every series key of the measurement in lexical
    order. *)
Definition fullDump (s : Store) : list string :=
  ("# DML" +:+ nl) ::
  (db ← sortStrings (Databases s);
   ([("# CONTEXT-DATABASE:" +:+ db +:+ nl); ("# CONTEXT-RETENTION-POLICY:default" +:+ nl)]
    ++ (m ← sortMeasurements (Measurements s db);
        id ← sortShardIDs (ShardIDs s);
        key ← sortStrings (SeriesKeys m);
        scanLines (ShardOf s id) m key))%list).

Definition fullScan (s : Store) : list (N * string * item) :=
  db ← sortStrings (Databases s);
  m ← sortMeasurements (Measurements s db);
  id ← sortShardIDs (ShardIDs s);
  key ← sortStrings (SeriesKeys m);
  (λ p, (id, key, p)) <$> scanPoints (ShardOf s id) m key.

(** What the claim says of a run of the dump: of every series in a
    shard, every point of its cursor is read and written once, and the
    timestamps written for the series do not decrease. *)
Definition once_per_point (s : Store) (evs : list event) : Prop :=
  ∀ id key items, id ∈ ShardIDs s → Cursor (ShardOf s id) key = Some items →
    readOf id key evs = items ∧ Sorted Z.le (omap pointTime (readOf id key evs)).

(** A computation that ends normally, has written [rows] and has read
    the points [pts], with a line for each. *)
Definition dumps (rows : list string) (pts : list (N * string * item)) (f : M unit) : Prop :=
  ∀ st, (f st).1 = Val tt ∧
        out (f st).2 = (out st ++ rows)%list ∧
        ∃ evs, log (f st).2 = (log st ++ evs)%list ∧
               reads evs = pts ∧
               length (lines evs) = length pts.

End InspectObs.

(** ** A store for the examples *)

Module InspectSample.
Import Inspect InspectObs.

Definition time (b : Byte.byte) : list Byte.byte :=
  [Byte.x00; Byte.x00; Byte.x00; Byte.x00; Byte.x00; Byte.x00; Byte.x00; b].

Definition codec : FieldCodec :=
  mkFieldCodec (λ v, ([("value", Int64 (Z.of_nat (length v)))], None)).

(** Two series of one measurement in shard 1, with points; shard 2 has
    neither series. *)
Definition shard1 : Shard :=
  mkShard None
    (λ key, if String.eqb key "cpu,host=a"
            then Some [(time Byte.x01, [Byte.x2a]); (time Byte.x02, [Byte.x2a; Byte.x2b])]
            else if String.eqb key "cpu,host=b"
            then Some [(time Byte.x05, [Byte.x07])]
            else None)
    (λ name, if String.eqb name "cpu" then Some codec else None)
    (inl 2).

Definition shard2 : Shard := mkShard None (λ _, None) (λ _, None) (inl 0).

Definition cpu : Measurement :=
  mkMeasurement "cpu" ["host"]
    (λ tag, if String.eqb tag "host" then ["a"; "b"] else [])
    ["value"] ["cpu,host=b"; "cpu,host=a"].

Definition tstore : Store :=
  mkStore [2%N; 1%N] (λ id, if N.eqb id 1 then shard1 else shard2)
    ["db"] (λ db, if String.eqb db "db" then [cpu] else [])
    2 1 (4096, None).

Definition start : State := mkState [] [] [] [].

(** A shard that has the series but no codec for its measurement. *)
Definition shard_nocodec : Shard :=
  mkShard None (Cursor shard1) (λ _, None) (inl 2).

(** A point with the largest key. *)
Definition last_point : item :=
  ([Byte.xff; Byte.xff; Byte.xff; Byte.xff; Byte.xff; Byte.xff; Byte.xff; Byte.xff],
   [Byte.x2a]).

(** A series whose second point has a key of two bytes. *)
Definition shard_short : Shard :=
  mkShard None
    (λ key, if String.eqb key "cpu,host=a"
            then Some ([(time Byte.x01, [Byte.x2a])]
                       ++ ([Byte.x00; Byte.x02], [Byte.x2a])
                       :: [(time Byte.x03, [Byte.x2a])])%list
            else None)
    (λ name, if String.eqb name "cpu" then Some codec else None)
    (inl 1).

(** A shard that hands out no transaction and cannot be counted, and a
    store with this shard beside the first. *)
Definition shard_locked : Shard :=
  mkShard (Some "timeout") (Cursor shard1) (FieldCodecOf shard1) (inr "timeout").

Definition tstore_locked : Store :=
  mkStore [3%N; 1%N] (λ id, if N.eqb id 1 then shard1 else shard_locked)
    ["db"] (λ db, if String.eqb db "db" then [cpu] else [])
    2 1 (0, Some "timeout").

(** A store with two databases that list the same series: its points
    are in shard 1, the second with the largest key; shard 2 has a
    point of the series and no codec for the measurement. *)
Definition shard_late : Shard :=
  mkShard None
    (λ key, if String.eqb key "cpu,host=a"
            then Some [(time Byte.x01, [Byte.x2a]); last_point]
            else None)
    (λ name, if String.eqb name "cpu" then Some codec else None)
    (inl 1).

Definition shard_plain : Shard :=
  mkShard None
    (λ key, if String.eqb key "cpu,host=a" then Some [(time Byte.x03, [Byte.x2a])] else None)
    (λ _, None)
    (inl 1).

Definition cpu_a : Measurement :=
  mkMeasurement "cpu" ["host"] (λ tag, if String.eqb tag "host" then ["a"] else [])
    ["value"] ["cpu,host=a"].

Definition tstore_shared : Store :=
  mkStore [1%N; 2%N] (λ id, if N.eqb id 1 then shard_late else shard_plain)
    ["a"; "b"] (λ db, if String.eqb db "a" || String.eqb db "b" then [cpu_a] else [])
    2 2 (4096, None).

End InspectSample.

(** * Properties of the migration tool *)

Module TsmProps.
Import Tsm TsmObs.
Local Close Scope string_scope.
Local Open Scope go_scope.

(** ** The model at work *)

Example maxTSMSz_value : maxTSMSz = (2 ^ 30)%N.
Proof. reflexivity. Qed.

Example HasSuffix_backup : Str.HasSuffix "mydb.bak" backupExt = true.
Proof. reflexivity. Qed.

Example HasSuffix_live : Str.HasSuffix "mydb" backupExt = false.
Proof. reflexivity. Qed.

Example HasSuffix_no_dot : Str.HasSuffix "kodbak" backupExt = true.
Proof. reflexivity. Qed.

Example Replace1_first : Str.Replace1 "d/db/rp/1" "d/db" "d/db.bak" = "d/db.bak/rp/1".
Proof. reflexivity. Qed.

Example Split_commas : Str.Split "a,b,,c" "," = ["a"; "b"; ""; "c"].
Proof. reflexivity. Qed.

Example Split_nothing : Str.Split "" "," = [""].
Proof. reflexivity. Qed.

Example answer_yes : Str.TrimRightNL (Str.ToLower ("Y" +:+ nl)) = "y".
Proof. reflexivity. Qed.

Example show_Z_negative : Str.show_Z (-42) = "-42".
Proof. reflexivity. Qed.

Example FullPath_layout : FullPath TsmSample.shard1 "d" = "d/db/rp/1".
Proof. reflexivity. Qed.

Example readDirNames_sorted : readDirNames "d" TsmSample.root = ["db"; "mydb.bak"].
Proof. by vm_compute. Qed.

(** A whole run on the example data root: both shards are converted in
    place, beside a copy of the database as it was. *)
Example main_converts :
  let r := main 20 TsmSample.working TsmSample.config TsmSample.world in
  r.1 = Val tt ∧
  nodes r.2 !! "d/db/rp/1" = Some (File 420 "tsm1") ∧
  nodes r.2 !! "d/db/rp/2" = Some (File 420 "tsm1") ∧
  nodes r.2 !! "d/db.bak/rp/1" = Some (File 420 "legacy-1") ∧
  nodes r.2 !! "d/db.bak/rp/2" = Some (File 384 "legacy-2") ∧
  nodes r.2 !! "d/db/rp/1.tsm" = None.
Proof. by vm_compute. Qed.

(** The same with a converter that fails: the run ends with code 1 on
    the first shard, which is still there, beside the part written. *)
Example main_fails :
  let r := main 20 TsmSample.failing TsmSample.config TsmSample.world in
  r.1 = Halt (Exit 1) ∧
  nodes r.2 !! "d/db/rp/1" = Some (File 420 "legacy-1") ∧
  nodes r.2 !! "d/db/rp/1.tsm" = Some (File 420 "ts") ∧
  nodes r.2 !! "d/db/rp/2" = Some (File 384 "legacy-2").
Proof. by vm_compute. Qed.

(** ** How the functions touch the state *)

Ltac go_unfold :=
  unfold bind, ret, os_Exit, panic, out_of_fuel, Printf, Eprintf, emit, collab in *;
  simpl in *.

Lemma fs_only_ret {A} (a : A) : fs_only (ret a).
Proof. intros [m d i o e t]. reflexivity. Qed.

Lemma fs_only_halt {A} (h : halt) : fs_only (λ w, (@Halt A h, w)).
Proof. intros [m d i o e t]. reflexivity. Qed.

Lemma fs_only_bind {A B} (f : M A) (k : A → M B) :
  fs_only f → (∀ a, fs_only (k a)) → fs_only (bind f k).
Proof.
  intros Hf Hk w. unfold bind. specialize (Hf w).
  destruct (f w) as [[a|h] w1]; simpl in *.
  - rewrite (Hk a w1). rewrite Hf. destruct w; reflexivity.
  - rewrite Hf. destruct w; reflexivity.
Qed.

Lemma fs_only_os_Stat p : fs_only (os_Stat p).
Proof.
  intros w. unfold os_Stat. destruct (is_denied p w); [by destruct w|].
  destruct (nodes w !! p); by destruct w.
Qed.

Lemma fs_only_os_Mkdir p perm : fs_only (os_Mkdir p perm).
Proof.
  intros w. unfold os_Mkdir. destruct (is_denied p w); [by destruct w|].
  destruct (nodes w !! p); [by destruct w|].
  destruct (parent_is_dir p (nodes w)); by destruct w.
Qed.

Lemma fs_only_MkdirAll_go n : ∀ p perm, fs_only (MkdirAll_go n p perm).
Proof.
  induction n as [|n IH]; intros p perm; simpl.
  - apply fs_only_bind; [apply fs_only_os_Stat|]. intros [nd|e].
    + destruct (IsDir nd); apply fs_only_ret.
    + apply fs_only_bind; [apply fs_only_ret|]. intros [e'|]; [apply fs_only_ret|].
      apply fs_only_bind; [apply fs_only_os_Mkdir|]. intros [e'|]; [|apply fs_only_ret].
      apply fs_only_bind; [apply fs_only_os_Stat|]. intros [[?|??]|?]; apply fs_only_ret.
  - apply fs_only_bind; [apply fs_only_os_Stat|]. intros [nd|e].
    + destruct (IsDir nd); apply fs_only_ret.
    + apply fs_only_bind.
      { destruct (split_last p) as [[d ?]|]; [|apply fs_only_ret].
        destruct (String.eqb d ""); [apply fs_only_ret|apply IH]. }
      intros [e'|]; [apply fs_only_ret|].
      apply fs_only_bind; [apply fs_only_os_Mkdir|]. intros [e'|]; [|apply fs_only_ret].
      apply fs_only_bind; [apply fs_only_os_Stat|]. intros [[?|??]|?]; apply fs_only_ret.
Qed.

Lemma fs_only_os_Open p : fs_only (os_Open p).
Proof.
  intros w. unfold os_Open. destruct (is_denied p w); [by destruct w|].
  destruct (nodes w !! p) as [[?|??]|]; by destruct w.
Qed.

Lemma fs_only_os_OpenFile_create p perm : fs_only (os_OpenFile_create p perm).
Proof.
  intros w. unfold os_OpenFile_create. destruct (is_denied p w); [by destruct w|].
  destruct (nodes w !! p) as [[?|??]|]; try by destruct w.
  destruct (parent_is_dir p (nodes w)); by destruct w.
Qed.

Lemma fs_only_io_Copy p data : fs_only (io_Copy p data).
Proof.
  intros w. unfold io_Copy. destruct (nodes w !! p) as [[?|??]|]; by destruct w.
Qed.

Lemma fs_only_copyFile dest src path info err : fs_only (copyFile dest src path info err).
Proof.
  unfold copyFile. destruct info as [info|]; [|apply fs_only_halt].
  destruct (IsDir info).
  - apply fs_only_bind; [apply fs_only_MkdirAll_go|]. intros [?|]; apply fs_only_ret.
  - apply fs_only_bind.
    + apply fs_only_bind; [apply fs_only_os_Open|]. intros [data|?]; [|apply fs_only_ret].
      apply fs_only_bind; [apply fs_only_os_OpenFile_create|].
      intros [?|]; [apply fs_only_ret|apply fs_only_io_Copy].
    + intros [?|]; apply fs_only_ret.
Qed.

Lemma fs_only_walk_entries (visit : string → node → M (option error))
    (walkFn : WalkFunc) path :
  (∀ p i, fs_only (visit p i)) → (∀ p i e, fs_only (walkFn p i e)) →
  ∀ names, fs_only (walk_entries visit walkFn path names).
Proof.
  intros Hv Hfn. induction names as [|name rest IHn]; simpl; [apply fs_only_ret|].
  apply fs_only_bind; [apply fs_only_os_Stat|]. intros [fileInfo|e].
  - apply fs_only_bind; [apply Hv|]. intros [e'|]; [|apply IHn].
    destruct (negb (IsDir fileInfo) || negb (is_SkipDir e')); [apply fs_only_ret|apply IHn].
  - apply fs_only_bind; [apply Hfn|]. intros [e'|]; [|apply IHn].
    destruct (is_SkipDir e'); [apply IHn|apply fs_only_ret].
Qed.

Lemma fs_only_walk (walkFn : WalkFunc) :
  (∀ p i e, fs_only (walkFn p i e)) →
  ∀ fuel path info, fs_only (walk fuel path info walkFn).
Proof.
  intros Hfn. induction fuel as [|fuel IH]; intros path info; simpl.
  - apply fs_only_halt.
  - apply fs_only_bind; [apply Hfn|]. intros [e|].
    + destruct (IsDir info && is_SkipDir e); apply fs_only_ret.
    + destruct (negb (IsDir info)); [apply fs_only_ret|].
      apply fs_only_bind; [intros w; by destruct w|]. intros names.
      apply fs_only_walk_entries; [apply IH|apply Hfn].
Qed.

Lemma fs_only_backupDatabase fuel src : fs_only (backupDatabase fuel src).
Proof.
  unfold backupDatabase. apply fs_only_bind; [apply fs_only_os_Stat|]. intros st.
  match goal with |- fs_only (if ?b then _ else _) => destruct b end; [apply fs_only_ret|].
  unfold copyDir, filepath_Walk.
  apply fs_only_bind; [apply fs_only_os_Stat|]. intros [info|e].
  - apply fs_only_walk. intros. apply fs_only_copyFile.
  - apply fs_only_copyFile.
Qed.

(** ** Conversion of one shard *)

Lemma collab_run f ev w :
  collab f ev w =
  (Val (f (nodes w)).1,
   mkWorld (f (nodes w)).2 (denied w) (stdin w) (stdout w) (stderr w)
           (trace w ++ [ev (f (nodes w)).1])).
Proof. reflexivity. Qed.

(** C1. If the open of the legacy reader, the conversion or the close of
    the reader fails (or the format has no reader), [convertShard] returns
    an error and has called neither [os.RemoveAll] nor [os.Rename]; what
    is at and below the shard's path is as before. [os.RemoveAll] is
    called on the shard's path only, after the open, the conversion and
    the close have succeeded. *)
Theorem convertShard_failure_keeps_source
    (C : Collab) (dataPath : string) (sz : N) (si : ShardInfo) (w : World) :
  collab_frame C (FullPath si dataPath) →
  let src := FullPath si dataPath in
  let dst := src +:+ "." +:+ tsmExt in
  let r := convertShard C dataPath sz si w in
  ∃ evs, trace r.2 = trace w ++ evs ∧
    ((Format si = TSM1 ∨
      ∃ e, In (ReaderOpen src (Some e)) evs ∨ In (ConverterProcess dst (Some e)) evs
           ∨ In (ReaderClose src (Some e)) evs) →
     (∃ e', r.1 = Val (Some e')) ∧
     (∀ p err, ¬ In (SysRemoveAll p err) evs) ∧
     (∀ a b err, ¬ In (SysRename a b err) evs) ∧
     (∀ k, underb src k = true → nodes r.2 !! k = nodes w !! k)) ∧
    (∀ p err, In (SysRemoveAll p err) evs →
       p = src ∧
       ∃ pre post, evs = pre ++ SysRemoveAll p err :: post ∧
         In (ReaderOpen src None) pre ∧ In (ConverterProcess dst None) pre ∧
         In (ReaderClose src None) pre).
Proof.
  intros Hframe src dst r.
  assert (Hcases :
    Format si ≠ TSM1 →
    ∃ evs, trace r.2 = trace w ++ evs ∧
    ((Format si = TSM1 ∨
      ∃ e, In (ReaderOpen src (Some e)) evs ∨ In (ConverterProcess dst (Some e)) evs
           ∨ In (ReaderClose src (Some e)) evs) →
     (∃ e', r.1 = Val (Some e')) ∧
     (∀ p err, ¬ In (SysRemoveAll p err) evs) ∧
     (∀ a b err, ¬ In (SysRename a b err) evs) ∧
     (∀ k, underb src k = true → nodes r.2 !! k = nodes w !! k)) ∧
    (∀ p err, In (SysRemoveAll p err) evs →
       p = src ∧
       ∃ pre post, evs = pre ++ SysRemoveAll p err :: post ∧
         In (ReaderOpen src None) pre ∧ In (ConverterProcess dst None) pre ∧
         In (ReaderClose src None) pre)).
  { intros Hfmt.
    assert (Hr : r =
      (err <~ collab (reader_Open C (Format si) src) (ReaderOpen src);;
       match err with
       | Some e =>
           ret (Some (ErrorString
                  ("Failed to open " +:+ src +:+ " for conversion: " +:+ Error e)))
       | None =>
           emit (NewConverter dst (uint32 sz)) >>
           err <~ collab (converter_Process C dst (uint32 sz) (Format si) src)
                         (ConverterProcess dst);;
           match err with
           | Some e =>
               ret (Some (ErrorString
                      ("Conversion of " +:+ src +:+ " failed: " +:+ Error e)))
           | None =>
               err <~ collab (reader_Close C (Format si) src) (ReaderClose src);;
               match err with
               | Some e =>
                   ret (Some (ErrorString
                          ("Conversion of " +:+ src +:+ " failed due to close: "
                           +:+ Error e)))
               | None =>
                   err <~ os_RemoveAll src;;
                   match err with
                   | Some e =>
                       ret (Some (ErrorString
                              ("Deletion of " +:+ src +:+ " failed: " +:+ Error e)))
                   | None =>
                       err <~ os_Rename dst src;;
                       match err with
                       | Some e =>
                           ret (Some (ErrorString
                                  ("Rename of " +:+ dst +:+ " to " +:+ src +:+ " failed: "
                                   +:+ Error e)))
                       | None => ret None
                       end
                   end
               end
           end
       end) w).
    { subst r. unfold convertShard. fold src. fold dst.
      destruct (Format si); [reflexivity|reflexivity|congruence]. }
    destruct (Hframe (Format si)) as (Hopen & Hproc & Hclose).
    specialize (Hproc (uint32 sz)). fold src in Hopen, Hproc, Hclose. fold dst in Hproc.
    clearbody r.
    unfold bind at 1 in Hr. rewrite collab_run in Hr.
    pose proof (Hopen (nodes w)) as Ho.
    destruct (reader_Open C (Format si) src (nodes w)) as [[e1|] m1]; simpl in Ho, Hr.
    { subst r. eexists [_]. split; [reflexivity|]. split.
      - intros _. split; [eexists; reflexivity|]. split; [|split].
        + intros p err [?|[]]; discriminate.
        + intros a b err [?|[]]; discriminate.
        + exact Ho.
      - intros p err [?|[]]; discriminate. }
    unfold bind at 1 in Hr. unfold emit at 1 in Hr. simpl in Hr.
    unfold bind at 1 in Hr. rewrite collab_run in Hr. simpl in Hr.
    pose proof (Hproc m1) as Hp.
    destruct (converter_Process C dst (uint32 sz) (Format si) src m1) as [[e2|] m2];
      simpl in Hp, Hr.
    { subst r. eexists [_; _; _]. split; [simpl; rewrite <- !app_assoc; reflexivity|]. split.
      - intros _. split; [eexists; reflexivity|]. split; [|split].
        + intros p err [?|[?|[?|[]]]]; discriminate.
        + intros a b err [?|[?|[?|[]]]]; discriminate.
        + intros k Hk. rewrite Hp, Ho; auto.
      - intros p err [?|[?|[?|[]]]]; discriminate. }
    unfold bind at 1 in Hr. rewrite collab_run in Hr. simpl in Hr.
    pose proof (Hclose m2) as Hc.
    destruct (reader_Close C (Format si) src m2) as [[e3|] m3]; simpl in Hc, Hr.
    { subst r. eexists [_; _; _; _]. split; [simpl; rewrite <- !app_assoc; reflexivity|]. split.
      - intros _. split; [eexists; reflexivity|]. split; [|split].
        + intros p err [?|[?|[?|[?|[]]]]]; discriminate.
        + intros a b err [?|[?|[?|[?|[]]]]]; discriminate.
        + intros k Hk. rewrite Hc, Hp, Ho; auto.
      - intros p err [?|[?|[?|[?|[]]]]]; discriminate. }
    (* all three succeeded: the delete step is reached *)
    assert (Hnofail : ∀ evs',
      (∃ e, In (ReaderOpen src (Some e))
              (ReaderOpen src None :: NewConverter dst (uint32 sz)
               :: ConverterProcess dst None :: ReaderClose src None :: evs') ∨
            In (ConverterProcess dst (Some e))
              (ReaderOpen src None :: NewConverter dst (uint32 sz)
               :: ConverterProcess dst None :: ReaderClose src None :: evs') ∨
            In (ReaderClose src (Some e))
              (ReaderOpen src None :: NewConverter dst (uint32 sz)
               :: ConverterProcess dst None :: ReaderClose src None :: evs')) →
      Forall (λ ev, match ev with SysRemoveAll _ _ | SysRename _ _ _ => True | _ => False end)
             evs' → False).
    { intros evs' [e He] Hall. rewrite Forall_forall in Hall.
      destruct He as [He|[He|He]];
        repeat (destruct He as [He|He]; [discriminate|]);
        apply list_elem_of_In, Hall in He; exact He. }
    assert (Hrm : ∀ evs' p err,
      In (SysRemoveAll p err)
        (ReaderOpen src None :: NewConverter dst (uint32 sz)
         :: ConverterProcess dst None :: ReaderClose src None :: evs') →
      (∃ err' post, evs' = SysRemoveAll src err' :: post ∧
                    ∀ q e, ¬ In (SysRemoveAll q e) post) →
      p = src ∧
      ∃ pre post,
        ReaderOpen src None :: NewConverter dst (uint32 sz)
        :: ConverterProcess dst None :: ReaderClose src None :: evs'
        = pre ++ SysRemoveAll p err :: post ∧
        In (ReaderOpen src None) pre ∧ In (ConverterProcess dst None) pre ∧
        In (ReaderClose src None) pre).
    { intros evs' p err Hin (err' & post & -> & Hpost).
      repeat (destruct Hin as [Hin|Hin]; [discriminate|]).
      destruct Hin as [Hin|Hin]; [|by apply Hpost in Hin].
      injection Hin as <- <-. split; [reflexivity|].
      exists [ReaderOpen src None; NewConverter dst (uint32 sz);
              ConverterProcess dst None; ReaderClose src None], post.
      split; [reflexivity|]. simpl. tauto. }
    unfold bind at 1 in Hr. unfold os_RemoveAll at 1 in Hr. simpl in Hr.
    destruct (is_denied src _) eqn:Hden; simpl in Hr.
    { subst r. eexists [_; _; _; _; _]. split; [simpl; rewrite <- !app_assoc; reflexivity|]. split.
      - intros [?|Hf]; exfalso; [congruence|]. eapply Hnofail; [exact Hf|]. repeat constructor.
      - intros p err Hin. eapply Hrm; [exact Hin|].
        eexists _, _. split; [reflexivity|]. intros q e []. }
    unfold bind at 1 in Hr. unfold os_Rename at 1 in Hr. simpl in Hr.
    match type of Hr with context [rename_check ?a ?b ?w'] =>
      destruct (rename_check a b w') as [e5|] end; simpl in Hr.
    + subst r. eexists [_; _; _; _; _; _]. split; [simpl; rewrite <- !app_assoc; reflexivity|]. split.
      * intros [?|Hf]; exfalso; [congruence|]. eapply Hnofail; [exact Hf|]. repeat constructor.
      * intros p err Hin. eapply Hrm; [exact Hin|].
        eexists _, _. split; [reflexivity|]. intros q e [?|[]]; discriminate.
    + subst r. eexists [_; _; _; _; _; _]. split; [simpl; rewrite <- !app_assoc; reflexivity|]. split.
      * intros [?|Hf]; exfalso; [congruence|]. eapply Hnofail; [exact Hf|]. repeat constructor.
      * intros p err Hin. eapply Hrm; [exact Hin|].
        eexists _, _. split; [reflexivity|]. intros q e [?|[]]; discriminate. }
  destruct (Format si) eqn:Hfmt.
  - destruct Hcases as (evs & Ht & Hfail & Hrm); [congruence|].
    exists evs. split; [exact Ht|]. split; [|exact Hrm]. exact Hfail.
  - destruct Hcases as (evs & Ht & Hfail & Hrm); [congruence|].
    exists evs. split; [exact Ht|]. split; [|exact Hrm]. exact Hfail.
  - exists []. subst r. unfold convertShard. rewrite Hfmt. simpl.
    split; [by rewrite app_nil_r|]. split.
    + intros _. split; [eexists; reflexivity|]. repeat split; auto.
    + intros p err [].
Qed.

(** ** Events of the steps of [main] *)

Section Emits.
Context (P : event → Prop).

Lemma emits_ret {A} (a : A) : emits P (ret a).
Proof. intros w. exists []. by rewrite app_nil_r. Qed.

Lemma emits_halt {A} (h : halt) : emits P (λ w, (@Halt A h, w)).
Proof. intros w. exists []. by rewrite app_nil_r. Qed.

Lemma emits_bind {A B} (f : M A) (k : A → M B) :
  emits P f → (∀ a, emits P (k a)) → emits P (bind f k).
Proof.
  intros Hf Hk w. unfold bind. destruct (Hf w) as (evs & Ht & Hall).
  destruct (f w) as [[a|h] w1]; simpl in *.
  - destruct (Hk a w1) as (evs' & Ht' & Hall').
    exists (evs ++ evs'). rewrite Ht', Ht, app_assoc. split; [done|].
    by apply Forall_app.
  - by exists evs.
Qed.

Lemma emits_fs_only {A} (f : M A) : fs_only f → emits P f.
Proof. intros Hf w. exists []. rewrite (Hf w). simpl. by rewrite app_nil_r. Qed.

Lemma emits_emit e : P e → emits P (emit e).
Proof. intros He w. exists [e]. split; [done|]. by constructor. Qed.

Lemma emits_Printf s : emits P (Printf s).
Proof. intros w. exists []. by rewrite app_nil_r. Qed.

Lemma emits_Eprintf s : emits P (Eprintf s).
Proof. intros w. exists []. by rewrite app_nil_r. Qed.

Lemma emits_collab f ev : (∀ err, P (ev err)) → emits P (collab f ev).
Proof. intros He w. eexists [_]. split; [reflexivity|]. by constructor. Qed.

Lemma emits_os_RemoveAll p : (∀ err, P (SysRemoveAll p err)) → emits P (os_RemoveAll p).
Proof.
  intros He w. unfold os_RemoveAll.
  destruct (is_denied p w); simpl; eexists [_]; (split; [reflexivity|by constructor]).
Qed.

Lemma emits_os_Rename a b : (∀ err, P (SysRename a b err)) → emits P (os_Rename a b).
Proof. intros He w. eexists [_]. split; [reflexivity|]. by constructor. Qed.

End Emits.

Lemma emits_convertShard (P : event → Prop) C dataPath sz si :
  (∀ e, is_convert_event e = true →
        (∀ dst s, e = NewConverter dst s → s = uint32 sz) → P e) →
  emits P (convertShard C dataPath sz si).
Proof.
  intros HP. unfold convertShard.
  assert (Hc : ∀ e, is_convert_event e = true →
                    (∀ dst s, e ≠ NewConverter dst s) → P e).
  { intros e He Hne. apply HP; [done|]. intros dst s ->. by destruct (Hne dst s). }
  assert (Hbody : ∀ fmt, emits P
    (err <~ collab (reader_Open C fmt (FullPath si dataPath))
                   (ReaderOpen (FullPath si dataPath));;
     match err with
     | Some e =>
         ret (Some (ErrorString
                ("Failed to open " +:+ FullPath si dataPath +:+ " for conversion: "
                 +:+ Error e)))
     | None =>
         emit (NewConverter (FullPath si dataPath +:+ "." +:+ tsmExt) (uint32 sz)) >>
         err <~ collab (converter_Process C (FullPath si dataPath +:+ "." +:+ tsmExt)
                          (uint32 sz) fmt (FullPath si dataPath))
                       (ConverterProcess (FullPath si dataPath +:+ "." +:+ tsmExt));;
         match err with
         | Some e =>
             ret (Some (ErrorString
                    ("Conversion of " +:+ FullPath si dataPath +:+ " failed: " +:+ Error e)))
         | None =>
             err <~ collab (reader_Close C fmt (FullPath si dataPath))
                           (ReaderClose (FullPath si dataPath));;
             match err with
             | Some e =>
                 ret (Some (ErrorString
                        ("Conversion of " +:+ FullPath si dataPath
                         +:+ " failed due to close: " +:+ Error e)))
             | None =>
                 err <~ os_RemoveAll (FullPath si dataPath);;
                 match err with
                 | Some e =>
                     ret (Some (ErrorString
                            ("Deletion of " +:+ FullPath si dataPath +:+ " failed: "
                             +:+ Error e)))
                 | None =>
                     err <~ os_Rename (FullPath si dataPath +:+ "." +:+ tsmExt)
                                      (FullPath si dataPath);;
                     match err with
                     | Some e =>
                         ret (Some (ErrorString
                                ("Rename of " +:+ (FullPath si dataPath +:+ "." +:+ tsmExt)
                                 +:+ " to " +:+ FullPath si dataPath +:+ " failed: "
                                 +:+ Error e)))
                     | None => ret None
                     end
                 end
             end
         end
     end)).
  { intros fmt.
    apply emits_bind; [apply emits_collab; intros; by apply Hc|].
    intros [e|]; [apply emits_ret|].
    apply emits_bind.
    { apply emits_emit, HP; [done|]. by intros ?? [= <- <-]. }
    intros _. apply emits_bind; [apply emits_collab; intros; by apply Hc|].
    intros [e|]; [apply emits_ret|].
    apply emits_bind; [apply emits_collab; intros; by apply Hc|].
    intros [e|]; [apply emits_ret|].
    apply emits_bind; [apply emits_os_RemoveAll; intros; by apply Hc|].
    intros [e|]; [apply emits_ret|].
    apply emits_bind; [apply emits_os_Rename; intros; by apply Hc|].
    intros [e|]; apply emits_ret. }
  destruct (Format si); [apply Hbody|apply Hbody|apply emits_ret].
Qed.

Lemma emits_convertAll (P : event → Prop) C dataPath sz shards :
  (∀ e, is_convert_event e = true →
        (∀ dst s, e = NewConverter dst s → s = uint32 sz) → P e) →
  emits P (convertAll C dataPath sz shards).
Proof.
  intros HP. induction shards as [|si rest IH]; simpl; [apply emits_ret|].
  apply emits_bind; [apply emits_emit, HP; [done|]; intros; discriminate|]. intros _.
  apply emits_bind; [by apply emits_convertShard|]. intros err.
  apply emits_bind; [apply emits_emit, HP; [done|]; intros; discriminate|]. intros _.
  destruct err as [e|].
  - apply emits_bind; [apply emits_Printf|]. intros _. apply emits_halt.
  - apply emits_bind; [apply emits_Printf|]. intros _. apply IH.
Qed.

(** ** Discovery *)

Lemma collectShards_reads_only C dataPath dbs :
  ∀ acc, reads_only (collectShards C dataPath dbs acc).
Proof.
  induction dbs as [|db rest IH]; intros acc w; simpl; [done|].
  destruct (Str.HasSuffix db backupExt).
  - go_unfold. by rewrite IH.
  - go_unfold. destruct (db_Shards C _ (nodes w)) as [shs|err]; [|done].
    by rewrite IH.
Qed.

Lemma collectShards_events C dataPath dbs :
  ∀ acc, emits (λ e, ∃ db, e = CallShards db ∧ db ∈ dbs
                           ∧ Str.HasSuffix db backupExt = false)
               (collectShards C dataPath dbs acc).
Proof.
  induction dbs as [|db rest IH]; intros acc; simpl; [apply emits_ret|].
  assert (Hmono : ∀ acc', emits
            (λ e, ∃ db', e = CallShards db' ∧ db' ∈ db :: rest
                         ∧ Str.HasSuffix db' backupExt = false)
            (collectShards C dataPath rest acc')).
  { intros acc' w. destruct (IH acc' w) as (evs & Ht & Hall). exists evs. split; [done|].
    eapply Forall_impl; [exact Hall|]. intros e (db' & -> & Hin & Hs).
    exists db'. split; [done|]. split; [by right|done]. }
  destruct (Str.HasSuffix db backupExt) eqn:Hs.
  - apply emits_bind; [apply emits_Printf|]. intros _. apply Hmono.
  - apply emits_bind.
    { apply emits_emit. exists db. split; [done|]. split; [by left|done]. }
    intros _. apply emits_bind; [intros w; exists []; by rewrite app_nil_r|].
    intros [shs|err]; [apply Hmono|].
    apply emits_bind; [apply emits_Eprintf|]. intros _. apply emits_halt.
Qed.

Lemma collectShards_val C dataPath dbs :
  ∀ acc w shards w',
    collectShards C dataPath dbs acc w = (Val shards, w') →
    (∀ si, si ∈ shards →
       si ∈ acc ∨
       ∃ db shs, db ∈ dbs ∧ Str.HasSuffix db backupExt = false ∧
                 db_Shards C (Join [dataPath; db]) (nodes w) = inl shs ∧ si ∈ shs) ∧
    ∃ out, stdout w' = (stdout w ++ out)%list ∧
           ∀ db, db ∈ dbs → Str.HasSuffix db backupExt = true → In (skip_message db) out.
Proof.
  induction dbs as [|db rest IH]; intros acc w shards w' Hrun; simpl in Hrun.
  - injection Hrun as <- <-. split; [by left|]. exists []. rewrite app_nil_r.
    split; [done|]. intros db Hin. by apply elem_of_nil in Hin.
  - destruct (Str.HasSuffix db backupExt) eqn:Hs.
    + go_unfold. apply IH in Hrun as (Hsh & out & Hout & Hskip). simpl in *. split.
      * intros si Hsi. destruct (Hsh si Hsi) as [?|(db' & shs & ? & ? & ? & ?)]; [by left|].
        right. exists db', shs. split; [by right|done].
      * eexists (_ :: out). rewrite Hout, <- app_assoc. split; [reflexivity|].
        intros db' [->|Hin]%elem_of_cons Hs'; [by left|]. right. by apply Hskip.
    + go_unfold. destruct (db_Shards C _ (nodes w)) as [shs|err] eqn:Hshs; [|done].
      apply IH in Hrun as (Hsh & out & Hout & Hskip). simpl in *. split.
      * intros si Hsi.
        destruct (Hsh si Hsi) as [[?|?]%elem_of_app|(db' & shs' & ? & ? & ? & ?)].
        -- by left.
        -- right. exists db, shs. split; [by left|done].
        -- right. exists db', shs'. split; [by right|done].
      * exists out. split; [done|].
        intros db' [->|Hin]%elem_of_cons Hs'; [congruence|]. by apply Hskip.
Qed.

Lemma collectShards_skips C dataPath dbs :
  ∀ acc w1 w2,
    nodes w1 = nodes w2 →
    (collectShards C dataPath dbs acc w1).1
    = (collectShards C dataPath
         (List.filter (λ db, negb (Str.HasSuffix db backupExt)) dbs) acc w2).1.
Proof.
  induction dbs as [|db rest IH]; intros acc w1 w2 Hn; simpl; [done|].
  destruct (Str.HasSuffix db backupExt) eqn:Hs; simpl.
  - go_unfold. by apply IH.
  - rewrite Hs. go_unfold. rewrite Hn.
    destruct (db_Shards C _ (nodes w2)) as [shs|err]; [|done]. by apply IH.
Qed.

Lemma FilterFormat_elem l fmt si : si ∈ FilterFormat l fmt → si ∈ l.
Proof.
  unfold FilterFormat. rewrite !list_elem_of_In, filter_In. tauto.
Qed.

Lemma FilterDatabases_elem l dbs si : si ∈ FilterDatabases l dbs → si ∈ l.
Proof.
  unfold FilterDatabases. destruct dbs; [done|].
  rewrite !list_elem_of_In, filter_In. tauto.
Qed.

Lemma sortShards_elem l si : si ∈ sortShards l → si ∈ l.
Proof. unfold sortShards. by rewrite merge_sort_Permutation. Qed.

Lemma discover_reads_only C cfg dataPath : reads_only (discover C cfg dataPath).
Proof.
  intros w. unfold discover, ioutil_ReadDir. go_unfold.
  destruct (is_denied dataPath w); [done|].
  destruct (nodes w !! dataPath) as [[?|??]|]; try done. simpl.
  pose proof (collectShards_reads_only C dataPath (readDirNames dataPath (nodes w)) []
                (mkWorld (nodes w) (denied w) (stdin w) (stdout w ++ [nl]) (stderr w) (trace w)))
    as Hro.
  destruct (collectShards _ _ _ _ _) as [[shards|h] w1]; exact Hro.
Qed.

Lemma discover_events C cfg dataPath :
  emits (λ e, ∃ db, e = CallShards db ∧ Str.HasSuffix db backupExt = false)
        (discover C cfg dataPath).
Proof.
  unfold discover. apply emits_bind.
  { apply emits_fs_only. intros w. unfold ioutil_ReadDir.
    destruct (is_denied dataPath w); [by destruct w|].
    destruct (nodes w !! dataPath) as [[?|??]|]; by destruct w. }
  intros [dbs|err].
  - apply emits_bind; [apply emits_Printf|]. intros _.
    apply emits_bind; [|intros; apply emits_ret].
    intros w. destruct (collectShards_events C dataPath dbs [] w) as (evs & Ht & Hall).
    exists evs. split; [done|]. eapply Forall_impl; [exact Hall|].
    intros e (db & -> & _ & Hs). by exists db.
  - apply emits_bind; [apply emits_Eprintf|]. intros _. apply emits_halt.
Qed.

(** C9. Discovery never asks a directory whose name ends in the backup
    suffix for its shards: it prints the "Skipping" diagnostic and goes
    on, so that the outcome is the one of a data root without these
    directories, and every shard of the plan comes from a directory
    without the suffix. [mydb.bak] is such a name. *)
Theorem backup_directories_are_skipped
    (C : Collab) (cfg : Config) (dataPath : string) (w : World) :
  let r := discover C cfg dataPath w in
  (∃ evs, trace r.2 = (trace w ++ evs)%list ∧
          ∀ db, In (CallShards db) evs → Str.HasSuffix db backupExt = false) ∧
  (∀ plan, r.1 = Val plan →
     (∀ si, si ∈ plan →
        ∃ db shs, db ∈ readDirNames dataPath (nodes w) ∧
                  Str.HasSuffix db backupExt = false ∧
                  db_Shards C (Join [dataPath; db]) (nodes w) = inl shs ∧ si ∈ shs) ∧
     (∃ out, stdout r.2 = (stdout w ++ out)%list ∧
             ∀ db, db ∈ readDirNames dataPath (nodes w) →
                   Str.HasSuffix db backupExt = true → In (skip_message db) out)) ∧
  (∀ dbs acc,
     (collectShards C dataPath dbs acc w).1
     = (collectShards C dataPath
          (List.filter (λ db, negb (Str.HasSuffix db backupExt)) dbs) acc w).1) ∧
  Str.HasSuffix "mydb.bak" backupExt = true.
Proof.
  intros r. split; [|split; [|split]].
  - destruct (discover_events C cfg dataPath w) as (evs & Ht & Hall).
    exists evs. split; [exact Ht|]. intros db Hin.
    rewrite Forall_forall in Hall. apply list_elem_of_In, Hall in Hin.
    destruct Hin as (db' & [= <-] & Hs). exact Hs.
  - intros plan Hplan. subst r. unfold discover, ioutil_ReadDir in Hplan. go_unfold.
    unfold discover, ioutil_ReadDir. go_unfold.
    destruct (is_denied dataPath w); [done|].
    destruct (nodes w !! dataPath) as [[?|??]|]; try done. simpl in *.
    destruct (collectShards C dataPath (readDirNames dataPath (nodes w)) [] _)
      as [[shards|h] w1] eqn:Hrun; [|done].
    simpl in Hplan. injection Hplan as <-.
    apply collectShards_val in Hrun as (Hsh & out & Hout & Hskip). simpl in *. split.
    + intros si Hsi.
      apply FilterDatabases_elem, FilterFormat_elem, sortShards_elem, Hsh in Hsi.
      destruct Hsi as [Hnil|Hsi]; [by apply elem_of_nil in Hnil|exact Hsi].
    + exists (nl :: out). rewrite Hout, <- app_assoc. split; [done|].
      intros db Hin Hs. right. by apply Hskip.
  - intros dbs acc. by apply collectShards_skips.
  - reflexivity.
Qed.

(** ** Backups, then conversions *)

Lemma backupAll_events fuel dataPath dbs :
  ∀ w res w',
    backupAll fuel dataPath dbs w = (res, w') →
    ∃ evs, trace w' = (trace w ++ evs)%list ∧
      Forall (λ e, is_backup_event e = true) evs ∧
      (res = Val tt → ∀ db, db ∈ dbs → In (RetBackup (Join [dataPath; db]) None) evs) ∧
      (∀ src e, In (RetBackup src (Some e)) evs → res = Halt (Exit 1)).
Proof.
  induction dbs as [|db rest IH]; intros w res w' Hrun; simpl in Hrun.
  - injection Hrun as <- <-. exists []. rewrite app_nil_r. repeat split; auto.
    + intros _ db Hin. by apply elem_of_nil in Hin.
    + intros ?? [].
  - unfold bind at 1 in Hrun. unfold emit at 1 in Hrun. simpl in Hrun.
    set (w1 := mkWorld _ _ _ _ _ _) in Hrun.
    unfold bind at 1 in Hrun.
    pose proof (fs_only_backupDatabase fuel (Join [dataPath; db]) w1) as Hfs.
    destruct (backupDatabase fuel (Join [dataPath; db]) w1) as [[err|h] w2]; simpl in Hfs.
    + unfold bind at 1 in Hrun. unfold emit at 1 in Hrun. simpl in Hrun.
      destruct err as [e|].
      * go_unfold. injection Hrun as <- <-. rewrite Hfs. simpl.
        eexists [_; _]. rewrite <- app_assoc.
        split; [reflexivity|]. split; [by repeat constructor|]. split; [done|].
        intros src e' _. reflexivity.
      * unfold bind at 1 in Hrun. unfold Printf at 1 in Hrun. simpl in Hrun.
        apply IH in Hrun as (evs & Ht & Hall & Hok & Hfail).
        exists (CallBackup (Join [dataPath; db])
                :: RetBackup (Join [dataPath; db]) None :: evs).
        rewrite Ht. simpl. rewrite Hfs. simpl. rewrite <- !app_assoc.
        split; [reflexivity|]. split; [by repeat constructor|]. split.
        -- intros Hval db' [->|Hin]%elem_of_cons; [right; by left|].
           right; right. by apply Hok.
        -- intros src e [?|[?|Hin]]; [discriminate..|]. by eapply Hfail.
    + injection Hrun as <- <-. rewrite Hfs. simpl. eexists [_]. split; [reflexivity|].
      split; [by repeat constructor|]. split; [done|].
      intros ?? [?|[]]; discriminate.
Qed.

Lemma app_eq_middle {A} (P : A → Prop) (l1 l2 pre post : list A) (x : A) :
  Forall P l1 → ¬ P x →
  (l1 ++ l2 = pre ++ x :: post)%list →
  ∃ mid, pre = (l1 ++ mid)%list ∧ l2 = (mid ++ x :: post)%list.
Proof.
  revert pre. induction l1 as [|a l1 IH]; intros pre Hall Hx Heq; simpl in *.
  - by exists pre.
  - apply Forall_cons in Hall as [Ha Hall]. destruct pre as [|b pre]; simpl in *.
    + injection Heq as <- _. contradiction.
    + injection Heq as <- Heq. destruct (IH pre Hall Hx Heq) as (mid & -> & ->).
      by exists mid.
Qed.

Lemma Databases_elem plan si : si ∈ plan → Database si ∈ Databases plan.
Proof.
  intros Hin. unfold Databases. apply elem_of_remove_dups, list_elem_of_fmap.
  by exists si.
Qed.

(** The shape of a run of [main] that was given a data directory. *)
Lemma main_run fuel C cfg dataPath rest w res w' :
  args cfg = dataPath :: rest →
  main fuel C cfg w = (res, w') →
  ((maxTSMSz <? tsmSz cfg)%N = true ∧ res = Halt (Exit 1) ∧
   trace w' = trace w ∧ nodes w' = nodes w ∧ stdout w' = stdout w) ∨
  ((maxTSMSz <? tsmSz cfg)%N = false ∧
   ∃ dres w1, discover C cfg dataPath w = (dres, w1) ∧
     match dres with
     | Halt h => res = Halt h ∧ w' = w1
     | Val plan =>
         (plan = [] ∧ res = Halt (Exit 0) ∧
          w' = mkWorld (nodes w1) (denied w1) (stdin w1)
                       (stdout w1 ++ ["Nothing to do." +:+ nl]) (stderr w1) (trace w1)) ∨
         (plan ≠ [] ∧
          ((res = Halt (Exit 1) ∧ trace w' = trace w1 ∧ nodes w' = nodes w1) ∨
           ∃ w2 bres w3,
             trace w2 = trace w1 ∧ nodes w2 = nodes w1 ∧
             backupAll fuel dataPath (Databases plan) w2 = (bres, w3) ∧
             match bres with
             | Halt h => res = Halt h ∧ w' = w3
             | Val _ => convertAll C dataPath (tsmSz cfg) plan w3 = (res, w')
             end))
     end).
Proof.
  intros Hargs Hrun. unfold main in Hrun. rewrite Hargs in Hrun.
  destruct (maxTSMSz <? tsmSz cfg)%N eqn:Hsz.
  { left. go_unfold. injection Hrun as <- <-. auto. }
  right. split; [done|]. unfold bind at 1 in Hrun.
  destruct (discover C cfg dataPath w) as [[plan|h] w1] eqn:Hdis.
  2:{ injection Hrun as <- <-. by exists (Halt h), w1. }
  exists (Val plan), w1. split; [done|].
  destruct plan as [|si0 plan'].
  { left. go_unfold. injection Hrun as <- <-. auto. }
  right. split; [done|].
  remember (si0 :: plan') as plan eqn:Hplan.
  assert (Hlen : (length plan =? 0)%nat = false) by (by subst plan).
  rewrite Hlen in Hrun. clear Hlen Hplan.
  unfold displayPlan in Hrun.
  unfold bind at 1 in Hrun. unfold bind at 1 in Hrun. unfold Printf at 1 in Hrun.
  unfold Printf at 1 in Hrun. simpl in Hrun.
  unfold bind at 1 in Hrun. unfold Printf at 1 in Hrun. simpl in Hrun.
  unfold bind at 1 in Hrun. unfold ReadString_nl at 1 in Hrun. simpl in Hrun.
  destruct (read_line (stdin w1)) as [[l r]|].
  2:{ left. go_unfold. injection Hrun as <- <-. auto. }
  destruct (negb (String.eqb (Str.TrimRightNL (Str.ToLower l)) "y")).
  { left. go_unfold. injection Hrun as <- <-. auto. }
  right. unfold bind at 1 in Hrun. unfold Printf at 1 in Hrun. simpl in Hrun.
  unfold bind at 1 in Hrun.
  match type of Hrun with context [backupAll fuel dataPath (Databases plan) ?w2] =>
    exists w2; destruct (backupAll fuel dataPath (Databases plan) w2) as [[[]|h] w3] eqn:Hb
  end.
  - exists (Val tt), w3. auto.
  - injection Hrun as <- <-. exists (Halt h), w3. auto.
Qed.

Lemma discover_event_kinds e :
  (∃ db, e = CallShards db ∧ Str.HasSuffix db backupExt = false) →
  is_backup_event e = false ∧ is_convert_event e = false.
Proof. by intros (db & -> & _). Qed.

(** C2. In a run of [main] whose discovery gave the plan [plan]: when the
    conversion of a shard begins, the backup of the database of every
    planned shard has returned without error, and no backup event follows;
    when a backup returns an error, [main] exits with code 1 and no
    conversion has begun or will. *)
Theorem backups_precede_conversions
    (fuel : nat) (C : Collab) (cfg : Config) (dataPath : string) (rest : list string)
    (w : World) (plan : list ShardInfo) (w1 : World) :
  args cfg = dataPath :: rest →
  discover C cfg dataPath w = (Val plan, w1) →
  let r := main fuel C cfg w in
  ∃ evs, trace r.2 = (trace w ++ evs)%list ∧
    (∀ pre si post, evs = (pre ++ CallConvert si :: post)%list →
       (∀ si', si' ∈ plan → In (RetBackup (Join [dataPath; Database si']) None) pre) ∧
       Forall (λ e, is_backup_event e = false) post) ∧
    (∀ src e, In (RetBackup src (Some e)) evs →
       r.1 = Halt (Exit 1) ∧ ∀ si, ¬ In (CallConvert si) evs).
Proof.
  intros Hargs Hdis r. subst r.
  destruct (main fuel C cfg w) as [res w'] eqn:Hrun. simpl.
  destruct (discover_events C cfg dataPath w) as (dis & Hdt & Hdall).
  rewrite Hdis in Hdt. simpl in Hdt.
  assert (Hdkind : Forall (λ e, is_backup_event e = false ∧ is_convert_event e = false) dis).
  { eapply Forall_impl; [exact Hdall|]. apply discover_event_kinds. }
  assert (Hnodis : ∀ evs', Forall (λ e, is_backup_event e = true) evs' →
     (∀ pre si post, (dis ++ evs')%list = (pre ++ CallConvert si :: post)%list → False) ∧
     (∀ si, ¬ In (CallConvert si) (dis ++ evs'))).
  { intros evs' Hbk.
    assert (Hno : ∀ si, ¬ In (CallConvert si) (dis ++ evs')).
    { intros si [Hin|Hin]%in_app_or.
      - rewrite Forall_forall in Hdkind. apply list_elem_of_In, Hdkind in Hin.
        by destruct Hin.
      - rewrite Forall_forall in Hbk. by apply list_elem_of_In, Hbk in Hin. }
    split; [|exact Hno]. intros pre si post Heq. apply (Hno si). rewrite Heq.
    apply in_or_app. right. by left. }
  assert (Hnobk : ∀ src e, ¬ In (RetBackup src (Some e)) dis).
  { intros src e Hin. rewrite Forall_forall in Hdkind.
    apply list_elem_of_In, Hdkind in Hin. by destruct Hin. }
  destruct (main_run _ _ _ _ _ _ _ _ Hargs Hrun)
    as [(_ & -> & Ht & _)|(_ & dres & w1' & Hdis' & Hcase)].
  { exists []. rewrite app_nil_r. split; [done|]. split.
    - intros pre si post Heq. by destruct pre.
    - intros ?? []. }
  rewrite Hdis in Hdis'. injection Hdis' as <- <-.
  destruct Hcase as [(-> & -> & ->)|(Hne & [(-> & Ht & _)|(w2 & bres & w3 & Ht2 & _ & Hb & Hc)])].
  - exists dis. simpl. split; [done|].
    destruct (Hnodis [] ltac:(constructor)) as [Hno1 Hno2]. rewrite app_nil_r in *. split.
    + intros pre si post Heq. destruct (Hno1 _ _ _ Heq).
    + intros src e Hin. by destruct (Hnobk src e).
  - exists dis. rewrite Ht. split; [done|].
    destruct (Hnodis [] ltac:(constructor)) as [Hno1 Hno2]. rewrite app_nil_r in *. split.
    + intros pre si post Heq. destruct (Hno1 _ _ _ Heq).
    + intros src e Hin. by destruct (Hnobk src e).
  - apply backupAll_events in Hb as (bk & Htb & Hbk & Hok & Hfail).
    destruct bres as [[]|h].
    + (* all backups succeeded, conversions follow *)
      destruct (emits_convertAll (λ e, is_convert_event e = true) C dataPath
                  (tsmSz cfg) plan ltac:(auto) w3) as (cv & Htc & Hcv).
      rewrite Hc in Htc. simpl in Htc.
      exists (dis ++ bk ++ cv)%list.
      rewrite Htc, Htb, Ht2, Hdt, <- !app_assoc. split; [done|]. split.
      * intros pre si post Heq.
        rewrite app_assoc in Heq.
        apply (app_eq_middle (λ e, is_convert_event e = false)) in Heq
          as (mid & -> & ->); [| |done].
        2:{ apply Forall_app. split.
            - eapply Forall_impl; [exact Hdkind|]. by intros ? [].
            - eapply Forall_impl; [exact Hbk|]. by intros []. }
        split.
        -- intros si' Hsi'. apply in_or_app. left. apply in_or_app. right.
           apply Hok; [done|]. by apply Databases_elem.
        -- apply Forall_app in Hcv as [_ Hcv]. apply Forall_cons in Hcv as [_ Hcv].
           eapply Forall_impl; [exact Hcv|]. by intros [].
      * intros src e [Hin|[Hin|Hin]%in_app_or]%in_app_or.
        -- by destruct (Hnobk src e).
        -- by apply Hfail in Hin.
        -- rewrite Forall_forall in Hcv. by apply list_elem_of_In, Hcv in Hin.
    + destruct Hc as [-> ->]. exists (dis ++ bk)%list.
      rewrite Htb, Ht2, Hdt, <- app_assoc. split; [done|].
      destruct (Hnodis bk Hbk) as [Hno1 Hno2]. split.
      * intros pre si post Heq. destruct (Hno1 _ _ _ Heq).
      * intros src e [Hin|Hin]%in_app_or; [by destruct (Hnobk src e)|].
        split; [by eapply Hfail|exact Hno2].
Qed.

(** C7. When discovery and the two filters leave no shard, [main] prints
    "Nothing to do." and exits with code 0; the file system is as it was,
    and no backup and no conversion has been started. *)
Theorem empty_plan_is_success
    (fuel : nat) (C : Collab) (cfg : Config) (dataPath : string) (rest : list string)
    (w w1 : World) :
  args cfg = dataPath :: rest →
  (tsmSz cfg <= maxTSMSz)%N →
  discover C cfg dataPath w = (Val [], w1) →
  main fuel C cfg w =
    (Halt (Exit 0),
     mkWorld (nodes w1) (denied w1) (stdin w1)
             (stdout w1 ++ ["Nothing to do." +:+ nl]) (stderr w1) (trace w1)) ∧
  nodes w1 = nodes w ∧
  ∃ evs, trace w1 = (trace w ++ evs)%list ∧
         Forall (λ e, is_backup_event e = false ∧ is_convert_event e = false) evs.
Proof.
  intros Hargs Hsz Hdis. split; [|split].
  - destruct (main fuel C cfg w) as [res w'] eqn:Hrun.
    destruct (main_run _ _ _ _ _ _ _ _ Hargs Hrun)
      as [(Hbig & _)|(_ & dres & w1' & Hdis' & Hcase)].
    { apply N.ltb_lt in Hbig. lia. }
    rewrite Hdis in Hdis'. injection Hdis' as <- <-.
    destruct Hcase as [(_ & -> & ->)|(Hne & _)]; [done|by destruct Hne].
  - pose proof (discover_reads_only C cfg dataPath w) as Hro. by rewrite Hdis in Hro.
  - destruct (discover_events C cfg dataPath w) as (dis & Hdt & Hdall).
    rewrite Hdis in Hdt. exists dis. split; [done|].
    eapply Forall_impl; [exact Hdall|]. apply discover_event_kinds.
Qed.

(** C10. A [-sz] above 1 GiB makes [main] exit with code 1 before it has
    listed anything; hence in every run that reaches a conversion event,
    [tsmSz] is at most [1*1024*1024*1024], the [uint32] conversion leaves
    it as it is, and every converter is made with exactly [tsmSz]. *)
Theorem tsmSz_fits_uint32 (fuel : nat) (C : Collab) (cfg : Config) (w : World) :
  let r := main fuel C cfg w in
  ((maxTSMSz < tsmSz cfg)%N →
     r.1 = Halt (Exit 1) ∧ trace r.2 = trace w ∧ nodes r.2 = nodes w
     ∧ stdout r.2 = stdout w) ∧
  ∃ evs, trace r.2 = (trace w ++ evs)%list ∧
    ∀ e, In e evs → is_convert_event e = true →
      (tsmSz cfg <= 1 * 1024 * 1024 * 1024)%N ∧
      uint32 (tsmSz cfg) = tsmSz cfg ∧
      ∀ dst sz, e = NewConverter dst sz → sz = tsmSz cfg.
Proof.
  intros r. subst r. destruct (main fuel C cfg w) as [res w'] eqn:Hrun. simpl.
  destruct (args cfg) as [|dataPath rest] eqn:Hargs.
  { unfold main in Hrun. rewrite Hargs in Hrun. go_unfold. injection Hrun as <- <-.
    simpl. split; [done|]. exists []. rewrite app_nil_r. split; [done|]. intros ? []. }
  destruct (main_run _ _ _ _ _ _ _ _ Hargs Hrun)
    as [(Hbig & -> & Ht & Hn & Ho)|(Hsmall & dres & w1 & Hdis & Hcase)].
  { split; [done|]. exists []. rewrite app_nil_r. split; [done|]. intros ? []. }
  apply N.ltb_ge in Hsmall. split; [lia|].
  assert (Hu : uint32 (tsmSz cfg) = tsmSz cfg).
  { unfold uint32. apply N.mod_small. unfold maxTSMSz in Hsmall. lia. }
  destruct (discover_events C cfg dataPath w) as (dis & Hdt & Hdall).
  rewrite Hdis in Hdt. simpl in Hdt.
  assert (Hdkind : ∀ e, In e dis → is_convert_event e = true → False).
  { intros e Hin He. rewrite Forall_forall in Hdall.
    apply list_elem_of_In, Hdall, discover_event_kinds in Hin. destruct Hin. congruence. }
  destruct dres as [plan|h].
  2:{ destruct Hcase as [-> ->]. exists dis. split; [done|].
      intros e Hin He. destruct (Hdkind e Hin He). }
  destruct Hcase as [(-> & -> & ->)|(Hne & [(-> & Ht & _)|(w2 & bres & w3 & Ht2 & _ & Hb & Hc)])].
  - exists dis. split; [done|]. intros e Hin He. destruct (Hdkind e Hin He).
  - exists dis. rewrite Ht. split; [done|]. intros e Hin He. destruct (Hdkind e Hin He).
  - apply backupAll_events in Hb as (bk & Htb & Hbk & _ & _).
    assert (Hbkind : ∀ e, In e bk → is_convert_event e = true → False).
    { intros e Hin He. rewrite Forall_forall in Hbk.
      apply list_elem_of_In, Hbk in Hin. by destruct e. }
    destruct bres as [[]|h].
    + destruct (emits_convertAll
                  (λ e, ∀ dst s, e = NewConverter dst s → s = uint32 (tsmSz cfg))
                  C dataPath (tsmSz cfg) plan ltac:(auto) w3) as (cv & Htc & Hcv).
      rewrite Hc in Htc. simpl in Htc.
      exists (dis ++ bk ++ cv)%list. rewrite Htc, Htb, Ht2, Hdt, <- !app_assoc.
      split; [done|].
      intros e [Hin|[Hin|Hin]%in_app_or]%in_app_or He.
      * destruct (Hdkind e Hin He).
      * destruct (Hbkind e Hin He).
      * split; [exact Hsmall|]. split; [exact Hu|]. intros dst s' ->.
        rewrite Forall_forall in Hcv. apply list_elem_of_In in Hin.
        rewrite <- Hu. by eapply (Hcv _ Hin).
    + destruct Hc as [-> ->]. exists (dis ++ bk)%list.
      rewrite Htb, Ht2, Hdt, <- app_assoc. split; [done|].
      intros e [Hin|Hin]%in_app_or He;
        [destruct (Hdkind e Hin He)|destruct (Hbkind e Hin He)].
Qed.

(** C8 (what the code does). The [-parallel] flag is parsed and never
    read: two runs that differ in it only are the same run, shard after
    shard in the order of the plan. *)
Theorem parallel_flag_is_ignored
    (fuel : nat) (C : Collab) (a : list string) (d : string) (sz : N) (w : World) :
  main fuel C (mkConfig a d sz true) w = main fuel C (mkConfig a d sz false) w.
Proof. reflexivity. Qed.

(** ** The properties above on the example data root *)

Lemma failing_frame : collab_frame TsmSample.failing (FullPath TsmSample.shard1 "d").
Proof.
  intros fmt. split; [|split].
  - intros m k _. reflexivity.
  - intros sz m k Hk. simpl.
    destruct (decide (FullPath TsmSample.shard1 "d" +:+ "." +:+ tsmExt = k)) as [<-|Hne].
    + vm_compute in Hk. discriminate.
    + by rewrite lookup_insert_ne.
  - intros m k _. reflexivity.
Defined.

(** On the example data root, with the converter that fails: the shard is
    where it was and nothing was removed. *)
Lemma convertShard_failure_keeps_source_witness :
  collab_frame TsmSample.failing (FullPath TsmSample.shard1 "d") ∧
  nodes (convertShard TsmSample.failing "d" 1000 TsmSample.shard1 TsmSample.world).2
    !! "d/db/rp/1" = Some (File 420 "legacy-1") ∧
  ∀ p err,
    ¬ In (SysRemoveAll p err)
         (trace (convertShard TsmSample.failing "d" 1000 TsmSample.shard1
                   TsmSample.world).2).
Proof.
  split; [exact failing_frame|].
  destruct (convertShard_failure_keeps_source TsmSample.failing "d" 1000
              TsmSample.shard1 TsmSample.world failing_frame)
    as (evs & Ht & Hfail & _).
  change (trace TsmSample.world) with (@nil event) in Ht. simpl app in Ht.
  rewrite Ht.
  assert (Hev : evs = [ReaderOpen "d/db/rp/1" None; NewConverter "d/db/rp/1.tsm" 1000;
                       ConverterProcess "d/db/rp/1.tsm"
                         (Some (ErrorString "no space left on device"))]).
  { rewrite <- Ht. vm_compute. reflexivity. }
  destruct Hfail as (_ & Hrm & _ & Hkeep).
  { right. eexists. right. left. rewrite Hev. right. right. left. reflexivity. }
  split; [|exact Hrm].
  rewrite (Hkeep "d/db/rp/1" eq_refl). reflexivity.
Defined.

(** On the example data root, with the collaborators that work. *)
Lemma backups_precede_conversions_witness :
  args TsmSample.config = "d" :: [] ∧
  discover TsmSample.working TsmSample.config "d" TsmSample.world
    = (Val [TsmSample.shard1; TsmSample.shard2], TsmSample.discovered) ∧
  ∃ evs,
    trace (main 20 TsmSample.working TsmSample.config TsmSample.world).2
      = (trace TsmSample.world ++ evs)%list ∧
    (∀ pre si post, evs = (pre ++ CallConvert si :: post)%list →
       (∀ si', si' ∈ [TsmSample.shard1; TsmSample.shard2] →
               In (RetBackup (Join ["d"; Database si']) None) pre) ∧
       Forall (λ e, is_backup_event e = false) post) ∧
    (∀ src e, In (RetBackup src (Some e)) evs →
       (main 20 TsmSample.working TsmSample.config TsmSample.world).1 = Halt (Exit 1) ∧
       ∀ si, ¬ In (CallConvert si) evs).
Proof.
  assert (Hd : discover TsmSample.working TsmSample.config "d" TsmSample.world
               = (Val [TsmSample.shard1; TsmSample.shard2], TsmSample.discovered))
    by (vm_compute; reflexivity).
  split; [reflexivity|]. split; [exact Hd|].
  exact (backups_precede_conversions 20 TsmSample.working TsmSample.config "d" []
           TsmSample.world _ _ eq_refl Hd).
Defined.

(** On the example data root, when a database that is not there is asked
    for. *)
Lemma empty_plan_is_success_witness :
  args TsmSample.config_other = "d" :: [] ∧
  (tsmSz TsmSample.config_other <= maxTSMSz)%N ∧
  discover TsmSample.working TsmSample.config_other "d" TsmSample.world
    = (Val [], TsmSample.discovered) ∧
  (main 20 TsmSample.working TsmSample.config_other TsmSample.world).1 = Halt (Exit 0).
Proof.
  assert (Hd : discover TsmSample.working TsmSample.config_other "d" TsmSample.world
               = (Val [], TsmSample.discovered)) by (vm_compute; reflexivity).
  assert (Hsz : (tsmSz TsmSample.config_other <= maxTSMSz)%N) by (vm_compute; discriminate).
  split; [reflexivity|]. split; [exact Hsz|]. split; [exact Hd|].
  destruct (empty_plan_is_success 20 TsmSample.working TsmSample.config_other "d" []
              TsmSample.world TsmSample.discovered eq_refl Hsz Hd) as (-> & _).
  reflexivity.
Defined.

(** On the example data root, which holds [mydb.bak]: both shards of the
    plan come from [db]. *)
Lemma backup_directories_are_skipped_witness :
  (discover TsmSample.working TsmSample.config "d" TsmSample.world).1
    = Val [TsmSample.shard1; TsmSample.shard2] ∧
  "mydb.bak" ∈ readDirNames "d" (nodes TsmSample.world) ∧
  ∀ si, si ∈ [TsmSample.shard1; TsmSample.shard2] →
    ∃ db shs, db ∈ readDirNames "d" (nodes TsmSample.world) ∧
              Str.HasSuffix db backupExt = false ∧
              db_Shards TsmSample.working (Join ["d"; db]) (nodes TsmSample.world)
                = inl shs ∧ si ∈ shs.
Proof.
  assert (Hd : (discover TsmSample.working TsmSample.config "d" TsmSample.world).1
               = Val [TsmSample.shard1; TsmSample.shard2]) by (vm_compute; reflexivity).
  split; [exact Hd|]. split.
  { assert (Hn : readDirNames "d" (nodes TsmSample.world) = ["db"; "mydb.bak"])
      by (vm_compute; reflexivity).
    rewrite Hn. apply elem_of_cons. right. apply list_elem_of_here. }
  destruct (backup_directories_are_skipped TsmSample.working TsmSample.config "d"
              TsmSample.world) as (_ & Hplan & _).
  destruct (Hplan _ Hd) as [Hsi _]. exact Hsi.
Defined.

(** On the example data root, with [-sz] at 2 GiB. *)
Lemma tsmSz_fits_uint32_witness :
  (maxTSMSz < tsmSz TsmSample.config_big)%N ∧
  (main 20 TsmSample.working TsmSample.config_big TsmSample.world).1 = Halt (Exit 1).
Proof.
  assert (Hsz : (maxTSMSz < tsmSz TsmSample.config_big)%N) by reflexivity.
  split; [exact Hsz|].
  destruct (tsmSz_fits_uint32 20 TsmSample.working TsmSample.config_big TsmSample.world)
    as [Hbig _].
  destruct (Hbig Hsz) as [-> _]. reflexivity.
Defined.

(** ** Paths as strings *)

Lemma sapp_cons a s t : String a s +:+ t = String a (s +:+ t).
Proof. reflexivity. Qed.

Lemma sapp_nil_l s : "" +:+ s = s.
Proof. reflexivity. Qed.

Lemma sapp_nil_r s : s +:+ "" = s.
Proof. induction s as [|a s IH]; [done|]. by rewrite sapp_cons, IH. Qed.

Lemma sapp_assoc a b c : (a +:+ b) +:+ c = a +:+ (b +:+ c).
Proof. induction a as [|x a IH]; [done|]. by rewrite !sapp_cons, IH. Qed.

Lemma slength_app a b : String.length (a +:+ b) = (String.length a + String.length b)%nat.
Proof. induction a as [|x a IH]; [done|]. rewrite sapp_cons. simpl. by rewrite IH. Qed.

Lemma sapp_eq_nil a b : a +:+ b = "" → a = "" ∧ b = "".
Proof. destruct a; [done|]. rewrite sapp_cons. discriminate. Qed.

Lemma prefix_app p r : String.prefix p (p +:+ r) = true.
Proof.
  induction p as [|a p IH]; [by destruct r|].
  rewrite sapp_cons. simpl. destruct (ascii_dec a a); [exact IH|done].
Qed.

Lemma prefix_inv p s : String.prefix p s = true → ∃ r, s = p +:+ r.
Proof.
  revert s. induction p as [|a p IH]; intros s Hp; [by exists s|].
  destruct s as [|b s]; [done|]. simpl in Hp.
  destruct (ascii_dec a b) as [->|]; [|done].
  destruct (IH s Hp) as (r & ->). by exists r.
Qed.

Lemma drop_app p r : Str.drop (String.length p) (p +:+ r) = r.
Proof. induction p as [|a p IH]; [by destruct r|]. rewrite sapp_cons. exact IH. Qed.

Lemma Replace1_prefix p r new : Str.Replace1 (p +:+ r) p new = new +:+ r.
Proof.
  assert (H : ∀ s, String.prefix p s = true →
                   Str.Replace1 s p new = new +:+ Str.drop (String.length p) s).
  { intros s Hs. destruct s; simpl in *; [by destruct p|by rewrite Hs]. }
  rewrite H by apply prefix_app. by rewrite drop_app.
Qed.

Lemma sfxb_cases r : sfxb r = true → r = "" ∨ ∃ t, r = "/" +:+ t.
Proof.
  destruct r as [|c r]; [by left|]. simpl. intros Hc%Ascii.eqb_eq. subst c.
  right. by exists r.
Qed.

Lemma sfxb_slash t : sfxb ("/" +:+ t) = true.
Proof. reflexivity. Qed.

Lemma sfxb_app r t : sfxb r = true → sfxb t = true → sfxb (r +:+ t) = true.
Proof. destruct r as [|c r]; [done|]. by rewrite sapp_cons. Qed.

Lemma below_refl p : below p p.
Proof. exists "". by rewrite sapp_nil_r. Qed.

Lemma below_trans p q k : below p q → below q k → below p k.
Proof.
  intros (r & Hr & ->) (t & Ht & ->). exists (r +:+ t). rewrite sapp_assoc.
  split; [by apply sfxb_app|done].
Qed.

Lemma underb_below p k : underb p k = true ↔ below p k.
Proof.
  unfold underb. rewrite orb_true_iff, String.eqb_eq. split.
  - intros [->|Hp]; [apply below_refl|].
    apply prefix_inv in Hp as (r & ->). exists ("/" +:+ r).
    by rewrite <- sapp_assoc.
  - intros (r & Hr & ->). destruct (sfxb_cases r Hr) as [->|(t & ->)].
    + left. by rewrite sapp_nil_r.
    + right. rewrite <- sapp_assoc. apply prefix_app.
Qed.

Lemma underb_not_below p k : underb p k = false ↔ ¬ below p k.
Proof. rewrite <- underb_below. by destruct (underb p k). Qed.

Lemma slashfree_split_last b : Str.slashfree b = true → split_last b = None.
Proof.
  induction b as [|c b IH]; [done|]. simpl. intros [Hc Hb]%andb_true_iff.
  rewrite (IH Hb). by destruct (Ascii.eqb c "/").
Qed.

Lemma split_last_Some s d n :
  split_last s = Some (d, n) → s = d +:+ "/" +:+ n ∧ Str.slashfree n = true.
Proof.
  revert d. induction s as [|c s IH]; intros d Hs; [done|]. simpl in Hs.
  destruct (split_last s) as [[d' n']|] eqn:Hsl.
  - injection Hs as <- <-. destruct (IH d' eq_refl) as [-> Hn]. by rewrite sapp_cons.
  - destruct (Ascii.eqb c "/") eqn:Hc; [|done]. injection Hs as <- <-.
    apply Ascii.eqb_eq in Hc as ->. split; [done|].
    clear IH. induction s as [|c s IH]; [done|]. simpl in *.
    destruct (split_last s) as [[??]|]; [done|].
    destruct (Ascii.eqb c "/"); [done|]. simpl. by apply IH.
Qed.

Lemma split_last_None s : split_last s = None → Str.slashfree s = true.
Proof.
  induction s as [|c s IH]; [done|]. simpl.
  destruct (split_last s) as [[??]|]; [done|].
  destruct (Ascii.eqb c "/"); [done|]. intros _. simpl. by apply IH.
Qed.

Lemma split_last_app a b :
  split_last (a +:+ "/" +:+ b) =
  match split_last b with
  | Some (d, n) => Some (a +:+ "/" +:+ d, n)
  | None => Some (a, b)
  end.
Proof.
  induction a as [|c a IH].
  - rewrite !sapp_nil_l. change ("/" +:+ b) with (String "/" b). simpl.
    by destruct (split_last b) as [[d n]|].
  - rewrite sapp_cons. simpl. rewrite IH. by destruct (split_last b) as [[d n]|].
Qed.

Lemma split_last_app_slashfree s x :
  Str.slashfree x = true →
  split_last (s +:+ x) =
  match split_last s with
  | Some (d, n) => Some (d, n +:+ x)
  | None => None
  end.
Proof.
  intros Hx. induction s as [|c s IH].
  - rewrite sapp_nil_l. by apply slashfree_split_last.
  - rewrite sapp_cons. simpl. rewrite IH. destruct (split_last s) as [[d n]|]; [done|].
    by destruct (Ascii.eqb c "/").
Qed.

Lemma first_component b :
  ∃ n r, b = n +:+ r ∧ Str.slashfree n = true ∧ sfxb r = true.
Proof.
  induction b as [|c b (n & r & -> & Hn & Hr)]; [by exists "", ""|].
  destruct (Ascii.eqb c "/") eqn:Hc.
  - exists "", (String c (n +:+ r)). by rewrite sapp_nil_l.
  - exists (String c n), r. rewrite sapp_cons. simpl. by rewrite Hc, Hn.
Qed.

Lemma slashfree_app_inj n r n' r' :
  Str.slashfree n = true → Str.slashfree n' = true →
  sfxb r = true → sfxb r' = true →
  n +:+ r = n' +:+ r' → n = n' ∧ r = r'.
Proof.
  revert n'. induction n as [|c n IH]; intros n' Hn Hn' Hr Hr' Heq.
  - destruct n' as [|c' n']; [by rewrite !sapp_nil_l in Heq|].
    rewrite sapp_nil_l, sapp_cons in Heq. subst r. simpl in *.
    apply andb_true_iff in Hn' as [Hc _]. by rewrite Hr in Hc.
  - destruct n' as [|c' n'].
    + rewrite sapp_nil_l, sapp_cons in Heq. subst r'. simpl in *.
      apply andb_true_iff in Hn as [Hc _]. by rewrite Hr' in Hc.
    + rewrite !sapp_cons in Heq. injection Heq as <- Heq. simpl in *.
      apply andb_true_iff in Hn as [_ Hn]. apply andb_true_iff in Hn' as [_ Hn'].
      destruct (IH n' Hn Hn' Hr Hr' Heq) as [-> ->]. done.
Qed.

Lemma Join1 x : x ≠ "" → Join [x] = x.
Proof.
  intros Hx. unfold Join. rewrite filter_cons_True by done. reflexivity.
Qed.

Lemma Join2 p n : p ≠ "" → n ≠ "" → Join [p; n] = p +:+ "/" +:+ n.
Proof.
  intros Hp Hn. unfold Join. rewrite filter_cons_True by done.
  rewrite filter_cons_True by done. reflexivity.
Qed.

(** ** The file system as a tree *)

Lemma parent_is_dir_Some k m d n :
  split_last k = Some (d, n) →
  parent_is_dir k m = true ↔ ∃ perm, m !! d = Some (Dir perm).
Proof.
  intros Hs. unfold parent_is_dir. rewrite Hs.
  destruct (m !! d) as [[perm|perm data]|]; split; try done; eauto.
  - by intros (? & ?).
  - by intros (? & ?).
Qed.

Lemma fs_ok_parent m k nd d n :
  fs_ok m = true → m !! k = Some nd → split_last k = Some (d, n) →
  n ≠ "" ∧ ∃ perm, m !! d = Some (Dir perm).
Proof.
  intros Hok Hk Hs. unfold fs_ok in Hok. rewrite forallb_forall in Hok.
  specialize (Hok (k, nd)). simpl in Hok. rewrite Hs in Hok.
  apply andb_true_iff in Hok as [Hn Hp].
  - split.
    + intros ->. done.
    + by apply (parent_is_dir_Some k m d n).
  - apply list_elem_of_In. by apply elem_of_map_to_list.
Qed.

(** What is below a path that is not there is not there either, and a
    path with something below it is a directory. *)
Lemma fs_ok_ancestor m :
  fs_ok m = true →
  ∀ len r a, (String.length r ≤ len)%nat → sfxb r = true → is_Some (m !! (a +:+ r)) →
             r = "" ∨ ∃ perm, m !! a = Some (Dir perm).
Proof.
  intros Hok. induction len as [|len IH]; intros r a Hlen Hr [nd Hk].
  - left. destruct r; [done|simpl in Hlen; lia].
  - destruct (sfxb_cases r Hr) as [->|(b & ->)]; [by left|]. right.
    pose proof (split_last_app a b) as Hs.
    destruct (split_last b) as [[d n]|] eqn:Hb.
    + destruct (fs_ok_parent m _ nd _ _ Hok Hk Hs) as [_ (perm & Hd)].
      apply split_last_Some in Hb as [-> _].
      destruct (IH ("/" +:+ d) a) as [?|Ha]; [| |by eexists|done|done].
      * rewrite !slength_app in *. simpl in *. lia.
      * reflexivity.
    + by destruct (fs_ok_parent m _ nd _ _ Hok Hk Hs) as [_ Hd].
Qed.

Lemma fs_ok_absent_below m a r :
  fs_ok m = true → m !! a = None → sfxb r = true → m !! (a +:+ r) = None.
Proof.
  intros Hok Ha Hr. destruct (m !! (a +:+ r)) as [nd|] eqn:Hk; [|done].
  destruct (fs_ok_ancestor m Hok (String.length r) r a) as [->|(perm & Hd)];
    [lia|done|by eexists| |congruence].
  rewrite sapp_nil_r in Hk. congruence.
Qed.

Lemma fs_ok_file_leaf m a perm data r :
  fs_ok m = true → m !! a = Some (File perm data) → sfxb r = true → r ≠ "" →
  m !! (a +:+ r) = None.
Proof.
  intros Hok Ha Hr Hne. destruct (m !! (a +:+ r)) as [nd|] eqn:Hk; [|done].
  destruct (fs_ok_ancestor m Hok (String.length r) r a) as [->|(perm' & Hd)];
    [lia|done|by eexists|done|congruence].
Qed.

(** *** The entries of a directory *)

Lemma entry_of_Some p k n :
  entry_of p k = Some n ↔ k = p +:+ "/" +:+ n ∧ Str.slashfree n = true ∧ n ≠ "".
Proof.
  unfold entry_of. split.
  - destruct (String.prefix (p +:+ "/") k) eqn:Hp; [|done].
    apply prefix_inv in Hp as (r & ->).
    replace (String.length p + 1)%nat with (String.length (p +:+ "/"))
      by (rewrite slength_app; reflexivity).
    rewrite drop_app.
    destruct (Str.slashfree r && negb (String.eqb r "")) eqn:Hr; [|done].
    intros [= <-]. apply andb_true_iff in Hr as [Hs Hne].
    rewrite sapp_assoc. split; [done|]. split; [done|].
    intros ->. done.
  - intros (-> & Hs & Hne). rewrite <- sapp_assoc, prefix_app.
    replace (String.length p + 1)%nat with (String.length (p +:+ "/"))
      by (rewrite slength_app; reflexivity).
    rewrite drop_app, Hs. simpl.
    destruct (String.eqb_spec n ""); [done|reflexivity].
Qed.

Lemma elem_of_readDirNames p m n :
  n ∈ readDirNames p m ↔
  Str.slashfree n = true ∧ n ≠ "" ∧ is_Some (m !! (p +:+ "/" +:+ n)).
Proof.
  unfold readDirNames. rewrite merge_sort_Permutation, list_elem_of_omap. split.
  - intros (k & Hk & He). apply entry_of_Some in He as (-> & Hs & Hne).
    split; [done|]. split; [done|].
    apply list_elem_of_fmap in Hk as ([k' nd] & Hk' & Hin). simpl in Hk'. subst k'.
    apply elem_of_map_to_list in Hin. by eexists.
  - intros (Hs & Hne & [nd Hk]). exists (p +:+ "/" +:+ n). split.
    + apply list_elem_of_fmap. exists (p +:+ "/" +:+ n, nd). split; [done|].
      by apply elem_of_map_to_list.
    + by apply entry_of_Some.
Qed.

Lemma NoDup_omap_inj {A B} (f : A → option B) (l : list A) :
  (∀ x y z, f x = Some z → f y = Some z → x = y) → NoDup l → NoDup (omap f l).
Proof.
  intros Hinj. induction 1 as [|x l Hx Hl IH]; simpl; [constructor|].
  destruct (f x) as [z|] eqn:Hfx; [|exact IH]. constructor; [|exact IH].
  intros (y & Hy & Hfy)%list_elem_of_omap.
  by rewrite (Hinj x y z Hfx Hfy) in Hx.
Qed.

Lemma NoDup_readDirNames p m : NoDup (readDirNames p m).
Proof.
  unfold readDirNames. rewrite merge_sort_Permutation.
  apply NoDup_omap_inj; [|apply NoDup_fst_map_to_list].
  intros x y z Hx%entry_of_Some Hy%entry_of_Some.
  destruct Hx as [-> _], Hy as [-> _]. done.
Qed.

Lemma enough_fuel_bound m k :
  is_Some (m !! k) → (String.length k < enough_fuel m)%nat.
Proof.
  intros [nd Hk]. unfold enough_fuel.
  assert (Hin : k ∈ (map_to_list m).*1).
  { apply list_elem_of_fmap. exists (k, nd). split; [done|]. by apply elem_of_map_to_list. }
  revert Hin. generalize ((map_to_list m).*1). intros l.
  induction l as [|x l IH]; intros Hin; [by apply elem_of_nil in Hin|].
  rewrite fmap_cons. simpl.
  apply elem_of_cons in Hin as [->|Hin]; [lia|]. specialize (IH Hin). lia.
Qed.

(** ** Copying a tree *)

Section Copy.
Context (src : string) (w0 : World).
Context (Hden : denied w0 = ∅).

Lemma stat_run m k :
  os_Stat k (set_nodes m w0) =
  (Val (match m !! k with
        | Some nd => inl nd
        | None => inr (PathError "stat" k ENOENT)
        end), set_nodes m w0).
Proof.
  unfold os_Stat, is_denied. simpl. rewrite Hden.
  rewrite bool_decide_eq_false_2 by apply not_elem_of_empty.
  by destruct (m !! k).
Qed.

Lemma MkdirAll_go_dir n p perm m perm' :
  m !! p = Some (Dir perm') →
  MkdirAll_go n p perm (set_nodes m w0) = (Val None, set_nodes m w0).
Proof.
  intros Hp. destruct n; simpl; unfold bind; rewrite stat_run, Hp; reflexivity.
Qed.

Lemma Mkdir_fresh p perm m :
  m !! p = None → parent_is_dir p m = true →
  os_Mkdir p perm (set_nodes m w0) = (Val None, set_nodes (<[p := Dir perm]> m) w0).
Proof.
  intros Hp Hpar. unfold os_Mkdir, is_denied. simpl. rewrite Hden.
  rewrite bool_decide_eq_false_2 by apply not_elem_of_empty.
  by rewrite Hp, Hpar.
Qed.

Lemma MkdirAll_fresh p perm m :
  p ≠ "" → m !! p = None → parent_is_dir p m = true →
  os_MkdirAll p perm (set_nodes m w0) = (Val None, set_nodes (<[p := Dir perm]> m) w0).
Proof.
  intros Hne Hp Hpar. unfold os_MkdirAll.
  destruct (String.length p) as [|n] eqn:Hlen; [by destruct p|].
  simpl. unfold bind at 1. rewrite stat_run, Hp.
  unfold bind at 1.
  assert (Hparent :
    match split_last p with
    | Some (d, _) => if String.eqb d "" then ret None else MkdirAll_go n d perm
    | None => ret None
    end (set_nodes m w0) = (Val None, set_nodes m w0)).
  { destruct (split_last p) as [[d nm]|] eqn:Hs; [|done].
    destruct (String.eqb d ""); [done|].
    apply (parent_is_dir_Some p m d nm Hs) in Hpar as (perm' & Hd).
    by eapply MkdirAll_go_dir. }
  rewrite Hparent. unfold bind at 1. by rewrite Mkdir_fresh.
Qed.

Lemma drop_nil n : Str.drop n "" = "".
Proof. by destruct n. Qed.

Lemma copy_regular p to perm data m :
  m !! p = Some (File perm data) → m !! to = None → parent_is_dir to m = true →
  (in_ <~ os_Open p;;
   match in_ with
   | inr e => ret (Some e)
   | inl data =>
       out <~ os_OpenFile_create to perm;;
       match out with
       | Some e => ret (Some e)
       | None => io_Copy to data
       end
   end) (set_nodes m w0)
  = (Val None, set_nodes (<[to := File perm data]> m) w0).
Proof.
  intros Hp Hto Hpar. unfold bind at 1. unfold os_Open, is_denied. simpl. rewrite Hden.
  rewrite bool_decide_eq_false_2 by apply not_elem_of_empty. rewrite Hp.
  unfold bind at 1. unfold os_OpenFile_create, is_denied. simpl. rewrite Hden.
  rewrite bool_decide_eq_false_2 by apply not_elem_of_empty. rewrite Hto, Hpar.
  unfold io_Copy. simpl. rewrite lookup_insert_eq, drop_nil, sapp_nil_r.
  unfold set_nodes. simpl. by rewrite insert_insert_eq.
Qed.

Lemma copyFile_at dest q nd m :
  dest ≠ "" →
  m !! (src +:+ q) = Some nd →
  m !! (dest +:+ q) = None →
  parent_is_dir (dest +:+ q) m = true →
  copyFile dest src (src +:+ q) (Some nd) None (set_nodes m w0)
  = (Val None, set_nodes (<[dest +:+ q := nd]> m) w0).
Proof.
  intros Hdest Hp Hto Hpar. unfold copyFile. rewrite Replace1_prefix.
  destruct nd as [perm|perm data]; simpl.
  - unfold bind at 1. rewrite MkdirAll_fresh; [done| |done|done].
    intros [? _]%sapp_eq_nil. done.
  - unfold bind at 1. by rewrite (copy_regular _ _ perm data m Hp Hto Hpar).
Qed.

End Copy.

Lemma src_not_below_bak src x : sfxb x = true → ¬ below (src +:+ ".bak") (src +:+ x).
Proof.
  intros Hx (r & Hr & Heq). rewrite sapp_assoc in Heq.
  apply (inj (String.app src)) in Heq. subst x.
  change (".bak" +:+ r) with (String "." ("bak" +:+ r)) in Hx. done.
Qed.

Lemma not_below_longer p x : x ≠ "" → ¬ below (p +:+ x) p.
Proof.
  intros Hx (r & _ & Heq). apply (f_equal String.length) in Heq.
  rewrite !slength_app in Heq. destruct x; [done|]. simpl in Heq. lia.
Qed.

Lemma child_disjoint a n n' k :
  Str.slashfree n = true → Str.slashfree n' = true →
  below (a +:+ "/" +:+ n) k → below (a +:+ "/" +:+ n') k → n = n'.
Proof.
  intros Hn Hn' (r & Hr & ->) (r' & Hr' & Heq). rewrite !sapp_assoc in Heq.
  apply (inj (String.app a)), (inj (String.app "/")) in Heq.
  by destruct (slashfree_app_inj n r n' r' Hn Hn' Hr Hr' Heq).
Qed.

Lemma below_child a n k : below (a +:+ "/" +:+ n) k → below a k.
Proof.
  intros (r & Hr & ->). exists ("/" +:+ n +:+ r). by rewrite !sapp_assoc.
Qed.

Section CopyTree.
Context (src : string) (w0 : World) (m0 : gmap string node).
Context (Hden : denied w0 = ∅) (Hsrc : src ≠ "") (Hok : fs_ok m0 = true).
Context (dest : string) (Hdest : dest = src +:+ ".bak").

(** What the walk of the node at [src +:+ q] does with [fuel]. *)
Let walk_ok (fuel : nat) : Prop :=
  ∀ q nd m,
    sfxb q = true →
    m0 !! (src +:+ q) = Some nd →
    (∀ k, ¬ below dest k → m !! k = m0 !! k) →
    (∀ r, sfxb r = true → m !! (dest +:+ q +:+ r) = None) →
    parent_is_dir (dest +:+ q) m = true →
    (∀ r, sfxb r = true → is_Some (m0 !! (src +:+ q +:+ r)) → (String.length r < fuel)%nat) →
    ∃ m', walk fuel (src +:+ q) nd (copyFile dest src) (set_nodes m w0)
          = (Val None, set_nodes m' w0) ∧
          (∀ k, ¬ below (dest +:+ q) k → m' !! k = m !! k) ∧
          (∀ r, sfxb r = true → m' !! (dest +:+ q +:+ r) = m0 !! (src +:+ q +:+ r)).

Lemma entries_copy fuel q :
  walk_ok fuel → sfxb q = true →
  ∀ names m,
    NoDup names →
    (∀ n, n ∈ names →
       Str.slashfree n = true ∧ n ≠ "" ∧ is_Some (m0 !! (src +:+ q +:+ "/" +:+ n))) →
    (∀ k, ¬ below dest k → m !! k = m0 !! k) →
    (∀ n r, n ∈ names → sfxb r = true → m !! (dest +:+ q +:+ "/" +:+ n +:+ r) = None) →
    (∃ perm, m !! (dest +:+ q) = Some (Dir perm)) →
    (∀ n r, n ∈ names → sfxb r = true →
       is_Some (m0 !! (src +:+ q +:+ "/" +:+ n +:+ r)) → (String.length r < fuel)%nat) →
    ∃ m', walk_entries (λ filename fileInfo, walk fuel filename fileInfo (copyFile dest src))
                       (copyFile dest src) (src +:+ q) names (set_nodes m w0)
          = (Val None, set_nodes m' w0) ∧
          (∀ k, (∀ n, n ∈ names → ¬ below (dest +:+ q +:+ "/" +:+ n) k) → m' !! k = m !! k) ∧
          (∀ n r, n ∈ names → sfxb r = true →
             m' !! (dest +:+ q +:+ "/" +:+ n +:+ r) = m0 !! (src +:+ q +:+ "/" +:+ n +:+ r)).
Proof.
  intros Hwalk Hq. induction names as [|n names IH];
    intros m Hnd Hnames Hagree Hfree Hdir Hdepth.
  { exists m. split; [done|]. split; [done|]. intros n r Hin. by apply elem_of_nil in Hin. }
  apply NoDup_cons in Hnd as [Hnotin Hnd].
  destruct (Hnames n) as (Hs & Hne & [nd Hnd0]); [by left|].
  assert (Hq' : sfxb (q +:+ "/" +:+ n) = true) by (by apply sfxb_app).
  assert (Hsq : src +:+ q ≠ "") by (by intros [? _]%sapp_eq_nil).
  simpl walk_entries. rewrite (Join2 _ _ Hsq Hne).
  unfold bind at 1. rewrite (stat_run w0 Hden).
  replace ((src +:+ q) +:+ "/" +:+ n) with (src +:+ (q +:+ "/" +:+ n))
    by (by rewrite !sapp_assoc).
  rewrite Hagree by (rewrite Hdest; by apply src_not_below_bak).
  rewrite Hnd0.
  destruct (Hwalk (q +:+ "/" +:+ n) nd m) as (m1 & Hrun & Hout & Hin); try done.
  { intros r Hr. rewrite !sapp_assoc. by apply Hfree; [left|]. }
  { destruct Hdir as [perm Hd]. rewrite <- sapp_assoc.
    eapply parent_is_dir_Some; [|by eexists].
    by rewrite split_last_app, (slashfree_split_last n Hs). }
  { intros r Hr. rewrite !sapp_assoc. by apply Hdepth; [left|]. }
  unfold bind at 1. rewrite Hrun.
  assert (Hout1 : ∀ k, ¬ below (dest +:+ q +:+ "/" +:+ n) k → m1 !! k = m !! k).
  { intros k Hk. by apply Hout. }
  assert (Hin1 : ∀ r, sfxb r = true →
            m1 !! (dest +:+ q +:+ "/" +:+ n +:+ r) = m0 !! (src +:+ q +:+ "/" +:+ n +:+ r)).
  { intros r Hr. specialize (Hin r Hr). by rewrite !sapp_assoc in Hin. }
  clear Hout Hin Hrun.
  assert (Hkey : ∀ a n' r, a +:+ q +:+ "/" +:+ n' +:+ r = (a +:+ q) +:+ "/" +:+ n' +:+ r)
    by (intros; by rewrite !sapp_assoc).
  assert (Hbelow : ∀ a n' r, sfxb r = true →
            below (a +:+ q +:+ "/" +:+ n') (a +:+ q +:+ "/" +:+ n' +:+ r)).
  { intros a n' r Hr. exists r. by rewrite !sapp_assoc. }
  assert (Hdisj : ∀ n' r, n' ∈ names → sfxb r = true →
            ¬ below (dest +:+ q +:+ "/" +:+ n) (dest +:+ q +:+ "/" +:+ n' +:+ r)).
  { intros n' r Hn' Hr Hb. destruct (Hnames n') as (Hs' & _); [by right|].
    assert (n = n'); [|by subst].
    rewrite <- !(sapp_assoc dest q) in Hb.
    eapply (child_disjoint (dest +:+ q) n n'); [done|done|exact Hb|].
    exists r. by rewrite !sapp_assoc. }
  destruct (IH m1) as (m' & Hrun' & Hout' & Hin'); try done.
  { intros n' Hn'. apply Hnames. by right. }
  { intros k Hk. rewrite Hout1; [by apply Hagree|].
    intros Hb. apply Hk. rewrite <- sapp_assoc in Hb.
    apply below_child in Hb. eapply below_trans; [|exact Hb].
    exists q. by split. }
  { intros n' r Hn' Hr. rewrite Hout1 by (by apply Hdisj). by apply Hfree; [right|]. }
  { destruct Hdir as [perm Hd]. exists perm. rewrite Hout1; [done|].
    rewrite <- sapp_assoc. apply not_below_longer. done. }
  { intros n' r Hn' Hr. by apply Hdepth; [right|]. }
  exists m'. split; [|split].
  - destruct nd; exact Hrun'.
  - intros k Hk. rewrite Hout'; [|intros n' Hn'; apply Hk; by right].
    apply Hout1, Hk. by left.
  - intros n' r [->|Hn']%elem_of_cons Hr; [|by apply Hin'].
    rewrite Hout'; [by apply Hin1|].
    intros n'' Hn'' Hb. destruct (Hnames n'') as (Hs'' & _); [by right|].
    assert (n'' = n); [|by subst].
    rewrite <- !(sapp_assoc dest q) in Hb.
    eapply (child_disjoint (dest +:+ q) n'' n); [done|done|exact Hb|].
    exists r. by rewrite !sapp_assoc.
Qed.

Lemma walk_S fuel path info (walkFn : WalkFunc) :
  walk (S fuel) path info walkFn =
  (err <~ walkFn path (Some info) None;;
   match err with
   | Some e => if IsDir info && is_SkipDir e then ret None else ret (Some e)
   | None =>
       if negb (IsDir info) then ret None
       else
         names <~ (λ w, (Val (readDirNames path (nodes w)), w));;
         walk_entries (λ filename fileInfo, walk fuel filename fileInfo walkFn)
                      walkFn path names
   end).
Proof. reflexivity. Qed.

Lemma walk_copy : ∀ fuel, walk_ok fuel.
Proof.
  induction fuel as [|fuel IH]; intros q nd m Hq Hnd Hagree Hfree Hpar Hdepth.
  { specialize (Hdepth "" eq_refl). rewrite sapp_nil_r in Hdepth.
    destruct (Nat.nlt_0_r 0). apply Hdepth. by eexists. }
  assert (Hdne : dest ≠ "").
  { rewrite Hdest. by intros [? _]%sapp_eq_nil. }
  assert (Hmsrc : m !! (src +:+ q) = Some nd).
  { rewrite Hagree; [done|]. rewrite Hdest. by apply src_not_below_bak. }
  assert (Hmdst : m !! (dest +:+ q) = None).
  { specialize (Hfree "" eq_refl). by rewrite sapp_nil_r in Hfree. }
  assert (Hneq : ∀ x, x ≠ "" → dest +:+ q +:+ x ≠ dest +:+ q).
  { intros x Hx Heq. apply (not_below_longer (dest +:+ q) x Hx).
    exists "". split; [done|]. by rewrite sapp_nil_r, sapp_assoc. }
  rewrite walk_S. unfold bind at 1.
  rewrite (copyFile_at src w0 Hden dest q nd m Hdne Hmsrc Hmdst Hpar).
  set (m1 := <[dest +:+ q := nd]> m).
  assert (Hm1 : ∀ k, k ≠ dest +:+ q → m1 !! k = m !! k).
  { intros k Hk. subst m1. by rewrite lookup_insert_ne. }
  assert (Hm1src : ∀ x, sfxb x = true → m1 !! (src +:+ x) = m0 !! (src +:+ x)).
  { intros x Hx. assert (Hnb : ¬ below dest (src +:+ x)).
    { rewrite Hdest. by apply src_not_below_bak. }
    rewrite Hm1; [by apply Hagree|]. intros Heq. apply Hnb. rewrite Heq. by exists q. }
  destruct nd as [perm|perm data]; simpl.
  - unfold bind at 1. simpl.
    destruct (entries_copy fuel q IH Hq (readDirNames (src +:+ q) m1) m1)
      as (m' & Hrun & Hout & Hin).
    { apply NoDup_readDirNames. }
    { intros n (Hs & Hne & Hsome)%elem_of_readDirNames. split; [done|]. split; [done|].
      rewrite sapp_assoc in Hsome. rewrite Hm1src in Hsome; [done|]. by apply sfxb_app. }
    { intros k Hk. rewrite Hm1; [by apply Hagree|]. intros ->. apply Hk. by exists q. }
    { intros n r _ Hr. rewrite Hm1; [by apply (Hfree ("/" +:+ n +:+ r))|].
      apply (Hneq ("/" +:+ n +:+ r)). done. }
    { exists perm. subst m1. by rewrite lookup_insert_eq. }
    { intros n r _ Hr Hsome. specialize (Hdepth ("/" +:+ n +:+ r) eq_refl Hsome).
      rewrite !slength_app in Hdepth. simpl in Hdepth. lia. }
    exists m'. split; [exact Hrun|]. split.
    + intros k Hk. rewrite Hout.
      * apply Hm1. intros ->. apply Hk, below_refl.
      * intros n _ Hb. apply Hk. rewrite <- sapp_assoc in Hb. by apply below_child in Hb.
    + intros r Hr. destruct (sfxb_cases r Hr) as [->|(b & ->)].
      { rewrite !sapp_nil_r, Hnd. rewrite Hout.
        - subst m1. by rewrite lookup_insert_eq.
        - intros n _ Hb. rewrite <- sapp_assoc in Hb.
          by apply (not_below_longer (dest +:+ q) ("/" +:+ n)) in Hb. }
      destruct (first_component b) as (n & r' & -> & Hs & Hr').
      destruct (decide (n ∈ readDirNames (src +:+ q) m1)) as [Hn|Hn].
      { by apply Hin. }
      assert (Hnone : m0 !! (src +:+ q +:+ "/" +:+ n) = None).
      { destruct (m0 !! (src +:+ q +:+ "/" +:+ n)) as [nd'|] eqn:Hk; [|done].
        exfalso. apply Hn. apply elem_of_readDirNames. split; [done|].
        assert (Hne : n ≠ "").
        { eapply (fs_ok_parent m0 _ nd' (src +:+ q) n Hok); [|].
          - by rewrite <- sapp_assoc in Hk.
          - by rewrite split_last_app, (slashfree_split_last n Hs). }
        split; [done|]. rewrite sapp_assoc, Hm1src; [by eexists|by apply sfxb_app]. }
      rewrite Hout.
      * rewrite Hm1 by (by apply (Hneq ("/" +:+ n +:+ r'))).
        rewrite (Hfree ("/" +:+ n +:+ r')) by done. symmetry.
        pose proof (fs_ok_absent_below m0 (src +:+ q +:+ "/" +:+ n) r' Hok Hnone Hr') as Ha.
        by rewrite !sapp_assoc in Ha.
      * intros n' Hn' Hb. apply Hn.
        apply elem_of_readDirNames in Hn' as Hn''. destruct Hn'' as (Hs' & _).
        assert (n' = n); [|by subst].
        rewrite <- !(sapp_assoc dest q) in Hb.
        eapply (child_disjoint (dest +:+ q) n' n); [done|done|exact Hb|].
        exists r'. by rewrite !sapp_assoc.
  - exists m1. split; [done|]. split.
    + intros k Hk. apply Hm1. intros ->. apply Hk, below_refl.
    + intros r Hr. destruct (sfxb_cases r Hr) as [->|(b & ->)].
      { rewrite !sapp_nil_r, Hnd. subst m1. by rewrite lookup_insert_eq. }
      rewrite Hm1 by (by apply (Hneq ("/" +:+ b))). rewrite Hfree by done. symmetry.
      pose proof (fs_ok_file_leaf m0 (src +:+ q) perm data ("/" +:+ b) Hok Hnd eq_refl) as Ha.
      rewrite sapp_assoc in Ha. by apply Ha.
Qed.

End CopyTree.

(** ** Backup of a database *)

Lemma set_nodes_id w : set_nodes (nodes w) w = w.
Proof. by destruct w. Qed.

Lemma set_nodes_twice m m' w : set_nodes m' (set_nodes m w) = set_nodes m' w.
Proof. reflexivity. Qed.

Lemma backup_dest src : Join [src +:+ "." +:+ backupExt] = src +:+ ".bak".
Proof.
  change ("." +:+ backupExt) with ".bak". apply Join1.
  by intros [_ ?]%sapp_eq_nil.
Qed.

(** C3. On a file system that is a tree and refuses no access, with the
    database at [src] there and nothing at [src.bak]: [backupDatabase]
    succeeds (given enough fuel for the walk), leaves at and below
    [src.bak] exactly what is at and below [src], permission bits
    included, and touches nothing else; called again, it returns the
    error "backup of ... already exists" and the file system is as the
    first call left it. *)
Theorem backup_then_refuse (src : string) (w : World) (fuel : nat) :
  src ≠ "" →
  denied w = ∅ →
  fs_ok (nodes w) = true →
  is_Some (nodes w !! src) →
  nodes w !! (src +:+ ".bak") = None →
  (enough_fuel (nodes w) ≤ fuel)%nat →
  ∃ m',
    backupDatabase fuel src w = (Val None, set_nodes m' w) ∧
    (∀ r, sfxb r = true → m' !! (src +:+ ".bak" +:+ r) = nodes w !! (src +:+ r)) ∧
    (∀ k, ¬ below (src +:+ ".bak") k → m' !! k = nodes w !! k) ∧
    backupDatabase fuel src (set_nodes m' w)
    = (Val (Some (ErrorString ("backup of " +:+ src +:+ " already exists"))),
       set_nodes m' w).
Proof.
  intros Hsrc Hden Hok [nd Hnd] Hfree Hfuel.
  set (m0 := nodes w) in *. set (dest := src +:+ ".bak") in *.
  assert (Hdest : dest = src +:+ ".bak") by done. clearbody dest.
  destruct (walk_copy src w m0 Hden Hsrc Hok dest Hdest fuel "" nd m0)
    as (m' & Hrun & Hout & Hin).
  { done. }
  { by rewrite sapp_nil_r. }
  { done. }
  { intros r Hr. rewrite sapp_nil_l. by apply fs_ok_absent_below. }
  { rewrite sapp_nil_r, Hdest.
    pose proof (split_last_app_slashfree src ".bak" eq_refl) as Hs.
    destruct (split_last src) as [[d n]|] eqn:Hsl.
    - eapply parent_is_dir_Some; [exact Hs|].
      by destruct (fs_ok_parent m0 src nd d n Hok Hnd Hsl).
    - unfold parent_is_dir. by rewrite Hs. }
  { intros r Hr Hsome. rewrite sapp_nil_l in Hsome.
    apply enough_fuel_bound in Hsome. rewrite slength_app in Hsome.
    fold m0 in Hfuel. lia. }
  rewrite !sapp_nil_r in Hrun, Hout.
  exists m'. split; [|split; [|split]].
  - unfold backupDatabase. rewrite backup_dest, <- Hdest.
    unfold bind at 1. rewrite <- (set_nodes_id w) at 1. fold m0.
    rewrite (stat_run w Hden), Hfree. simpl.
    unfold copyDir, filepath_Walk. unfold bind at 1.
    rewrite (stat_run w Hden), Hnd. exact Hrun.
  - intros r Hr. specialize (Hin r Hr). rewrite !sapp_nil_l in Hin.
    by rewrite <- sapp_assoc, <- Hdest.
  - intros k Hk. by apply Hout.
  - unfold backupDatabase. rewrite backup_dest, <- Hdest.
    unfold bind at 1. rewrite (stat_run w Hden).
    specialize (Hin "" eq_refl). rewrite !sapp_nil_r in Hin. by rewrite Hin, Hnd.
Qed.

(** On the example data root, for the database [d/db]. *)
Lemma backup_then_refuse_witness :
  "d/db" ≠ "" ∧
  denied TsmSample.world = ∅ ∧
  fs_ok (nodes TsmSample.world) = true ∧
  is_Some (nodes TsmSample.world !! "d/db") ∧
  nodes TsmSample.world !! ("d/db" +:+ ".bak") = None ∧
  (enough_fuel (nodes TsmSample.world) ≤ 100)%nat ∧
  ∃ m',
    backupDatabase 100 "d/db" TsmSample.world = (Val None, set_nodes m' TsmSample.world) ∧
    (∀ r, sfxb r = true →
          m' !! ("d/db" +:+ ".bak" +:+ r) = nodes TsmSample.world !! ("d/db" +:+ r)) ∧
    (∀ k, ¬ below ("d/db" +:+ ".bak") k → m' !! k = nodes TsmSample.world !! k) ∧
    backupDatabase 100 "d/db" (set_nodes m' TsmSample.world)
    = (Val (Some (ErrorString ("backup of " +:+ "d/db" +:+ " already exists"))),
       set_nodes m' TsmSample.world).
Proof.
  assert (H1 : "d/db" ≠ "") by discriminate.
  assert (H2 : denied TsmSample.world = ∅) by reflexivity.
  assert (H3 : fs_ok (nodes TsmSample.world) = true) by (vm_compute; reflexivity).
  assert (H4 : is_Some (nodes TsmSample.world !! "d/db"))
    by (exists (Dir 493); vm_compute; reflexivity).
  assert (H5 : nodes TsmSample.world !! ("d/db" +:+ ".bak") = None)
    by (vm_compute; reflexivity).
  assert (H6 : (enough_fuel (nodes TsmSample.world) ≤ 100)%nat).
  { assert (Hf : enough_fuel (nodes TsmSample.world) = 54%nat) by (vm_compute; reflexivity).
    rewrite Hf. lia. }
  repeat (split; [assumption|]).
  exact (backup_then_refuse "d/db" TsmSample.world 100 H1 H2 H3 H4 H5 H6).
Defined.

(** ** Edges of the backup *)

(** X1. [backupDatabase] refuses whenever [os.Stat] on [src.bak] says
    anything but that the path does not exist: when [src.bak] is there,
    and also when the stat itself is refused, it returns "backup of ...
    already exists" and has touched nothing. *)
Theorem backup_refused_when_stat_fails (fuel : nat) (src : string) (w : World) :
  is_Some (nodes w !! (src +:+ ".bak")) ∨ (src +:+ ".bak") ∈ denied w →
  backupDatabase fuel src w
  = (Val (Some (ErrorString ("backup of " +:+ src +:+ " already exists"))), w).
Proof.
  intros H. unfold backupDatabase. rewrite backup_dest.
  unfold bind, os_Stat, is_denied.
  destruct (decide (src +:+ ".bak" ∈ denied w)) as [Hd|Hd].
  - by rewrite bool_decide_eq_true_2.
  - rewrite bool_decide_eq_false_2 by done.
    destruct H as [[nd Hnd]|?]; [|done]. by rewrite Hnd.
Qed.

(** X2. With no backup in the way, [backupDatabase] of a database that
    is not there (or that [os.Lstat] cannot examine) panics: the walk
    hands its root to [copyFile] with a nil [info], and [copyFile] calls
    [info.IsDir()] before it looks at the error. Nothing has been
    written. *)
Theorem backup_of_missing_source_panics (fuel : nat) (src : string) (w : World) :
  nodes w !! (src +:+ ".bak") = None → (src +:+ ".bak") ∉ denied w →
  nodes w !! src = None ∨ src ∈ denied w →
  backupDatabase fuel src w = (Halt Panic, w).
Proof.
  intros Hfree Hnd Hsrc. unfold backupDatabase. rewrite backup_dest.
  unfold bind at 1. unfold os_Stat at 1, is_denied.
  rewrite bool_decide_eq_false_2 by done. rewrite Hfree. simpl.
  unfold copyDir, filepath_Walk. unfold bind, os_Stat, is_denied.
  destruct (decide (src ∈ denied w)) as [Hd|Hd].
  - by rewrite bool_decide_eq_true_2.
  - rewrite bool_decide_eq_false_2 by done.
    destruct Hsrc as [->|?]; done.
Qed.

(** X3. [copyDir] opens its destination with [O_CREATE|O_WRONLY] and
    without [O_TRUNC]: over a file that is there, the bytes of the source
    replace the first bytes and the rest stays, under the permission bits
    that the file had; over a longer file the result is not a copy of the
    source. *)
Theorem copyDir_does_not_truncate
    (fuel : nat) (dest src : string) (perm perm' : N) (data old : string) (w : World) :
  denied w = ∅ →
  nodes w !! src = Some (File perm data) →
  nodes w !! dest = Some (File perm' old) →
  copyDir (S fuel) dest src w
  = (Val None,
     set_nodes (<[dest := File perm' (data +:+ Str.drop (String.length data) old)]> (nodes w)) w)
  ∧ ((String.length data < String.length old)%nat →
     data +:+ Str.drop (String.length data) old ≠ data).
Proof.
  intros Hden Hsrc Hdest. split.
  - unfold copyDir, filepath_Walk. unfold bind at 1.
    rewrite <- (set_nodes_id w) at 1. rewrite (stat_run w Hden), Hsrc.
    rewrite set_nodes_id. simpl walk. unfold bind at 1.
    assert (Hrep : Str.Replace1 src src dest = dest).
    { pose proof (Replace1_prefix src "" dest) as H. by rewrite !sapp_nil_r in H. }
    unfold copyFile. rewrite Hrep.
    simpl IsDir. cbv iota. unfold bind at 1. unfold bind at 1.
    unfold os_Open, is_denied. rewrite Hden.
    rewrite bool_decide_eq_false_2 by apply not_elem_of_empty. rewrite Hsrc.
    unfold bind at 1. unfold os_OpenFile_create, is_denied. rewrite Hden.
    rewrite bool_decide_eq_false_2 by apply not_elem_of_empty. rewrite Hdest.
    unfold io_Copy. rewrite Hdest. reflexivity.
  - intros Hlen Heq. apply (f_equal String.length) in Heq.
    rewrite slength_app in Heq.
    assert (Hd : ∀ n s, String.length (Str.drop n s) = (String.length s - n)%nat).
    { induction n as [|n IH]; intros [|c s]; simpl; done. }
    rewrite Hd in Heq. lia.
Qed.

(** ** The question before the conversion *)

Lemma lower_y c : Str.lower c = "y"%char → c = "y"%char ∨ c = "Y"%char.
Proof.
  destruct c as [[] [] [] [] [] [] [] []]; vm_compute; intros H;
    first [discriminate H | by left | by right].
Qed.

Lemma lower_nl c : Ascii.eqb (Str.lower c) "010" = Ascii.eqb c "010".
Proof. by destruct c as [[] [] [] [] [] [] [] []]. Qed.

Lemma read_line_app s l r : read_line s = Some (l, r) → s = l +:+ r.
Proof.
  revert l. induction s as [|c s IH]; intros l H; simpl in H; [done|].
  destruct (Ascii.eqb c "010").
  - by injection H as <- <-.
  - destruct (read_line s) as [[l' r']|]; [|done]. injection H as <- <-.
    rewrite sapp_cons. f_equal. by apply IH.
Qed.

Lemma read_line_blank s l r :
  read_line s = Some (l, r) → Str.TrimRightNL (Str.ToLower l) = "" → l = nl.
Proof.
  destruct s as [|c s]; simpl; [done|].
  destruct (Ascii.eqb c "010") eqn:Hc.
  - apply Ascii.eqb_eq in Hc as ->. by intros [= <- _].
  - destruct (read_line s) as [[l' r']|]; [|done]. intros [= <- _]. simpl.
    destruct (Str.TrimRightNL (Str.ToLower l')); [|done].
    by rewrite lower_nl, Hc.
Qed.

Lemma confirmation_line s l r :
  read_line s = Some (l, r) →
  (Str.TrimRightNL (Str.ToLower l) = "y" ↔ l = "y" +:+ nl ∨ l = "Y" +:+ nl).
Proof.
  intros Hl. split; [|by intros [->| ->]].
  destruct s as [|c s]; simpl in Hl; [done|].
  destruct (Ascii.eqb c "010") eqn:Hc.
  { injection Hl as <- <-. apply Ascii.eqb_eq in Hc as ->. done. }
  destruct (read_line s) as [[l' r']|] eqn:Hl'; [|done]. injection Hl as <- <-.
  simpl. destruct (Str.TrimRightNL (Str.ToLower l')) as [|c' t] eqn:Ht.
  - rewrite (read_line_blank _ _ _ Hl' Ht). rewrite lower_nl, Hc.
    intros [= Hy]. destruct (lower_y c Hy) as [-> | ->]; auto.
  - intros [= _ ?].
Qed.

Lemma collectShards_polite C dataPath dbs :
  ∀ acc w, stdin (collectShards C dataPath dbs acc w).2 = stdin w ∧
           ∀ h, (collectShards C dataPath dbs acc w).1 = Halt h → h = Exit 1.
Proof.
  induction dbs as [|db rest IH]; intros acc w; simpl; [done|].
  destruct (Str.HasSuffix db backupExt).
  - go_unfold. match goal with |- context [collectShards _ _ _ _ ?w1] =>
      destruct (IH acc w1) as [Hin Hh] end. done.
  - go_unfold. destruct (db_Shards C _ (nodes w)) as [shs|err].
    + match goal with |- context [collectShards _ _ _ ?a ?w1] =>
        destruct (IH a w1) as [Hin Hh] end. done.
    + simpl. split; [done|]. by intros h [= <-].
Qed.

Lemma discover_polite C cfg dataPath w :
  stdin (discover C cfg dataPath w).2 = stdin w ∧
  ∀ h, (discover C cfg dataPath w).1 = Halt h → h = Exit 1.
Proof.
  unfold discover, ioutil_ReadDir. go_unfold.
  assert (Hexit : ∀ (w' : World), stdin w' = stdin w →
            stdin (@Halt (list ShardInfo) (Exit 1), w').2 = stdin w ∧
            ∀ h, (@Halt (list ShardInfo) (Exit 1), w').1 = Halt h → h = Exit 1).
  { intros w' Hw'. split; [done|]. by intros h [= <-]. }
  destruct (is_denied dataPath w); [by apply Hexit|].
  destruct (nodes w !! dataPath) as [[?|??]|]; try by apply Hexit.
  simpl.
  pose proof (collectShards_polite C dataPath (readDirNames dataPath (nodes w)) []
                (mkWorld (nodes w) (denied w) (stdin w) (stdout w ++ [nl]) (stderr w) (trace w)))
    as [Hin Hh].
  destruct (collectShards _ _ _ _ _) as [[shards|h] w1]; simpl in *; [done|].
  split; [done|]. intros h' [= <-]. by apply Hh.
Qed.

(** Without the confirmation. *)
Lemma unconfirmed_run (fuel : nat) (C : Collab) (cfg : Config) (w : World) :
  ¬ confirms (stdin w) →
  let r := main fuel C cfg w in
  (r.1 = Halt (Exit 0) ∨ r.1 = Halt (Exit 1)) ∧
  nodes r.2 = nodes w ∧
  ∃ evs, trace r.2 = (trace w ++ evs)%list ∧
         Forall (λ e, is_discover_event e = true) evs.
Proof.
  intros Hno r. subst r.
  destruct (main fuel C cfg w) as [res w'] eqn:Hrun. simpl.
  assert (Hnil : ∃ evs, trace w = (trace w ++ evs)%list ∧
                        Forall (λ e, is_discover_event e = true) evs).
  { exists []. by rewrite app_nil_r. }
  unfold main in Hrun. destruct (args cfg) as [|dataPath rest].
  { go_unfold. injection Hrun as <- <-. auto. }
  destruct (maxTSMSz <? tsmSz cfg)%N.
  { go_unfold. injection Hrun as <- <-. auto. }
  unfold bind at 1 in Hrun.
  pose proof (discover_reads_only C cfg dataPath w) as Hro.
  pose proof (discover_polite C cfg dataPath w) as [Hin Hh].
  destruct (discover_events C cfg dataPath w) as (dis & Hdt & Hdall).
  assert (Hdis : ∃ evs, trace (discover C cfg dataPath w).2 = (trace w ++ evs)%list ∧
                        Forall (λ e, is_discover_event e = true) evs).
  { exists dis. split; [done|]. eapply Forall_impl; [exact Hdall|].
    by intros e (db & -> & _). }
  clear Hdt Hdall.
  destruct (discover C cfg dataPath w) as [[plan|h] w1]; simpl in *.
  2:{ injection Hrun as <- <-. rewrite (Hh h eq_refl). auto. }
  destruct (length plan =? 0)%nat.
  { go_unfold. injection Hrun as <- <-. auto. }
  unfold displayPlan in Hrun.
  unfold bind at 1 in Hrun. unfold bind at 1 in Hrun. unfold Printf at 1 in Hrun.
  unfold Printf at 1 in Hrun. simpl in Hrun.
  unfold bind at 1 in Hrun. unfold Printf at 1 in Hrun. simpl in Hrun.
  unfold bind at 1 in Hrun. unfold ReadString_nl at 1 in Hrun. simpl in Hrun.
  destruct (read_line (stdin w1)) as [[l r]|] eqn:Hl.
  2:{ go_unfold. injection Hrun as <- <-. auto. }
  destruct (String.eqb (Str.TrimRightNL (Str.ToLower l)) "y") eqn:Hy.
  - exfalso. apply String.eqb_eq in Hy.
    apply (confirmation_line _ _ _ Hl) in Hy.
    apply read_line_app in Hl. rewrite Hin in Hl. apply Hno. exists r.
    destruct Hy as [-> | ->]; [left|right]; by rewrite Hl, <- !sapp_assoc.
  - simpl in Hrun. go_unfold. injection Hrun as <- <-. auto.
Qed.

Lemma read_line_confirms input :
  confirms input →
  ∃ l r, read_line input = Some (l, r) ∧ Str.TrimRightNL (Str.ToLower l) = "y".
Proof.
  intros (rest & [-> | ->]).
  - exists ("y" +:+ nl), rest. by split.
  - exists ("Y" +:+ nl), rest. by split.
Qed.

Lemma emits_any_backupAll fuel dataPath dbs :
  emits (λ _, True) (backupAll fuel dataPath dbs).
Proof.
  induction dbs as [|db rest IH]; simpl; [apply emits_ret|].
  apply emits_bind; [by apply emits_emit|]. intros _.
  apply emits_bind; [apply emits_fs_only, fs_only_backupDatabase|]. intros err.
  apply emits_bind; [by apply emits_emit|]. intros _.
  destruct err as [e|].
  - apply emits_bind; [apply emits_Printf|]. intros _. apply emits_halt.
  - apply emits_bind; [apply emits_Printf|]. intros _. apply IH.
Qed.

(** The first step of the backups is the call for the first database;
    what follows only adds to the events. *)
Lemma backupAll_starts fuel dataPath db dbs (k : M unit) w res w' :
  emits (λ _, True) k →
  (backupAll fuel dataPath (db :: dbs) >> k) w = (res, w') →
  ∃ post, trace w' = (trace w ++ CallBackup (Join [dataPath; db]) :: post)%list.
Proof.
  intros Hk Hrun.
  set (tail :=
    (err <~ backupDatabase fuel (Join [dataPath; db]);;
     emit (RetBackup (Join [dataPath; db]) err) >>
     match err with
     | Some e =>
         Printf ("Backup of database " +:+ db +:+ " failed: " +:+ Error e +:+ nl) >>
         os_Exit 1
     | None =>
         Printf ("Database " +:+ db +:+ " backed up." +:+ nl) >>
         backupAll fuel dataPath dbs
     end) >> k).
  assert (Htail : emits (λ _, True) tail).
  { apply emits_bind; [|intros _; exact Hk].
    apply emits_bind; [apply emits_fs_only, fs_only_backupDatabase|]. intros err.
    apply emits_bind; [by apply emits_emit|]. intros _.
    destruct err as [e|].
    - apply emits_bind; [apply emits_Printf|]. intros _. apply emits_halt.
    - apply emits_bind; [apply emits_Printf|]. intros _. apply emits_any_backupAll. }
  assert (Heq : (backupAll fuel dataPath (db :: dbs) >> k) w
                = tail (mkWorld (nodes w) (denied w) (stdin w) (stdout w) (stderr w)
                          (trace w ++ [CallBackup (Join [dataPath; db])]))) by reflexivity.
  rewrite Heq in Hrun.
  match type of Hrun with tail ?w2 = _ => destruct (Htail w2) as (post & Ht & _) end.
  rewrite Hrun in Ht. simpl in Ht. exists post. by rewrite Ht, <- app_assoc.
Qed.

(** With the confirmation, and shards to convert. *)
Lemma confirmed_run
    (fuel : nat) (C : Collab) (cfg : Config) (dataPath : string) (rest : list string)
    (w : World) (plan : list ShardInfo) (w1 : World) :
  confirms (stdin w) →
  args cfg = dataPath :: rest →
  (tsmSz cfg <= maxTSMSz)%N →
  discover C cfg dataPath w = (Val plan, w1) →
  plan ≠ [] →
  let r := main fuel C cfg w in
  ∃ db dbs post,
    Databases plan = db :: dbs ∧
    trace r.2 = (trace w1 ++ CallBackup (Join [dataPath; db]) :: post)%list.
Proof.
  intros Hyes Hargs Hsz Hdis Hplan r. subst r.
  destruct (main fuel C cfg w) as [res w'] eqn:Hrun. simpl.
  unfold main in Hrun. rewrite Hargs in Hrun.
  apply N.ltb_ge in Hsz. rewrite Hsz in Hrun.
  unfold bind at 1 in Hrun.
  pose proof (discover_polite C cfg dataPath w) as [Hin _].
  rewrite Hdis in Hrun, Hin. simpl in Hin.
  assert (Hlen : (length plan =? 0)%nat = false) by (by destruct plan).
  rewrite Hlen in Hrun. clear Hlen.
  unfold displayPlan in Hrun.
  unfold bind at 1 in Hrun. unfold bind at 1 in Hrun. unfold Printf at 1 in Hrun.
  unfold Printf at 1 in Hrun. simpl in Hrun.
  unfold bind at 1 in Hrun. unfold Printf at 1 in Hrun. simpl in Hrun.
  unfold bind at 1 in Hrun. unfold ReadString_nl at 1 in Hrun. simpl in Hrun.
  rewrite <- Hin in Hyes.
  destruct (read_line_confirms _ Hyes) as (l & r & Hl & Hy).
  rewrite Hl in Hrun. rewrite Hy in Hrun. simpl in Hrun.
  unfold bind at 1 in Hrun. unfold Printf at 1 in Hrun. simpl in Hrun.
  destruct (Databases plan) as [|db dbs] eqn:Hdbs.
  { exfalso. destruct plan as [|si plan']; [done|].
    assert (Hin' : Database si ∈ Databases (si :: plan')).
    { apply Databases_elem. by left. }
    rewrite Hdbs in Hin'. by apply elem_of_nil in Hin'. }
  exists db, dbs.
  apply backupAll_starts in Hrun as (post & Ht); [|by apply emits_convertAll].
  exists post. split; [done|]. exact Ht.
Qed.

(** X4. A first line [y] or [Y] on standard input, and nothing else,
    lets [main] go past its question. With any other input the run ends
    by [os.Exit] with code 0 or 1, the file system is as it was, and
    nothing but the listing of shards has happened (no backup, no
    conversion). With such a line, and shards to convert, the run goes
    on: the event after the listing is the backup of the first database
    of the plan. *)
Theorem main_needs_confirmation (fuel : nat) (C : Collab) (cfg : Config) (w : World) :
  let r := main fuel C cfg w in
  (¬ confirms (stdin w) →
     (r.1 = Halt (Exit 0) ∨ r.1 = Halt (Exit 1)) ∧
     nodes r.2 = nodes w ∧
     ∃ evs, trace r.2 = (trace w ++ evs)%list ∧
            Forall (λ e, is_discover_event e = true) evs) ∧
  (confirms (stdin w) →
     ∀ dataPath rest plan w1,
       args cfg = dataPath :: rest →
       (tsmSz cfg <= maxTSMSz)%N →
       discover C cfg dataPath w = (Val plan, w1) →
       plan ≠ [] →
       ∃ db dbs post,
         Databases plan = db :: dbs ∧
         trace r.2 = (trace w1 ++ CallBackup (Join [dataPath; db]) :: post)%list).
Proof.
  intros r. split.
  - apply unconfirmed_run.
  - intros Hyes dataPath rest plan w1 Hargs Hsz Hdis Hplan.
    by apply (confirmed_run fuel C cfg dataPath rest w plan w1).
Qed.

(** ** What a backup can write *)

Section Touches.
Context (P : string → Prop).

Lemma touches_ret {A} (a : A) : touches P (ret a).
Proof. by intros w k _. Qed.

Lemma touches_halt {A} (h : halt) : touches P (λ w, (@Halt A h, w)).
Proof. by intros w k _. Qed.

Lemma touches_bind {A B} (f : M A) (k : A → M B) :
  touches P f → (∀ a, touches P (k a)) → touches P (bind f k).
Proof.
  intros Hf Hk w x Hx. unfold bind. specialize (Hf w x Hx).
  destruct (f w) as [[a|h] w1]; simpl in *; [|done].
  by rewrite (Hk a w1 x Hx).
Qed.

Lemma touches_reads {A} (f : M A) : reads_only f → touches P f.
Proof. intros Hf w k _. by rewrite Hf. Qed.

End Touches.

Lemma touches_mono (P Q : string → Prop) {A} (f : M A) :
  (∀ k, P k → Q k) → touches P f → touches Q f.
Proof. intros HPQ Hf w k Hk. apply Hf. intros HP. by apply Hk, HPQ. Qed.

Lemma reads_only_os_Stat p : reads_only (os_Stat p).
Proof.
  intros w. unfold os_Stat. destruct (is_denied p w); [done|]. by destruct (nodes w !! p).
Qed.

Lemma reads_only_os_Open p : reads_only (os_Open p).
Proof.
  intros w. unfold os_Open. destruct (is_denied p w); [done|].
  by destruct (nodes w !! p) as [[?|??]|].
Qed.

Lemma touches_os_Mkdir p perm : touches (λ k, k = p) (os_Mkdir p perm).
Proof.
  intros w k Hk. unfold os_Mkdir. destruct (is_denied p w); [done|].
  destruct (nodes w !! p); [done|]. destruct (parent_is_dir p (nodes w)); [|done].
  simpl. by rewrite lookup_insert_ne.
Qed.

Lemma touches_os_OpenFile_create p perm : touches (λ k, k = p) (os_OpenFile_create p perm).
Proof.
  intros w k Hk. unfold os_OpenFile_create. destruct (is_denied p w); [done|].
  destruct (nodes w !! p) as [[?|??]|]; try done.
  destruct (parent_is_dir p (nodes w)); [|done]. simpl. by rewrite lookup_insert_ne.
Qed.

Lemma touches_io_Copy p data : touches (λ k, k = p) (io_Copy p data).
Proof.
  intros w k Hk. unfold io_Copy. destruct (nodes w !! p) as [[?|??]|]; try done.
  simpl. by rewrite lookup_insert_ne.
Qed.

(** [os.MkdirAll] makes the directory and the missing ones above it,
    nothing else. *)
Lemma touches_MkdirAll_go n : ∀ p perm, touches (λ k, below k p) (MkdirAll_go n p perm).
Proof.
  assert (Hself : ∀ p perm,
    touches (λ k, below k p)
      (err <~ os_Mkdir p perm;;
       match err with
       | None => ret None
       | Some e =>
           st' <~ os_Stat p;;
           match st' with
           | inl (Dir _) => ret None
           | _ => ret (Some e)
           end
       end)).
  { intros p perm. apply touches_bind.
    - eapply touches_mono; [|apply touches_os_Mkdir]. intros k ->. apply below_refl.
    - intros [e|]; [|apply touches_ret].
      apply touches_bind; [apply touches_reads, reads_only_os_Stat|].
      intros [[?|??]|?]; apply touches_ret. }
  induction n as [|n IH]; intros p perm; simpl.
  - apply touches_bind; [apply touches_reads, reads_only_os_Stat|]. intros [nd|e].
    + destruct (IsDir nd); apply touches_ret.
    + apply touches_bind; [apply touches_ret|]. intros [e'|]; [apply touches_ret|].
      apply Hself.
  - apply touches_bind; [apply touches_reads, reads_only_os_Stat|]. intros [nd|e].
    + destruct (IsDir nd); apply touches_ret.
    + apply touches_bind.
      { destruct (split_last p) as [[d nm]|] eqn:Hs; [|apply touches_ret].
        destruct (String.eqb d ""); [apply touches_ret|].
        eapply touches_mono; [|apply IH]. intros k Hk.
        apply split_last_Some in Hs as [-> _].
        eapply below_trans; [exact Hk|]. exists ("/" +:+ nm). by rewrite sfxb_slash. }
      intros [e'|]; [apply touches_ret|]. apply Hself.
Qed.

Lemma touches_copyFile dest src path info err :
  touches (λ k, below k (Str.Replace1 path src dest)) (copyFile dest src path info err).
Proof.
  unfold copyFile. destruct info as [info|]; [|apply touches_halt].
  destruct (IsDir info).
  - apply touches_bind; [apply touches_MkdirAll_go|]. intros [?|]; apply touches_ret.
  - apply touches_bind; [|intros [?|]; apply touches_ret].
    apply touches_bind; [apply touches_reads, reads_only_os_Open|].
    intros [data|?]; [|apply touches_ret].
    apply touches_bind.
    { eapply touches_mono; [|apply touches_os_OpenFile_create]. intros k ->. apply below_refl. }
    intros [?|]; [apply touches_ret|].
    eapply touches_mono; [|apply touches_io_Copy]. intros k ->. apply below_refl.
Qed.

Lemma touches_walk_entries (Q : string → Prop) (visit : string → node → M (option error))
    (walkFn : WalkFunc) path :
  (∀ name i, touches Q (visit (Join [path; name]) i)) →
  (∀ name i e, touches Q (walkFn (Join [path; name]) i e)) →
  ∀ names, touches Q (walk_entries visit walkFn path names).
Proof.
  intros Hv Hfn. induction names as [|name rest IHn]; simpl; [apply touches_ret|].
  apply touches_bind; [apply touches_reads, reads_only_os_Stat|]. intros [fileInfo|e].
  - apply touches_bind; [apply Hv|]. intros [e'|]; [|apply IHn].
    destruct (negb (IsDir fileInfo) || negb (is_SkipDir e')); [apply touches_ret|apply IHn].
  - apply touches_bind; [apply Hfn|]. intros [e'|]; [|apply IHn].
    destruct (is_SkipDir e'); [apply IHn|apply touches_ret].
Qed.

(** A step of the walk stays below the root. *)
Lemma Join_below src r name :
  src ≠ "" → sfxb r = true →
  ∃ r', sfxb r' = true ∧ Join [src +:+ r; name] = src +:+ r'.
Proof.
  intros Hsrc Hr. assert (Hne : src +:+ r ≠ "") by (by intros [? _]%sapp_eq_nil).
  destruct (decide (name = "")) as [->|Hn].
  - exists r. split; [done|]. unfold Join. rewrite filter_cons_True by done.
    rewrite filter_cons_False by (by intros H; apply H). reflexivity.
  - exists (r +:+ "/" +:+ name). split; [by apply sfxb_app|].
    rewrite Join2 by done. by rewrite sapp_assoc.
Qed.

Section KeepsSource.
Context (src dest : string) (Hsrc : src ≠ "").

(** What the copy may write: the images of the paths below [src], and
    the directories above them. *)
Let image (k : string) : Prop := ∃ r, sfxb r = true ∧ below k (dest +:+ r).

Lemma touches_copyFile_below r info err :
  sfxb r = true → touches image (copyFile dest src (src +:+ r) info err).
Proof.
  intros Hr. eapply touches_mono; [|apply touches_copyFile].
  intros k Hk. rewrite Replace1_prefix in Hk. by exists r.
Qed.

Lemma touches_walk fuel :
  ∀ r info, sfxb r = true → touches image (walk fuel (src +:+ r) info (copyFile dest src)).
Proof.
  induction fuel as [|fuel IH]; intros r info Hr.
  - apply touches_halt.
  - rewrite walk_S.
    apply touches_bind; [by apply touches_copyFile_below|]. intros [e|].
    + destruct (IsDir info && is_SkipDir e); apply touches_ret.
    + destruct (negb (IsDir info)); [apply touches_ret|].
      apply touches_bind; [by intros w k _|]. intros names.
      apply touches_walk_entries.
      * intros name i. destruct (Join_below src r name Hsrc Hr) as (r' & Hr' & ->).
        by apply IH.
      * intros name i e. destruct (Join_below src r name Hsrc Hr) as (r' & Hr' & ->).
        by apply touches_copyFile_below.
Qed.

Lemma touches_copyDir fuel : touches image (copyDir fuel dest src).
Proof.
  unfold copyDir, filepath_Walk.
  apply touches_bind; [apply touches_reads, reads_only_os_Stat|].
  intros [info|e].
  - pose proof (touches_walk fuel "" info eq_refl) as H. by rewrite sapp_nil_r in H.
  - pose proof (touches_copyFile_below "" None (Some e) eq_refl) as H.
    by rewrite sapp_nil_r in H.
Qed.

End KeepsSource.

(** X5. Whatever the file system holds, whichever accesses are refused
    and however the walk ends, [backupDatabase] changes nothing at or
    below the database it backs up: all it writes lies at or below
    [src.bak], or is a missing directory above it. *)
Theorem backup_keeps_source (fuel : nat) (src : string) (w : World) (k : string) :
  src ≠ "" → below src k →
  nodes (backupDatabase fuel src w).2 !! k = nodes w !! k.
Proof.
  intros Hsrc Hk.
  assert (Ht : touches (λ k, ∃ r, sfxb r = true ∧ below k (src +:+ ".bak" +:+ r))
                       (backupDatabase fuel src)).
  { unfold backupDatabase. rewrite backup_dest.
    apply touches_bind; [apply touches_reads, reads_only_os_Stat|]. intros st.
    match goal with |- touches _ (if ?b then _ else _) => destruct b end;
      [apply touches_ret|].
    eapply touches_mono; [|by apply touches_copyDir].
    intros k' (r & Hr & Hb). exists r. by rewrite <- sapp_assoc. }
  apply Ht. intros (r & Hr & (t & Ht' & Heq)).
  destruct Hk as (u & Hu & ->). rewrite !sapp_assoc in Heq.
  apply (inj (String.app src)) in Heq.
  destruct (sfxb_cases u Hu) as [->|(u' & ->)].
  - rewrite sapp_nil_l in Heq. by subst t.
  - discriminate Heq.
Qed.

(** ** The end of a conversion *)

Lemma not_below_tsm src t : ¬ below src (src +:+ "." +:+ tsmExt +:+ t).
Proof.
  intros (r & Hr & Heq). apply (inj (String.app src)) in Heq. by subst r.
Qed.

Lemma filter_not_under p (m : gmap string node) k :
  filter (λ kv : string * node, underb p kv.1 = false) m !! k
  = if underb p k then None else m !! k.
Proof.
  destruct (underb p k) eqn:Hu.
  - apply map_lookup_filter_None. right. intros x _. simpl. by rewrite Hu.
  - destruct (m !! k) as [x|] eqn:Hk.
    + by apply map_lookup_filter_Some.
    + apply map_lookup_filter_None. by left.
Qed.

(** What [os.Rename] moves: the tree at [old], to the same places below
    [new]. *)
Lemma rename_moved old new (m : gmap string node) :
  let moved : gmap string node :=
    list_to_map
      ((λ kv : string * node, (new +:+ Str.drop (String.length old) kv.1, kv.2))
         <$> map_to_list (filter (λ kv, underb old kv.1 = true) m)) in
  (∀ t, sfxb t = true → moved !! (new +:+ t) = m !! (old +:+ t)) ∧
  (∀ k, ¬ below new k → moved !! k = None).
Proof.
  set (f := λ kv : string * node, (new +:+ Str.drop (String.length old) kv.1, kv.2)).
  set (l := map_to_list (filter (λ kv, underb old kv.1 = true) m)).
  intros moved.
  assert (Hl : ∀ k v, (k, v) ∈ l ↔ ∃ t, sfxb t = true ∧ k = old +:+ t ∧ m !! k = Some v).
  { intros k v. unfold l. rewrite elem_of_map_to_list, map_lookup_filter_Some. simpl.
    rewrite underb_below. split.
    - intros [Hk (t & Ht & ->)]. by exists t.
    - intros (t & Ht & -> & Hk). split; [done|]. by exists t. }
  assert (Hkeys : ∀ k, k ∈ (f <$> l).*1 →
                       ∃ t v, sfxb t = true ∧ k = new +:+ t ∧ m !! (old +:+ t) = Some v).
  { intros k Hk. apply list_elem_of_fmap in Hk as ([k' v'] & -> & Hin).
    apply list_elem_of_fmap in Hin as ([k0 v0] & [= -> ->] & Hin).
    apply Hl in Hin as (t & Ht & -> & Hm). exists t, v0. simpl. by rewrite drop_app. }
  assert (Hnd : NoDup (f <$> l).*1).
  { rewrite <- list_fmap_compose. apply NoDup_fmap_2_strong; [|apply NoDup_map_to_list].
    intros [k v] [k' v'] Hin Hin' Heq. simpl in Heq.
    apply Hl in Hin as (t & Ht & -> & Hm). apply Hl in Hin' as (t' & Ht' & -> & Hm').
    rewrite !drop_app in Heq. apply (inj (String.app new)) in Heq. subst t'.
    congruence. }
  split.
  - intros t Ht. destruct (m !! (old +:+ t)) as [v|] eqn:Hm.
    + apply elem_of_list_to_map_1; [exact Hnd|].
      apply list_elem_of_fmap. exists (old +:+ t, v). split.
      * unfold f. simpl. by rewrite drop_app.
      * apply Hl. by exists t.
    + apply not_elem_of_list_to_map_1. intros Hin.
      apply Hkeys in Hin as (t' & v & Ht' & Heq & Hm').
      apply (inj (String.app new)) in Heq. subst t'. congruence.
  - intros k Hk. apply not_elem_of_list_to_map_1. intros Hin.
    apply Hkeys in Hin as (t & v & Ht & -> & _). apply Hk. by exists t.
Qed.

(** [convertShard] on a shard of a legacy format. *)
Lemma convertShard_legacy C dataPath sz si :
  let src := FullPath si dataPath in
  let dst := src +:+ "." +:+ tsmExt in
  Format si ≠ TSM1 →
  convertShard C dataPath sz si =
    (err <~ collab (reader_Open C (Format si) src) (ReaderOpen src);;
     match err with
     | Some e =>
         ret (Some (ErrorString
                ("Failed to open " +:+ src +:+ " for conversion: " +:+ Error e)))
     | None =>
         emit (NewConverter dst (uint32 sz)) >>
         err <~ collab (converter_Process C dst (uint32 sz) (Format si) src)
                       (ConverterProcess dst);;
         match err with
         | Some e =>
             ret (Some (ErrorString
                    ("Conversion of " +:+ src +:+ " failed: " +:+ Error e)))
         | None =>
             err <~ collab (reader_Close C (Format si) src) (ReaderClose src);;
             match err with
             | Some e =>
                 ret (Some (ErrorString
                        ("Conversion of " +:+ src +:+ " failed due to close: "
                         +:+ Error e)))
             | None =>
                 err <~ os_RemoveAll src;;
                 match err with
                 | Some e =>
                     ret (Some (ErrorString
                            ("Deletion of " +:+ src +:+ " failed: " +:+ Error e)))
                 | None =>
                     err <~ os_Rename dst src;;
                     match err with
                     | Some e =>
                         ret (Some (ErrorString
                                ("Rename of " +:+ dst +:+ " to " +:+ src +:+ " failed: "
                                 +:+ Error e)))
                     | None => ret None
                     end
                 end
             end
         end
     end).
Proof.
  intros src dst Hfmt. unfold convertShard. fold src. fold dst.
  destruct (Format si); [reflexivity|reflexivity|congruence].
Qed.

(** The steps of [convertShard] up to the deletion, when the readers
    and the converter succeed. *)
Lemma convertShard_converted C dataPath sz si w m1 m2 m3 :
  let src := FullPath si dataPath in
  let dst := src +:+ "." +:+ tsmExt in
  Format si ≠ TSM1 →
  reader_Open C (Format si) src (nodes w) = (None, m1) →
  converter_Process C dst (uint32 sz) (Format si) src m1 = (None, m2) →
  reader_Close C (Format si) src m2 = (None, m3) →
  convertShard C dataPath sz si w
  = (err <~ os_RemoveAll src;;
     match err with
     | Some e =>
         ret (Some (ErrorString ("Deletion of " +:+ src +:+ " failed: " +:+ Error e)))
     | None =>
         err <~ os_Rename dst src;;
         match err with
         | Some e =>
             ret (Some (ErrorString
                    ("Rename of " +:+ dst +:+ " to " +:+ src +:+ " failed: " +:+ Error e)))
         | None => ret None
         end
     end)
    (mkWorld m3 (denied w) (stdin w) (stdout w) (stderr w)
       (trace w ++ [ReaderOpen src None; NewConverter dst (uint32 sz);
                    ConverterProcess dst None; ReaderClose src None])).
Proof.
  intros src dst Hfmt Hopen Hproc Hclose.
  rewrite (convertShard_legacy C dataPath sz si Hfmt). fold src. fold dst.
  unfold bind at 1. rewrite collab_run, Hopen. cbn [fst snd].
  unfold bind at 1. unfold emit at 1. cbn [nodes denied stdin stdout stderr trace].
  unfold bind at 1. rewrite collab_run. cbn [nodes denied stdin stdout stderr trace].
  rewrite Hproc. cbn [fst snd].
  unfold bind at 1. rewrite collab_run. cbn [nodes denied stdin stdout stderr trace].
  rewrite Hclose. cbn [fst snd].
  rewrite <- !app_assoc. reflexivity.
Qed.

(** X6. When the reader opens, the converter and the close succeed and
    the converter has left the new shard at [src.tsm], [convertShard]
    returns nil after exactly six steps (open, new converter, process,
    close, remove, rename); then what was at and below [src.tsm] is at
    and below the shard's own path, nothing is left at [src.tsm], and the
    rest of the file system is as the conversion left it. *)
Theorem convertShard_replaces_shard
    (C : Collab) (dataPath : string) (sz : N) (si : ShardInfo) (w : World)
    (m1 m2 m3 : gmap string node) :
  let src := FullPath si dataPath in
  let dst := src +:+ "." +:+ tsmExt in
  Format si ≠ TSM1 →
  reader_Open C (Format si) src (nodes w) = (None, m1) →
  converter_Process C dst (uint32 sz) (Format si) src m1 = (None, m2) →
  reader_Close C (Format si) src m2 = (None, m3) →
  src ∉ denied w → dst ∉ denied w →
  is_Some (m3 !! dst) → parent_is_dir src m3 = true →
  let r := convertShard C dataPath sz si w in
  r.1 = Val None ∧
  trace r.2 = (trace w ++ [ReaderOpen src None; NewConverter dst (uint32 sz);
                           ConverterProcess dst None; ReaderClose src None;
                           SysRemoveAll src None; SysRename dst src None])%list ∧
  (∀ t, sfxb t = true → nodes r.2 !! (src +:+ t) = m3 !! (dst +:+ t)) ∧
  (∀ t, sfxb t = true → nodes r.2 !! (dst +:+ t) = None) ∧
  (∀ k, ¬ below src k → ¬ below dst k → nodes r.2 !! k = m3 !! k).
Proof.
  intros src dst Hfmt Hopen Hproc Hclose Hds Hdd [nd Hnd] Hpar r. subst r.
  rewrite (convertShard_converted C dataPath sz si w m1 m2 m3 Hfmt Hopen Hproc Hclose).
  fold src. fold dst.
  set (m4 := filter (λ kv : string * node, underb src kv.1 = false) m3).
  assert (Hm4 : ∀ k, m4 !! k = if underb src k then None else m3 !! k).
  { intros k. apply filter_not_under. }
  assert (Hdst_out : ∀ t, underb src (dst +:+ t) = false).
  { intros t. apply underb_not_below. unfold dst. rewrite !sapp_assoc.
    apply not_below_tsm. }
  set (tr := (trace w ++ [ReaderOpen src None; NewConverter dst (uint32 sz);
                          ConverterProcess dst None; ReaderClose src None])%list).
  set (moved := list_to_map
          ((λ kv : string * node, (src +:+ Str.drop (String.length dst) kv.1, kv.2)) <$>
           map_to_list (filter (λ kv : string * node, underb dst kv.1 = true) m4))
        : gmap string node).
  set (rest := filter (λ kv : string * node, underb dst kv.1 = false) m4).
  assert (Hcheck : ∀ tr', rename_check dst src
            (mkWorld m4 (denied w) (stdin w) (stdout w) (stderr w) tr') = None).
  { intros tr'. unfold rename_check, is_denied. cbn [nodes denied].
    rewrite !bool_decide_eq_false_2 by done. simpl orb. cbv iota.
    rewrite Hm4. pose proof (Hdst_out "") as Hd. rewrite sapp_nil_r in Hd.
    rewrite Hd, Hnd.
    assert (Hp4 : parent_is_dir src m4 = true).
    { unfold parent_is_dir in *. destruct (split_last src) as [[d n]|] eqn:Hs; [|done].
      rewrite Hm4. apply split_last_Some in Hs as [Hs _].
      assert (Hu : underb src d = false).
      { apply underb_not_below. rewrite Hs at 1. apply not_below_longer. done. }
      by rewrite Hu. }
    rewrite Hp4. simpl negb. cbv iota.
    rewrite Hm4. assert (Hu : underb src src = true) by (apply underb_below, below_refl).
    rewrite Hu. by destruct nd. }
  match goal with |- context [?F (mkWorld m3 ?d ?i ?o ?e tr)] =>
    assert (Hrun : F (mkWorld m3 d i o e tr)
                   = (Val None,
                      mkWorld (moved ∪ rest) d i o e
                        (tr ++ [SysRemoveAll src None; SysRename dst src None])))
  end.
  { unfold bind at 1. unfold os_RemoveAll, is_denied.
    cbn [nodes denied stdin stdout stderr trace].
    rewrite bool_decide_eq_false_2 by done.
    cbn [nodes denied stdin stdout stderr trace set_nodes]. fold m4.
    unfold bind at 1. unfold os_Rename. cbn [nodes denied stdin stdout stderr trace].
    rewrite Hcheck. fold moved. fold rest. cbn [fst snd].
    by rewrite <- !app_assoc. }
  rewrite Hrun. clear Hrun. cbn [fst snd nodes trace].
  destruct (rename_moved dst src m4) as [Hmoved Hother].
  fold moved in Hmoved, Hother.
  split; [done|]. split; [subst tr; by rewrite <- !app_assoc|].
  split; [|split].
  - intros t Ht. specialize (Hmoved t Ht). rewrite Hm4, Hdst_out in Hmoved.
    destruct (m3 !! (dst +:+ t)) as [v|] eqn:Hv.
    + by apply lookup_union_Some_l.
    + apply lookup_union_None. split; [done|].
      unfold rest. rewrite filter_not_under, Hm4.
      assert (Hu : underb src (src +:+ t) = true) by (apply underb_below; by exists t).
      rewrite Hu. by destruct (underb dst (src +:+ t)).
  - intros t Ht. apply lookup_union_None. split.
    + apply Hother. intros (u & Hu & Heq). unfold dst in Heq. rewrite !sapp_assoc in Heq.
      apply (inj (String.app src)) in Heq. by subst u.
    + unfold rest. rewrite filter_not_under.
      assert (Hu : underb dst (dst +:+ t) = true) by (apply underb_below; by exists t).
      by rewrite Hu.
  - intros k Hks Hkd. rewrite lookup_union_r by (by apply Hother).
    unfold rest. rewrite filter_not_under, Hm4.
    apply underb_not_below in Hks, Hkd. by rewrite Hks, Hkd.
Qed.

(** X7. The source is deleted before the new shard is moved into its
    place: whenever the final [os.Rename] fails, [convertShard] returns
    "Rename of ... failed", [os.RemoveAll] has already succeeded, and
    nothing is left at or below the shard's path. *)
Theorem failed_rename_loses_shard
    (C : Collab) (dataPath : string) (sz : N) (si : ShardInfo) (w : World) :
  let src := FullPath si dataPath in
  let dst := src +:+ "." +:+ tsmExt in
  let r := convertShard C dataPath sz si w in
  ∃ evs, trace r.2 = (trace w ++ evs)%list ∧
    ∀ e, In (SysRename dst src (Some e)) evs →
      r.1 = Val (Some (ErrorString ("Rename of " +:+ dst +:+ " to " +:+ src
                                    +:+ " failed: " +:+ Error e))) ∧
      In (SysRemoveAll src None) evs ∧
      ∀ k, below src k → nodes r.2 !! k = None.
Proof.
  intros src dst r.
  assert (Hdec : Format si = TSM1 ∨ Format si ≠ TSM1) by (destruct (Format si); auto).
  destruct Hdec as [Hfmt|Hfmt].
  { exists []. subst r. unfold convertShard. rewrite Hfmt. simpl.
    split; [by rewrite app_nil_r|]. intros e []. }
  subst r. rewrite (convertShard_legacy C dataPath sz si Hfmt). fold src. fold dst.
  match goal with |- context [trace (?F w).2] => destruct (F w) as [res w'] eqn:Hr end.
  cbn [fst snd].
  unfold bind at 1 in Hr. rewrite collab_run in Hr.
  destruct (reader_Open C (Format si) src (nodes w)) as [[e1|] m1]; simpl in Hr.
  { injection Hr as <- <-. eexists [_]. split; [reflexivity|].
    intros e [?|[]]; discriminate. }
  unfold bind at 1 in Hr. unfold emit at 1 in Hr. simpl in Hr.
  unfold bind at 1 in Hr. rewrite collab_run in Hr. simpl in Hr.
  destruct (converter_Process C dst (uint32 sz) (Format si) src m1) as [[e2|] m2];
    simpl in Hr.
  { injection Hr as <- <-. eexists [_; _; _].
    split; [simpl; rewrite <- !app_assoc; reflexivity|].
    intros e [?|[?|[?|[]]]]; discriminate. }
  unfold bind at 1 in Hr. rewrite collab_run in Hr. simpl in Hr.
  destruct (reader_Close C (Format si) src m2) as [[e3|] m3]; simpl in Hr.
  { injection Hr as <- <-. eexists [_; _; _; _].
    split; [simpl; rewrite <- !app_assoc; reflexivity|].
    intros e [?|[?|[?|[?|[]]]]]; discriminate. }
  unfold bind at 1 in Hr. unfold os_RemoveAll at 1 in Hr. simpl in Hr.
  destruct (is_denied src _) eqn:Hden; simpl in Hr.
  { injection Hr as <- <-. eexists [_; _; _; _; _].
    split; [simpl; rewrite <- !app_assoc; reflexivity|].
    intros e [?|[?|[?|[?|[?|[]]]]]]; discriminate. }
  unfold bind at 1 in Hr. unfold os_Rename at 1 in Hr. simpl in Hr.
  match type of Hr with context [rename_check ?a ?b ?w'] =>
    destruct (rename_check a b w') as [e5|] end; simpl in Hr.
  - injection Hr as <- <-. eexists [_; _; _; _; _; _].
    split; [simpl; rewrite <- !app_assoc; reflexivity|].
    intros e [?|[?|[?|[?|[?|[He|[]]]]]]]; try discriminate.
    injection He as <-. split; [done|]. split; [simpl; tauto|].
    intros k Hk. simpl. rewrite filter_not_under.
    apply underb_below in Hk. by rewrite Hk.
  - injection Hr as <- <-. eexists [_; _; _; _; _; _].
    split; [simpl; rewrite <- !app_assoc; reflexivity|].
    intros e [?|[?|[?|[?|[?|[?|[]]]]]]]; discriminate.
Qed.

Lemma touches_collab (P : string → Prop) dst f ev :
  writes_within dst f → (∀ k, below dst k → P k) → touches P (collab f ev).
Proof.
  intros Hf HP w k Hk. unfold collab. simpl. apply Hf. intros Hb. by apply Hk, HP.
Qed.

Lemma touches_emit (P : string → Prop) e : touches P (emit e).
Proof. by intros w k _. Qed.

Lemma touches_os_RemoveAll p : touches (below p) (os_RemoveAll p).
Proof.
  intros w k Hk. unfold os_RemoveAll. destruct (is_denied p w); [done|]. simpl.
  rewrite filter_not_under. apply underb_not_below in Hk. by rewrite Hk.
Qed.

Lemma touches_os_Rename old new :
  touches (λ k, below old k ∨ below new k) (os_Rename old new).
Proof.
  intros w k Hk. unfold os_Rename. simpl.
  destruct (rename_check old new w); [done|].
  destruct (rename_moved old new (nodes w)) as [_ Hother].
  rewrite lookup_union_r by (apply Hother; tauto).
  rewrite filter_not_under.
  assert (Hu : underb old k = false) by (apply underb_not_below; tauto).
  by rewrite Hu.
Qed.

(** X8. [convertShard] works in place: when the readers and the
    converter write at most at and below [src.tsm], nothing outside the
    shard's path and [src.tsm] is changed, however the conversion ends
    (the removal takes what is below the shard's path, the rename what
    is below [src.tsm], and nothing else). *)
Theorem convertShard_stays_in_place
    (C : Collab) (dataPath : string) (sz : N) (si : ShardInfo) (w : World) (k : string) :
  let src := FullPath si dataPath in
  let dst := src +:+ "." +:+ tsmExt in
  collab_within C src dst →
  ¬ below src k → ¬ below dst k →
  nodes (convertShard C dataPath sz si w).2 !! k = nodes w !! k.
Proof.
  intros src dst Hc Hks Hkd.
  assert (Ht : touches (λ k, below src k ∨ below dst k) (convertShard C dataPath sz si)).
  { assert (Hdec : Format si = TSM1 ∨ Format si ≠ TSM1) by (destruct (Format si); auto).
    destruct Hdec as [Hfmt|Hfmt].
    { unfold convertShard. rewrite Hfmt. apply touches_ret. }
    rewrite (convertShard_legacy C dataPath sz si Hfmt). fold src. fold dst.
    destruct (Hc (Format si)) as (Hopen & Hproc & Hclose).
    apply touches_bind; [eapply touches_collab; [exact Hopen|tauto]|].
    intros [e|]; [apply touches_ret|].
    apply touches_bind; [apply touches_emit|]. intros _.
    apply touches_bind; [eapply touches_collab; [apply Hproc|tauto]|].
    intros [e|]; [apply touches_ret|].
    apply touches_bind; [eapply touches_collab; [exact Hclose|tauto]|].
    intros [e|]; [apply touches_ret|].
    apply touches_bind.
    { apply (touches_mono (below src)); [intros; by left|apply touches_os_RemoveAll]. }
    intros [e|]; [apply touches_ret|].
    apply touches_bind.
    { apply (touches_mono (λ k, below dst k ∨ below src k));
        [intros ? [?|?]; auto|apply touches_os_Rename]. }
    intros [e|]; apply touches_ret. }
  apply Ht. tauto.
Qed.

(** ** The conversions of a run *)

Lemma returns_ret {A} (a : A) : returns (ret a).
Proof. intros w. split; [by exists a|]. exists []. by rewrite app_nil_r. Qed.

Lemma returns_bind {A B} (f : M A) (k : A → M B) :
  returns f → (∀ a, returns (k a)) → returns (bind f k).
Proof.
  intros Hf Hk w. unfold bind. destruct (Hf w) as [[a Ha] (evs & Ht & Hall)].
  destruct (f w) as [[a'|h] w1]; simpl in *; [|done]. injection Ha as ->.
  destruct (Hk a w1) as [Hv (evs' & Ht' & Hall')]. split; [done|].
  exists (evs ++ evs')%list. rewrite Ht', Ht, app_assoc. split; [done|]. by apply Forall_app.
Qed.

Lemma returns_event {A} (a : World → A) (m : World → gmap string node) (e : World → event) :
  (∀ w, is_step_event (e w) = true) →
  returns (λ w, (Val (a w),
                 mkWorld (m w) (denied w) (stdin w) (stdout w) (stderr w) (trace w ++ [e w]))).
Proof.
  intros He w. split; [by eexists|]. exists [e w]. split; [done|]. by repeat constructor.
Qed.

Lemma returns_convertShard C dataPath sz si : returns (convertShard C dataPath sz si).
Proof.
  assert (Hdec : Format si = TSM1 ∨ Format si ≠ TSM1) by (destruct (Format si); auto).
  destruct Hdec as [Hfmt|Hfmt].
  { unfold convertShard. rewrite Hfmt. apply returns_ret. }
  rewrite (convertShard_legacy C dataPath sz si Hfmt).
  apply returns_bind; [by apply (returns_event _ _ (λ w, ReaderOpen _ _))|].
  intros [e|]; [apply returns_ret|].
  apply returns_bind; [by apply (returns_event (λ _, tt) nodes (λ _, NewConverter _ _))|].
  intros _. apply returns_bind; [by apply (returns_event _ _ (λ w, ConverterProcess _ _))|].
  intros [e|]; [apply returns_ret|].
  apply returns_bind; [by apply (returns_event _ _ (λ w, ReaderClose _ _))|].
  intros [e|]; [apply returns_ret|].
  apply returns_bind.
  { intros w. unfold os_RemoveAll.
    destruct (is_denied _ w); (split; [by eexists|]); eexists [_];
      (split; [reflexivity|]); by repeat constructor. }
  intros [e|]; [apply returns_ret|].
  apply returns_bind.
  { intros w. split; [by eexists|]. eexists [_]. split; [reflexivity|]. by repeat constructor. }
  intros [e|]; apply returns_ret.
Qed.

Lemma outcomes_app evs evs' : outcomes (evs ++ evs') = (outcomes evs ++ outcomes evs')%list.
Proof. unfold outcomes. apply omap_app. Qed.

Lemma outcomes_none (P : event → Prop) evs :
  (∀ e, P e → ∀ si err, e ≠ RetConvert si err) → Forall P evs → outcomes evs = [].
Proof.
  intros HP. induction 1 as [|e evs He _ IH]; [done|]. simpl.
  destruct e; try exact IH. by destruct (HP _ He si err).
Qed.

Lemma fst_succeeded (l : list ShardInfo) :
  fst <$> ((λ si, (si, @None error)) <$> l) = l.
Proof. induction l as [|si l IH]; [done|]. rewrite !fmap_cons. simpl. by rewrite IH. Qed.

Lemma convertAll_outcomes C dataPath sz shards :
  ∀ w res w',
    convertAll C dataPath sz shards w = (res, w') →
    ∃ evs, trace w' = (trace w ++ evs)%list ∧
      ((res = Val tt ∧ outcomes evs = (λ si, (si, None)) <$> shards) ∨
       (res = Halt (Exit 1) ∧
        ∃ done si e rest, shards = (done ++ si :: rest)%list ∧
          outcomes evs = (((λ si, (si, None)) <$> done) ++ [(si, Some e)])%list)).
Proof.
  induction shards as [|si shards IH]; intros w res w' Hrun; simpl in Hrun.
  { injection Hrun as <- <-. exists []. rewrite app_nil_r. split; [done|]. by left. }
  unfold bind at 1 in Hrun. unfold emit at 1 in Hrun. simpl in Hrun.
  unfold bind at 1 in Hrun.
  match type of Hrun with context [convertShard C dataPath sz si ?w1] =>
    destruct (returns_convertShard C dataPath sz si w1) as [[err Herr] (cv & Ht & Hcv)];
    destruct (convertShard C dataPath sz si w1) as [r1 w2] end.
  simpl in Herr, Ht. subst r1.
  assert (Hnone : outcomes cv = []).
  { eapply outcomes_none; [|exact Hcv]. intros e He ?? ->. done. }
  unfold bind at 1 in Hrun. unfold emit at 1 in Hrun. simpl in Hrun.
  destruct err as [e|].
  - unfold bind at 1 in Hrun. unfold Printf at 1 in Hrun. simpl in Hrun.
    injection Hrun as <- <-. simpl.
    exists (CallConvert si :: cv ++ [RetConvert si (Some e)])%list.
    rewrite Ht, <- !app_assoc. split; [done|]. right. split; [done|].
    exists [], si, e, shards. split; [done|].
    change (outcomes (CallConvert si :: cv ++ [RetConvert si (Some e)]))
      with (outcomes (cv ++ [RetConvert si (Some e)])).
    by rewrite outcomes_app, Hnone.
  - unfold bind at 1 in Hrun. unfold Printf at 1 in Hrun. simpl in Hrun.
    apply IH in Hrun as (evs & Ht' & Hcase). simpl in Ht'.
    exists (CallConvert si :: cv ++ RetConvert si None :: evs)%list.
    rewrite Ht', Ht, <- !app_assoc. split; [done|].
    assert (Hout : outcomes (CallConvert si :: cv ++ RetConvert si None :: evs)
                   = (si, None) :: outcomes evs).
    { change (outcomes (CallConvert si :: cv ++ RetConvert si None :: evs))
        with (outcomes (cv ++ RetConvert si None :: evs)).
      by rewrite outcomes_app, Hnone. }
    rewrite Hout.
    destruct Hcase as [[-> Ho]|(-> & done & si' & e & rest & -> & Ho)].
    + left. split; [done|]. by rewrite Ho.
    + right. split; [done|]. exists (si :: done), si', e, rest. split; [done|].
      by rewrite Ho.
Qed.

(** X9. [main] converts the shards in the order of the plan and stops
    at the first that fails: the shards whose conversion has returned are
    a beginning of the plan, an error is the last outcome of the run and
    ends it with code 1 (the shards before it stay converted, those after
    it are not touched), and a run that returns has converted every shard
    of the plan. *)
Theorem conversions_stop_at_first_failure
    (fuel : nat) (C : Collab) (cfg : Config) (dataPath : string) (rest : list string)
    (w : World) (plan : list ShardInfo) (w1 : World) :
  args cfg = dataPath :: rest →
  discover C cfg dataPath w = (Val plan, w1) →
  let r := main fuel C cfg w in
  ∃ evs, trace r.2 = (trace w ++ evs)%list ∧
    (∃ tail, plan = ((fst <$> outcomes evs) ++ tail)%list) ∧
    (∀ pre si e post, outcomes evs = (pre ++ (si, Some e) :: post)%list →
       post = [] ∧ r.1 = Halt (Exit 1)) ∧
    (r.1 = Val tt → outcomes evs = (λ si, (si, None)) <$> plan).
Proof.
  intros Hargs Hdis r. subst r.
  destruct (main fuel C cfg w) as [res w'] eqn:Hrun. simpl.
  destruct (discover_events C cfg dataPath w) as (dis & Hdt & Hdall).
  rewrite Hdis in Hdt. simpl in Hdt.
  assert (Hdnone : outcomes dis = []).
  { eapply outcomes_none; [|exact Hdall]. by intros e (db & -> & _) ??. }
  assert (Hquiet : ∀ evs, outcomes evs = [] → res ≠ Val tt →
    (∃ tail, plan = ((fst <$> outcomes evs) ++ tail)%list) ∧
    (∀ pre si e post, outcomes evs = (pre ++ (si, Some e) :: post)%list →
       post = [] ∧ res = Halt (Exit 1)) ∧
    (res = Val tt → outcomes evs = (λ si, (si, None)) <$> plan)).
  { intros evs Hnone Hres. rewrite Hnone. split; [by exists plan|]. split; [|done].
    intros pre ??? Heq. by destruct pre. }
  destruct (main_run _ _ _ _ _ _ _ _ Hargs Hrun)
    as [(_ & -> & Ht & _)|(_ & dres & w1' & Hdis' & Hcase)].
  { exists []. rewrite app_nil_r. split; [done|]. by apply Hquiet. }
  rewrite Hdis in Hdis'. injection Hdis' as <- <-.
  destruct Hcase as [(-> & -> & ->)|(Hne & [(-> & Ht & _)|(w2 & bres & w3 & Ht2 & _ & Hb & Hc)])].
  - exists dis. simpl. split; [done|]. by apply Hquiet.
  - exists dis. rewrite Ht. split; [done|]. by apply Hquiet.
  - apply backupAll_events in Hb as (bk & Htb & Hbk & _ & _).
    assert (Hbnone : outcomes bk = []).
    { eapply outcomes_none; [|exact Hbk]. by intros e He ?? ->. }
    destruct bres as [[]|h].
    + apply convertAll_outcomes in Hc as (cv & Htc & Hcase).
      exists (dis ++ bk ++ cv)%list.
      rewrite Htc, Htb, Ht2, Hdt, <- !app_assoc. split; [done|].
      rewrite !outcomes_app, Hdnone, Hbnone. simpl.
      destruct Hcase as [[-> Ho]|(-> & done & si & e & tail & -> & Ho)]; rewrite Ho.
      * split; [|split; [|done]].
        -- exists []. by rewrite app_nil_r, fst_succeeded.
        -- intros pre si e post Heq. exfalso.
           assert (Hin : (si, Some e) ∈ (λ si, (si, @None error)) <$> plan).
           { rewrite Heq. apply elem_of_app. right. by left. }
           apply list_elem_of_fmap in Hin as (? & [=] & _).
      * split; [|split; [|done]].
        -- exists tail. by rewrite fmap_app, fst_succeeded, <- app_assoc.
        -- intros pre si' e' post Heq. split; [|done].
           destruct post as [|p post] using rev_ind; [done|].
           clear IHpost. exfalso.
           rewrite app_comm_cons, app_assoc in Heq.
           apply app_inj_tail in Heq as [Hpre _].
           assert (Hin : (si', Some e') ∈ (λ si, (si, @None error)) <$> done).
           { rewrite Hpre. apply elem_of_app. right. by left. }
           apply list_elem_of_fmap in Hin as (? & [=] & _).
    + destruct Hc as [-> ->]. exists (dis ++ bk)%list.
      rewrite Htb, Ht2, Hdt, <- app_assoc. split; [done|].
      apply Hquiet; [|done]. by rewrite outcomes_app, Hdnone, Hbnone.
Qed.

(** ** The requested databases *)

Lemma Split_go_nonempty sep cur s : Str.Split_go sep cur s ≠ [].
Proof.
  revert cur. induction s as [|c s IH]; intros cur; simpl; [done|].
  destruct (Ascii.eqb c sep); [done|apply IH].
Qed.

Lemma rev_app_app s1 s2 t : String.rev_app s1 s2 +:+ t = String.rev_app s1 (s2 +:+ t).
Proof. revert s2. induction s1 as [|c s1 IH]; intros s2; simpl; [done|]. by rewrite IH. Qed.

Lemma Join_Split_go sep cur s :
  Str.Join (Str.Split_go sep cur s) (String sep "") = String.rev cur +:+ s.
Proof.
  revert cur. induction s as [|c s IH]; intros cur; simpl.
  - by rewrite sapp_nil_r.
  - destruct (Ascii.eqb c sep) eqn:Hc.
    + apply Ascii.eqb_eq in Hc as ->. specialize (IH "").
      unfold Str.Join in *. simpl.
      destruct (Str.Split_go sep "" s) as [|x l] eqn:Hs; [by destruct (Split_go_nonempty sep "" s)|].
      rewrite IH. reflexivity.
    + rewrite IH. unfold String.rev. simpl. by rewrite !rev_app_app.
Qed.

Lemma Split_go_piece cur x :
  commafree x = true → Str.Split_go "," cur x = [String.rev cur +:+ x].
Proof.
  revert cur. induction x as [|c x IH]; intros cur Hx; simpl.
  - by rewrite sapp_nil_r.
  - simpl in Hx. apply andb_true_iff in Hx as [Hc Hx].
    destruct (Ascii.eqb c ","); [done|]. rewrite (IH _ Hx).
    unfold String.rev. simpl. rewrite !rev_app_app. reflexivity.
Qed.

Lemma Split_go_pieces cur x s :
  commafree x = true →
  Str.Split_go "," cur (x +:+ String "," s)
  = (String.rev cur +:+ x) :: Str.Split_go "," "" s.
Proof.
  revert cur. induction x as [|c x IH]; intros cur Hx.
  - rewrite sapp_nil_l, sapp_nil_r. reflexivity.
  - simpl in Hx. apply andb_true_iff in Hx as [Hc Hx].
    rewrite sapp_cons. simpl. destruct (Ascii.eqb c ","); [done|]. rewrite (IH _ Hx).
    unfold String.rev. simpl. rewrite !rev_app_app. reflexivity.
Qed.

Lemma Split_Join l :
  l ≠ [] → Forall (λ x, commafree x = true) l → Str.Split (Str.Join l ",") "," = l.
Proof.
  intros Hne Hl. unfold Str.Split, Str.Join.
  induction Hl as [|x l Hx Hl IH]; [done|].
  destruct l as [|y l].
  - simpl. rewrite (Split_go_piece "" x Hx). by rewrite sapp_nil_l.
  - change (String.concat "," (x :: y :: l)) with (x +:+ "," +:+ String.concat "," (y :: l)).
    change ("," +:+ String.concat "," (y :: l)) with (String "," (String.concat "," (y :: l))).
    rewrite (Split_go_pieces "" x _ Hx), sapp_nil_l. f_equal. by apply IH.
Qed.

Lemma commafree_rev_app s t :
  commafree s = true → commafree t = true → commafree (String.rev_app s t) = true.
Proof.
  revert t. induction s as [|c s IH]; intros t Hs Ht; simpl; [done|].
  simpl in Hs. apply andb_true_iff in Hs as [Hc Hs]. apply IH; [done|].
  simpl. by rewrite Hc.
Qed.

Lemma Split_go_commafree cur s :
  commafree cur = true → Forall (λ x, commafree x = true) (Str.Split_go "," cur s).
Proof.
  revert cur. induction s as [|c s IH]; intros cur Hcur; simpl.
  - constructor; [|constructor]. by apply commafree_rev_app.
  - destruct (Ascii.eqb c ",") eqn:Hc.
    + constructor; [by apply commafree_rev_app|]. by apply IH.
    + apply IH. simpl. by rewrite Hc.
Qed.

Lemma length_Split_go cur s : length (Str.Split_go "," cur s) = S (commas s).
Proof.
  revert cur. induction s as [|c s IH]; intros cur; simpl; [done|].
  destruct (Ascii.eqb c ","); simpl; by rewrite IH.
Qed.

(** X10. The [-dbs] flag restricts the conversion unless it is empty:
    the list of requested names is nil exactly for the empty string.
    For any other value it is the list of the pieces between the commas
    as they were written, empty pieces included: it is not empty, no name
    in it has a comma, there is one name more than there are commas,
    joined by commas the names give the flag back, and it is the only
    such list. *)
Theorem reqDs_names_verbatim (cfg : Config) :
  (reqDs cfg = [] ↔ ds cfg = "") ∧
  (ds cfg ≠ "" →
     reqDs cfg ≠ [] ∧
     Str.Join (reqDs cfg) "," = ds cfg ∧
     Forall (λ name, commafree name = true) (reqDs cfg) ∧
     length (reqDs cfg) = S (commas (ds cfg)) ∧
     ∀ names, names ≠ [] → Forall (λ name, commafree name = true) names →
              Str.Join names "," = ds cfg → reqDs cfg = names).
Proof.
  pose proof (Join_Split_go "," "" (ds cfg)) as Hj. rewrite sapp_nil_l in Hj.
  pose proof (Split_go_nonempty "," "" (ds cfg)) as Hne.
  pose proof (Split_go_commafree "" (ds cfg) eq_refl) as Hfree.
  pose proof (length_Split_go "" (ds cfg)) as Hlen.
  assert (Huniq : ∀ names, names ≠ [] → Forall (λ name, commafree name = true) names →
            Str.Join names "," = ds cfg → Str.Split_go "," "" (ds cfg) = names).
  { intros names Hn Hf <-. by apply Split_Join. }
  unfold reqDs, Str.Split.
  assert (Hone : Str.Split_go "," "" (ds cfg) = [""] ↔ ds cfg = "").
  { split; [|by intros ->]. intros Heq. by rewrite Heq in Hj. }
  destruct (Str.Split_go "," "" (ds cfg)) as [|x [|y l]] eqn:Hs; [done| |].
  - destruct x as [|c x].
    + split; [by split; [intros _; apply Hone|]|]. intros Hd. by destruct Hd; apply Hone.
    + split; [|done]. split; [done|]. intros Hd. apply Hone in Hd. done.
  - split.
    + split; [by destruct x|]. intros Hd. apply Hone in Hd. done.
    + intros _. by destruct x.
Qed.

(** ** The further properties on the example data root *)

(** [d/mydb.bak] is there: the backup of [d/mydb] is refused. *)
Lemma backup_refused_when_stat_fails_witness :
  (is_Some (nodes TsmSample.world !! ("d/mydb" +:+ ".bak"))
   ∨ ("d/mydb" +:+ ".bak") ∈ denied TsmSample.world) ∧
  backupDatabase 100 "d/mydb" TsmSample.world
  = (Val (Some (ErrorString "backup of d/mydb already exists")), TsmSample.world).
Proof.
  assert (H : is_Some (nodes TsmSample.world !! ("d/mydb" +:+ ".bak"))
              ∨ ("d/mydb" +:+ ".bak") ∈ denied TsmSample.world).
  { left. exists (Dir 493). vm_compute. reflexivity. }
  split; [exact H|].
  exact (backup_refused_when_stat_fails 100 "d/mydb" TsmSample.world H).
Defined.

(** There is no [d/nodb]. *)
Lemma backup_of_missing_source_panics_witness :
  nodes TsmSample.world !! ("d/nodb" +:+ ".bak") = None ∧
  (("d/nodb" +:+ ".bak") ∉ denied TsmSample.world) ∧
  (nodes TsmSample.world !! "d/nodb" = None ∨ "d/nodb" ∈ denied TsmSample.world) ∧
  backupDatabase 100 "d/nodb" TsmSample.world = (Halt Panic, TsmSample.world).
Proof.
  assert (H1 : nodes TsmSample.world !! ("d/nodb" +:+ ".bak") = None)
    by (vm_compute; reflexivity).
  assert (H2 : ("d/nodb" +:+ ".bak") ∉ denied TsmSample.world) by apply not_elem_of_empty.
  assert (H3 : nodes TsmSample.world !! "d/nodb" = None ∨ "d/nodb" ∈ denied TsmSample.world).
  { left. vm_compute. reflexivity. }
  split; [exact H1|]. split; [exact H2|]. split; [exact H3|].
  exact (backup_of_missing_source_panics 100 "d/nodb" TsmSample.world H1 H2 H3).
Defined.

(** The three bytes of [a] over the five of [b]. *)
Lemma copyDir_does_not_truncate_witness :
  denied TsmSample.pair = ∅ ∧
  nodes TsmSample.pair !! "a" = Some (File 420 "new") ∧
  nodes TsmSample.pair !! "b" = Some (File 384 "older") ∧
  nodes (copyDir 1 "b" "a" TsmSample.pair).2 !! "b" = Some (File 384 "newer").
Proof.
  assert (H1 : denied TsmSample.pair = ∅) by reflexivity.
  assert (H2 : nodes TsmSample.pair !! "a" = Some (File 420 "new"))
    by (vm_compute; reflexivity).
  assert (H3 : nodes TsmSample.pair !! "b" = Some (File 384 "older"))
    by (vm_compute; reflexivity).
  split; [exact H1|]. split; [exact H2|]. split; [exact H3|].
  destruct (copyDir_does_not_truncate 0 "b" "a" 420 384 "new" "older" TsmSample.pair
              H1 H2 H3) as [-> _].
  vm_compute. reflexivity.
Defined.

(** The answer [n], and the answer [y]. *)
Lemma main_needs_confirmation_witness :
  ¬ confirms (stdin TsmSample.world_no) ∧
  (main 20 TsmSample.working TsmSample.config TsmSample.world_no).1 = Halt (Exit 1) ∧
  nodes (main 20 TsmSample.working TsmSample.config TsmSample.world_no).2
  = nodes TsmSample.world_no ∧
  confirms (stdin TsmSample.world) ∧
  ∃ post,
    trace (main 20 TsmSample.working TsmSample.config TsmSample.world).2
    = (trace TsmSample.discovered ++ CallBackup "d/db" :: post)%list.
Proof.
  assert (H : ¬ confirms (stdin TsmSample.world_no)).
  { intros (rest & [Heq|Heq]); vm_compute in Heq; discriminate Heq. }
  assert (Hy : confirms (stdin TsmSample.world)) by (exists ""; by left).
  assert (Hd : discover TsmSample.working TsmSample.config "d" TsmSample.world
               = (Val [TsmSample.shard1; TsmSample.shard2], TsmSample.discovered))
    by (vm_compute; reflexivity).
  assert (Hsz : (tsmSz TsmSample.config <= maxTSMSz)%N) by (vm_compute; discriminate).
  split; [exact H|].
  destruct (main_needs_confirmation 20 TsmSample.working TsmSample.config
              TsmSample.world_no) as [Hno _].
  destruct (Hno H) as (_ & Hn & _).
  split; [vm_compute; reflexivity|]. split; [exact Hn|]. split; [exact Hy|].
  destruct (main_needs_confirmation 20 TsmSample.working TsmSample.config
              TsmSample.world) as [_ Hyes].
  destruct (Hyes Hy "d" [] _ _ eq_refl Hsz Hd ltac:(discriminate))
    as (db & dbs & post & Hdb & Ht).
  injection Hdb as <- _. by exists post.
Defined.

(** The first shard of [d/db] after the backup of [d/db]. *)
Lemma backup_keeps_source_witness :
  "d/db" ≠ "" ∧ below "d/db" "d/db/rp/1" ∧
  nodes (backupDatabase 100 "d/db" TsmSample.world).2 !! "d/db/rp/1"
  = Some (File 420 "legacy-1").
Proof.
  assert (H1 : "d/db" ≠ "") by discriminate.
  assert (H2 : below "d/db" "d/db/rp/1") by (by exists "/rp/1").
  split; [exact H1|]. split; [exact H2|].
  rewrite (backup_keeps_source 100 "d/db" TsmSample.world "d/db/rp/1" H1 H2).
  vm_compute. reflexivity.
Defined.

(** The first shard, with the collaborators that work. *)
Lemma convertShard_replaces_shard_witness :
  Format TsmSample.shard1 ≠ TSM1 ∧
  nodes (convertShard TsmSample.working "d" 1000 TsmSample.shard1 TsmSample.world).2
    !! "d/db/rp/1" = Some (File 420 "tsm1") ∧
  nodes (convertShard TsmSample.working "d" 1000 TsmSample.shard1 TsmSample.world).2
    !! "d/db/rp/1.tsm" = None.
Proof.
  assert (H0 : Format TsmSample.shard1 ≠ TSM1) by discriminate.
  split; [exact H0|].
  destruct (convertShard_replaces_shard TsmSample.working "d" 1000 TsmSample.shard1
              TsmSample.world TsmSample.root
              (<["d/db/rp/1.tsm" := File 420 "tsm1"]> TsmSample.root)
              (<["d/db/rp/1.tsm" := File 420 "tsm1"]> TsmSample.root)
              H0 eq_refl eq_refl eq_refl)
    as (_ & _ & Hsrc & Hdst & _).
  - apply not_elem_of_empty.
  - apply not_elem_of_empty.
  - exists (File 420 "tsm1"). vm_compute. reflexivity.
  - vm_compute. reflexivity.
  - split.
    + etransitivity; [exact (Hsrc "" eq_refl)|vm_compute; reflexivity].
    + exact (Hdst "" eq_refl).
Defined.

(** The first shard, with the converter that writes nothing: the rename
    finds no new shard, and the old one is gone. *)
Lemma failed_rename_loses_shard_witness :
  In (SysRename "d/db/rp/1.tsm" "d/db/rp/1"
        (Some (PathError "rename" "d/db/rp/1.tsm" ENOENT)))
     (trace (convertShard TsmSample.silent "d" 1000 TsmSample.shard1 TsmSample.world).2) ∧
  nodes (convertShard TsmSample.silent "d" 1000 TsmSample.shard1 TsmSample.world).2
    !! "d/db/rp/1" = None.
Proof.
  assert (Hin : In (SysRename "d/db/rp/1.tsm" "d/db/rp/1"
                      (Some (PathError "rename" "d/db/rp/1.tsm" ENOENT)))
                   (trace (convertShard TsmSample.silent "d" 1000 TsmSample.shard1
                             TsmSample.world).2)).
  { vm_compute. do 5 right. left. reflexivity. }
  split; [exact Hin|].
  destruct (failed_rename_loses_shard TsmSample.silent "d" 1000 TsmSample.shard1
              TsmSample.world) as (evs & Ht & Hlost).
  change (trace TsmSample.world) with (@nil event) in Ht. simpl app in Ht.
  rewrite Ht in Hin.
  destruct (Hlost _ Hin) as (_ & _ & Hgone).
  apply Hgone. apply below_refl.
Defined.

Lemma working_within :
  collab_within TsmSample.working (FullPath TsmSample.shard1 "d")
    (FullPath TsmSample.shard1 "d" +:+ "." +:+ tsmExt).
Proof.
  intros fmt. split; [|split].
  - intros m k _. reflexivity.
  - intros sz m k Hk. simpl. apply lookup_insert_ne. intros <-. apply Hk, below_refl.
  - intros m k _. reflexivity.
Qed.

(** The second shard, after the conversion of the first. *)
Lemma convertShard_stays_in_place_witness :
  collab_within TsmSample.working (FullPath TsmSample.shard1 "d")
    (FullPath TsmSample.shard1 "d" +:+ "." +:+ tsmExt) ∧
  ¬ below (FullPath TsmSample.shard1 "d") "d/db/rp/2" ∧
  ¬ below (FullPath TsmSample.shard1 "d" +:+ "." +:+ tsmExt) "d/db/rp/2" ∧
  nodes (convertShard TsmSample.working "d" 1000 TsmSample.shard1 TsmSample.world).2
    !! "d/db/rp/2" = Some (File 384 "legacy-2").
Proof.
  assert (H1 : ¬ below (FullPath TsmSample.shard1 "d") "d/db/rp/2").
  { apply underb_not_below. vm_compute. reflexivity. }
  assert (H2 : ¬ below (FullPath TsmSample.shard1 "d" +:+ "." +:+ tsmExt) "d/db/rp/2").
  { apply underb_not_below. vm_compute. reflexivity. }
  split; [exact working_within|]. split; [exact H1|]. split; [exact H2|].
  rewrite (convertShard_stays_in_place TsmSample.working "d" 1000 TsmSample.shard1
             TsmSample.world "d/db/rp/2" working_within H1 H2).
  vm_compute. reflexivity.
Defined.

(** With the converter that fails: the only outcome is the error of the
    first shard, and the second is not begun. *)
Lemma conversions_stop_at_first_failure_witness :
  args TsmSample.config = "d" :: [] ∧
  discover TsmSample.failing TsmSample.config "d" TsmSample.world
    = (Val [TsmSample.shard1; TsmSample.shard2], TsmSample.discovered) ∧
  ∃ evs,
    trace (main 20 TsmSample.failing TsmSample.config TsmSample.world).2
      = (trace TsmSample.world ++ evs)%list ∧
    (∃ tail, [TsmSample.shard1; TsmSample.shard2] = ((fst <$> outcomes evs) ++ tail)%list) ∧
    (∀ pre si e post, outcomes evs = (pre ++ (si, Some e) :: post)%list →
       post = [] ∧
       (main 20 TsmSample.failing TsmSample.config TsmSample.world).1 = Halt (Exit 1)) ∧
    ((main 20 TsmSample.failing TsmSample.config TsmSample.world).1 = Val tt →
     outcomes evs = (λ si, (si, None)) <$> [TsmSample.shard1; TsmSample.shard2]).
Proof.
  assert (Hd : discover TsmSample.failing TsmSample.config "d" TsmSample.world
               = (Val [TsmSample.shard1; TsmSample.shard2], TsmSample.discovered))
    by (vm_compute; reflexivity).
  split; [reflexivity|]. split; [exact Hd|].
  exact (conversions_stop_at_first_failure 20 TsmSample.failing TsmSample.config "d" []
           TsmSample.world _ _ eq_refl Hd).
Defined.

(** A request with an empty name in it. *)
Lemma reqDs_names_verbatim_witness :
  ds TsmSample.config_three ≠ "" ∧
  reqDs TsmSample.config_three = ["db"; "mydb"; ""; "x"] ∧
  length (reqDs TsmSample.config_three) = 4%nat.
Proof.
  assert (H : ds TsmSample.config_three ≠ "") by discriminate.
  split; [exact H|].
  destruct (reqDs_names_verbatim TsmSample.config_three) as [_ Hj].
  destruct (Hj H) as (_ & _ & _ & Hlen & Huniq).
  split; [|exact Hlen].
  apply Huniq; [discriminate|repeat constructor|reflexivity].
Defined.

End TsmProps.

(** * Properties of the inspection tool *)

Module InspectProps.
Import Inspect InspectObs.
Local Close Scope string_scope.
Local Open Scope go_scope.

(** ** The model at work *)

Example btou64_one : btou64 (InspectSample.time Byte.x01) = Some 1.
Proof. reflexivity. Qed.

Example btou64_short : btou64 [Byte.x01; Byte.x02] = None.
Proof. reflexivity. Qed.

Example btou64_big_endian :
  btou64 [Byte.x01; Byte.x00; Byte.x00; Byte.x00; Byte.x00; Byte.x00; Byte.x00; Byte.x02]
  = Some (2 ^ 56 + 2).
Proof. reflexivity. Qed.

Example int64_wraps : int64 (2 ^ 64 - 1) = -1.
Proof. reflexivity. Qed.

(** A whole run on the example store: the header, the table with its one
    row, the dump with its three points. *)
Example main_prints :
  let r := main (mkEnv None None InspectSample.tstore) InspectSample.start in
  r.1 = Val tt ∧
  out r.2 =
    ["# Shards: 2, Indexes: 1, Databases: 1, Disk Size: 4096, Series: 2" +:+ nl;
     "#" +:+ nl;
     Str.Join ["# Shard"; "DB"; "Measurement"; "Tags [#K/#V]"; "Fields [Name:Type]";
               "Series"] tab +:+ nl;
     summaryRow 1 "db" InspectSample.cpu ["value:int64"];
     "# DML" +:+ nl;
     "# CONTEXT-DATABASE:db" +:+ nl;
     "# CONTEXT-RETENTION-POLICY:default" +:+ nl;
     pointLine "cpu,host=a" "value=1" 1;
     pointLine "cpu,host=a" "value=2" 2;
     pointLine "cpu,host=b" "value=1" 5] ∧
  open_tx r.2 = [].
Proof. by vm_compute. Qed.

(** ** The dump of a series *)

Lemma timed_btou64 p : timed p → ∃ u, btou64 p.1 = Some u.
Proof.
  unfold timed. destruct p as [ts v]. simpl.
  do 8 (destruct ts as [|? ts]; [simpl; lia|]). intros _. eexists. reflexivity.
Qed.

Lemma dumpPoints_run id key codec items :
  Forall timed items →
  ∀ st, ∃ evs diag,
    dumpPoints id key codec items st
    = (Val tt, mkState (out st ++ (render <$> lines evs)) (stdout st ++ diag)
                       (open_tx st) (log st ++ evs)) ∧
    yields evs = items ∧
    Some <$> lines evs = lineOf key codec <$> items.
Proof.
  induction 1 as [|p items Hp _ IH]; intros st.
  { exists [], []. simpl. rewrite !app_nil_r. by destruct st. }
  destruct (timed_btou64 p Hp) as (u & Hu).
  simpl dumpPoints. rewrite Hu.
  unfold bind, emit, Printf, Fprintf, ret. simpl.
  destruct (DecodeFieldsWithNames codec p.2) as [fields err] eqn:Hdec. simpl.
  destruct err as [e|]; simpl.
  - match goal with |- context [dumpPoints id key codec items ?st2] =>
      destruct (IH st2) as (evs & diag & -> & Hy & Hl) end.
    exists (Yield id key p :: PointLine key (Str.Join (fieldValues fields) ",") (int64 u)
            :: evs), (("Failed to decode values: " +:+ e) :: diag).
    split; [|split].
    + cbn [out stdout open_tx log]. rewrite <- !app_assoc. reflexivity.
    + simpl. by rewrite Hy.
    + change (lines (Yield id key p
                     :: PointLine key (Str.Join (fieldValues fields) ",") (int64 u) :: evs))
        with ((key, Str.Join (fieldValues fields) ",", int64 u) :: lines evs).
      rewrite !fmap_cons, Hl. f_equal. unfold lineOf, pointTime. by rewrite Hu, Hdec.
  - match goal with |- context [dumpPoints id key codec items ?st2] =>
      destruct (IH st2) as (evs & diag & -> & Hy & Hl) end.
    exists (Yield id key p :: PointLine key (Str.Join (fieldValues fields) ",") (int64 u)
            :: evs), diag.
    split; [|split].
    + cbn [out stdout open_tx log]. rewrite <- !app_assoc. reflexivity.
    + simpl. by rewrite Hy.
    + change (lines (Yield id key p
                     :: PointLine key (Str.Join (fieldValues fields) ",") (int64 u) :: evs))
        with ((key, Str.Join (fieldValues fields) ",", int64 u) :: lines evs).
      rewrite !fmap_cons, Hl. f_equal. unfold lineOf, pointTime. by rewrite Hu, Hdec.
Qed.

(** ** The dump, scan by scan *)

Lemma reads_app evs evs' : reads (evs ++ evs') = reads evs ++ reads evs'.
Proof. unfold reads. apply omap_app. Qed.

Lemma lines_app evs evs' : lines (evs ++ evs') = lines evs ++ lines evs'.
Proof. unfold lines. apply omap_app. Qed.

Lemma dumps_ret : dumps [] [] (ret tt).
Proof.
  intros st. simpl. rewrite app_nil_r. repeat split. exists []. by rewrite app_nil_r.
Qed.

Lemma dumps_Fprintf s : dumps [s] [] (Fprintf s).
Proof.
  intros st. split; [done|]. split; [done|]. exists []. by rewrite app_nil_r.
Qed.

Lemma dumps_bind rows rows' pts pts' (f g : M unit) :
  dumps rows pts f → dumps rows' pts' g → dumps (rows ++ rows') (pts ++ pts') (f >> g).
Proof.
  intros Hf Hg st. unfold bind. destruct (Hf st) as (Hv & Ho & evs & Hl & Hr & Hn).
  destruct (f st) as [[[]|h] st1]; simpl in *; [|done].
  destruct (Hg st1) as (Hv' & Ho' & evs' & Hl' & Hr' & Hn').
  split; [done|]. split; [by rewrite Ho', Ho, app_assoc|].
  exists (evs ++ evs'). rewrite Hl', Hl, app_assoc. split; [done|].
  rewrite reads_app, lines_app, !length_app, Hr, Hr', Hn, Hn'. done.
Qed.

Lemma dumps_forEach {A} (rows : A → list string) (pts : A → list (N * string * item))
    (body : A → M unit) l :
  (∀ x, x ∈ l → dumps (rows x) (pts x) (body x)) →
  dumps (l ≫= rows) (l ≫= pts) (forEach body l).
Proof.
  induction l as [|x l IH]; intros Hb; simpl; [apply dumps_ret|].
  apply dumps_bind; [apply Hb; by left|]. apply IH. intros y Hy. apply Hb. by right.
Qed.

(** The loop over the points of a cursor: a line for each point, in the
    order of the cursor. *)
Lemma dumpPoints_lines id key codec items :
  Forall timed items →
  ∀ st, ∃ evs diag,
    dumpPoints id key codec items st
    = (Val tt,
       mkState (out st ++ omap (λ p, lineText key (DecodeFieldsWithNames codec p.2).1
                                       <$> pointTime p) items)
               (stdout st ++ diag) (open_tx st) (log st ++ evs)) ∧
    reads evs = (λ p, (id, key, p)) <$> items ∧
    length (lines evs) = length items.
Proof.
  induction 1 as [|p items Hp _ IH]; intros st.
  { exists [], []. simpl. rewrite !app_nil_r. by destruct st. }
  destruct (timed_btou64 p Hp) as (u & Hu).
  assert (Hline : omap (λ q, lineText key (DecodeFieldsWithNames codec q.2).1
                               <$> pointTime q) (p :: items)
                  = pointLine key (Str.Join (fieldValues (DecodeFieldsWithNames codec p.2).1) ",")
                      (int64 u)
                    :: omap (λ q, lineText key (DecodeFieldsWithNames codec q.2).1
                                    <$> pointTime q) items).
  { simpl. unfold pointTime at 1. rewrite Hu. reflexivity. }
  rewrite Hline. clear Hline.
  simpl dumpPoints. rewrite Hu.
  unfold bind, emit, Printf, Fprintf, ret. simpl.
  destruct (DecodeFieldsWithNames codec p.2) as [fields err] eqn:Hdec. simpl.
  destruct err as [e|]; simpl.
  - match goal with |- context [dumpPoints id key codec items ?st2] =>
      destruct (IH st2) as (evs & diag & -> & Hr & Hn) end.
    exists (Yield id key p :: PointLine key (Str.Join (fieldValues fields) ",") (int64 u)
            :: evs), (("Failed to decode values: " +:+ e) :: diag).
    split; [|split].
    + cbn [out stdout open_tx log]. rewrite <- !app_assoc. reflexivity.
    + change (reads (Yield id key p
                     :: PointLine key (Str.Join (fieldValues fields) ",") (int64 u) :: evs))
        with ((id, key, p) :: reads evs). by rewrite Hr.
    + change (lines (Yield id key p
                     :: PointLine key (Str.Join (fieldValues fields) ",") (int64 u) :: evs))
        with ((key, Str.Join (fieldValues fields) ",", int64 u) :: lines evs).
      simpl. by rewrite Hn.
  - match goal with |- context [dumpPoints id key codec items ?st2] =>
      destruct (IH st2) as (evs & diag & -> & Hr & Hn) end.
    exists (Yield id key p :: PointLine key (Str.Join (fieldValues fields) ",") (int64 u)
            :: evs), diag.
    split; [|split].
    + cbn [out stdout open_tx log]. rewrite <- !app_assoc. reflexivity.
    + change (reads (Yield id key p
                     :: PointLine key (Str.Join (fieldValues fields) ",") (int64 u) :: evs))
        with ((id, key, p) :: reads evs). by rewrite Hr.
    + change (lines (Yield id key p
                     :: PointLine key (Str.Join (fieldValues fields) ",") (int64 u) :: evs))
        with ((key, Str.Join (fieldValues fields) ",", int64 u) :: lines evs).
      simpl. by rewrite Hn.
Qed.

Lemma dumps_dumpSeries id shard m key :
  (∀ items p, Cursor shard key = Some items → p ∈ items → timed p) →
  dumps (scanLines shard m key) ((λ p, (id, key, p)) <$> scanPoints shard m key)
        (dumpSeries id shard (Some (id, shard)) m key).
Proof.
  intros Ht st. unfold scanLines, scanPoints.
  destruct (dumpSeries id shard (Some (id, shard)) m key st) as [res st'] eqn:Hrun.
  unfold dumpSeries in Hrun. unfold bind at 1 in Hrun. simpl in Hrun.
  destruct (Cursor shard key) as [items|] eqn:Hc.
  2:{ injection Hrun as <- <-. simpl.
      destruct (FieldCodecOf shard (Name m)); simpl; rewrite app_nil_r; repeat split;
        exists []; by rewrite app_nil_r. }
  destruct (FieldCodecOf shard (Name m)) as [codec|].
  2:{ injection Hrun as <- <-. simpl. rewrite app_nil_r. repeat split.
      exists []. by rewrite app_nil_r. }
  destruct (dumpPoints_lines id key codec items) with (st := st)
    as (evs & diag & Heq & Hr & Hn).
  { apply Forall_forall. intros p Hp. by eapply Ht. }
  rewrite Heq in Hrun. injection Hrun as <- <-. simpl.
  split; [done|]. split; [done|].
  exists evs. split; [done|]. split; [done|]. by rewrite length_fmap.
Qed.

Lemma dumps_dumpShard s m id :
  ReadOnlyTx (ShardOf s id) = None →
  (∀ key items p, Cursor (ShardOf s id) key = Some items → p ∈ items → timed p) →
  dumps (sortStrings (SeriesKeys m) ≫= scanLines (ShardOf s id) m)
        (sortStrings (SeriesKeys m)
           ≫= λ key, (λ p, (id, key, p)) <$> scanPoints (ShardOf s id) m key)
        (dumpShard s m (sortStrings (SeriesKeys m)) id).
Proof.
  intros Hro Ht st.
  destruct (dumpShard s m (sortStrings (SeriesKeys m)) id st) as [res st'] eqn:Hrun.
  unfold dumpShard, shard_ReadOnlyTx in Hrun. rewrite Hro in Hrun.
  unfold bind at 1 in Hrun. simpl in Hrun. unfold bind at 1 in Hrun. simpl in Hrun.
  unfold bind at 1 in Hrun.
  match type of Hrun with context [forEach ?body ?l ?st1] =>
    destruct (dumps_forEach (scanLines (ShardOf s id) m)
                (λ key, (λ p, (id, key, p)) <$> scanPoints (ShardOf s id) m key) body l)
      with (st := st1) as (Hv & Ho & evs & Hl & Hr & Hn);
    [intros key _; apply dumps_dumpSeries; intros items p; apply Ht|];
    destruct (forEach body l st1) as [[[]|h] st2] end;
    simpl in *; [|done].
  injection Hrun as <- <-. simpl.
  split; [done|]. split; [exact Ho|].
  exists (TxBegin id true :: evs ++ [TxRollback id]).
  rewrite Hl, <- !app_assoc. split; [done|].
  change (reads (TxBegin id true :: evs ++ [TxRollback id]))
    with (reads (evs ++ [TxRollback id])).
  change (lines (TxBegin id true :: evs ++ [TxRollback id]))
    with (lines (evs ++ [TxRollback id])).
  rewrite reads_app, lines_app. simpl. rewrite !app_nil_r. done.
Qed.

Lemma dumpData_dumps s st :
  store_ok s →
  (dumpData s st).1 = Val None ∧
  out (dumpData s st).2 = out st ++ fullDump s ∧
  ∃ evs, log (dumpData s st).2 = log st ++ evs ∧
         reads evs = fullScan s ∧
         length (lines evs) = length (reads evs).
Proof.
  intros Hok.
  assert (Hloop : dumps (tail (fullDump s)) (fullScan s)
    (forEach
       (λ db,
          Fprintf ("# CONTEXT-DATABASE:" +:+ db +:+ nl) >>
          Fprintf ("# CONTEXT-RETENTION-POLICY:default" +:+ nl) >>
          forEach
            (λ m, forEach (dumpShard s m (sortStrings (SeriesKeys m)))
                          (sortShardIDs (ShardIDs s)))
            (sortMeasurements (Measurements s db)))
       (sortStrings (Databases s)))).
  { unfold fullDump, fullScan, tail.
    apply dumps_forEach. intros db _.
    apply (dumps_bind [_] _ [] _ _ _ (dumps_Fprintf _)).
    apply (dumps_bind [_] _ [] _ _ _ (dumps_Fprintf _)).
    apply dumps_forEach. intros m _. apply dumps_forEach. intros id Hid.
    unfold sortShardIDs in Hid. rewrite merge_sort_Permutation in Hid.
    destruct (Hok id Hid) as [Hro Ht]. by apply dumps_dumpShard. }
  destruct (dumpData s st) as [res st'] eqn:Hrun.
  unfold dumpData in Hrun. cbv zeta in Hrun.
  unfold bind at 1 in Hrun. simpl in Hrun. unfold bind at 1 in Hrun.
  match type of Hrun with context [forEach ?b ?l ?st1] =>
    destruct (Hloop st1) as (Hv & Ho & evs & Hl & Hr & Hn);
    destruct (forEach b l st1) as [[[]|h] st2] end; simpl in *; [|done].
  injection Hrun as <- <-. simpl. split; [done|]. split.
  - rewrite Ho. unfold fullDump. simpl. by rewrite <- app_assoc.
  - exists evs. split; [done|]. split; [done|]. by rewrite Hr.
Qed.

Lemma pointTime_stored items :
  Forall (λ p : item, ∀ u, btou64 p.1 = Some u → u < 2 ^ 63) items →
  omap pointTime items = omap (λ p : item, btou64 p.1) items.
Proof.
  induction 1 as [|p items Hp _ IH]; [done|].
  change (omap pointTime (p :: items))
    with (match pointTime p with Some x => x :: omap pointTime items
          | None => omap pointTime items end).
  change (omap (λ q : item, btou64 q.1) (p :: items))
    with (match btou64 p.1 with Some x => x :: omap (λ q : item, btou64 q.1) items
          | None => omap (λ q : item, btou64 q.1) items end).
  rewrite IH. unfold pointTime. destruct (btou64 p.1) as [u|]; [|done]. simpl.
  unfold int64. specialize (Hp u eq_refl).
  destruct (Z.ltb_spec u (2 ^ 63)); [done|lia].
Qed.

Lemma length_scanLines shard m key :
  (∀ items p, Cursor shard key = Some items → p ∈ items → timed p) →
  length (scanLines shard m key) = length (scanPoints shard m key).
Proof.
  intros Ht. unfold scanLines, scanPoints.
  destruct (Cursor shard key) as [items|]; [|done].
  destruct (FieldCodecOf shard (Name m)) as [codec|]; [|done].
  specialize (Ht items).
  assert (Hall : Forall timed items).
  { apply Forall_forall. intros p Hp. by apply Ht. }
  clear Ht. induction Hall as [|p items Hp _ IH]; [done|].
  destruct (timed_btou64 p Hp) as (u & Hu).
  assert (Hpt : pointTime p = Some (int64 u)) by (unfold pointTime; by rewrite Hu).
  csimpl. rewrite Hpt. csimpl. by rewrite IH.
Qed.

Lemma tstore_ok : store_ok InspectSample.tstore.
Proof.
  intros id _. split; [simpl; by destruct (N.eqb id 1)|].
  intros key items p Hc Hp. unfold timed. simpl in Hc.
  destruct (N.eqb id 1); [|discriminate]. simpl in Hc.
  destruct (String.eqb key "cpu,host=a"); [|destruct (String.eqb key "cpu,host=b")];
    simplify_eq;
    repeat (apply elem_of_cons in Hp as [->|Hp]; [simpl; lia|]);
    by apply elem_of_nil in Hp.
Qed.

(** C4, as the code has it. On a store that hands out its transactions
    and whose cursor keys are timestamps, the dump ends normally. After
    the header it has, for each database and each of its measurements in
    the order of their names, for every shard of the store in ascending
    order and every series key of the measurement in lexical order, one
    scan of the series in the shard: when the shard has a cursor for the
    key and a codec for the measurement, every point of the cursor is
    read, in the order of the cursor, and for each point one line is
    written, with the series key, the comma-joined [name=value] of the
    decoded fields and the timestamp, that is the key of the point as a
    signed integer; without a cursor or without a codec nothing is read
    and nothing written. A scan has as many lines as its cursor has
    points, and its timestamps do not decrease when the stored keys
    ascend and none reaches [2^63]. A series is scanned once for each
    measurement of each database that lists its key. *)
Theorem dump_emits_every_scanned_point (s : Store) (st : State) :
  store_ok s →
  (dumpData s st).1 = Val None ∧
  out (dumpData s st).2 = out st ++ fullDump s ∧
  (∃ evs, log (dumpData s st).2 = log st ++ evs ∧
          reads evs = fullScan s ∧
          length (lines evs) = length (reads evs)) ∧
  (∀ id m key, id ∈ ShardIDs s →
     length (scanLines (ShardOf s id) m key) = length (scanPoints (ShardOf s id) m key)) ∧
  (∀ id key items, id ∈ ShardIDs s → Cursor (ShardOf s id) key = Some items →
     Sorted Z.le (omap (λ p : item, btou64 p.1) items) →
     Forall (λ p : item, ∀ u, btou64 p.1 = Some u → u < 2 ^ 63) items →
     Sorted Z.le (omap pointTime items)).
Proof.
  intros Hok. destruct (dumpData_dumps s st Hok) as (Hv & Ho & Hl).
  split; [exact Hv|]. split; [exact Ho|]. split; [exact Hl|]. split.
  - intros id m key Hid. apply length_scanLines.
    intros items p. by apply (Hok id Hid).
  - intros id key items _ _ Hs Hlow. by rewrite (pointTime_stored items Hlow).
Qed.

(** On the example store: the three points of its two series, and the
    order of the timestamps of the first. *)
Lemma dump_emits_every_scanned_point_witness :
  store_ok InspectSample.tstore ∧
  out (dumpData InspectSample.tstore InspectSample.start).2
  = ["# DML" +:+ nl; "# CONTEXT-DATABASE:db" +:+ nl;
     "# CONTEXT-RETENTION-POLICY:default" +:+ nl;
     "cpu,host=a value=1 1" +:+ nl; "cpu,host=a value=2 2" +:+ nl;
     "cpu,host=b value=1 5" +:+ nl] ∧
  Sorted Z.le (omap pointTime [(InspectSample.time Byte.x01, [Byte.x2a]);
                               (InspectSample.time Byte.x02, [Byte.x2a; Byte.x2b])]).
Proof.
  split; [exact tstore_ok|].
  destruct (dump_emits_every_scanned_point InspectSample.tstore InspectSample.start tstore_ok)
    as (_ & -> & _ & _ & Hord).
  split; [vm_compute; reflexivity|].
  apply (Hord 1%N "cpu,host=a").
  - apply list_elem_of_further, list_elem_of_here.
  - reflexivity.
  - change (Sorted Z.le [1; 2]). repeat constructor; lia.
  - repeat constructor; intros u [= <-]; reflexivity.
Defined.

(** C4, as the claim has it, fails. Two databases list the series
    [cpu,host=a]; shard 1 holds two points of it, with the keys [1] and
    [2^64-1], shard 2 holds one point and has no codec for the
    measurement. The dump has four lines for the two points of shard 1,
    with the timestamps 1, -1, 1, -1, and none for the point of
    shard 2. *)
Lemma dump_repeats_shared_series :
  Cursor (ShardOf InspectSample.tstore_shared 1) "cpu,host=a"
  = Some [(InspectSample.time Byte.x01, [Byte.x2a]); InspectSample.last_point] ∧
  Cursor (ShardOf InspectSample.tstore_shared 2) "cpu,host=a"
  = Some [(InspectSample.time Byte.x03, [Byte.x2a])] ∧
  (dumpData InspectSample.tstore_shared InspectSample.start).1 = Val None ∧
  out (dumpData InspectSample.tstore_shared InspectSample.start).2
  = ["# DML" +:+ nl;
     "# CONTEXT-DATABASE:a" +:+ nl; "# CONTEXT-RETENTION-POLICY:default" +:+ nl;
     "cpu,host=a value=1 1" +:+ nl; "cpu,host=a value=1 -1" +:+ nl;
     "# CONTEXT-DATABASE:b" +:+ nl; "# CONTEXT-RETENTION-POLICY:default" +:+ nl;
     "cpu,host=a value=1 1" +:+ nl; "cpu,host=a value=1 -1" +:+ nl] ∧
  readOf 1 "cpu,host=a" (log (dumpData InspectSample.tstore_shared InspectSample.start).2)
  = [(InspectSample.time Byte.x01, [Byte.x2a]); InspectSample.last_point;
     (InspectSample.time Byte.x01, [Byte.x2a]); InspectSample.last_point] ∧
  readOf 2 "cpu,host=a" (log (dumpData InspectSample.tstore_shared InspectSample.start).2)
  = [] ∧
  omap (λ p : item, btou64 p.1)
       [(InspectSample.time Byte.x01, [Byte.x2a]); InspectSample.last_point]
  = [1; 2 ^ 64 - 1] ∧
  omap pointTime [(InspectSample.time Byte.x01, [Byte.x2a]); InspectSample.last_point]
  = [1; -1] ∧
  ¬ once_per_point InspectSample.tstore_shared
      (log (dumpData InspectSample.tstore_shared InspectSample.start).2).
Proof.
  split; [reflexivity|]. split; [reflexivity|]. split; [by vm_compute|].
  split; [by vm_compute|]. split; [by vm_compute|]. split; [by vm_compute|].
  split; [by vm_compute|]. split; [by vm_compute|].
  intros Hclaim.
  destruct (Hclaim 1%N "cpu,host=a" _ ltac:(by left) eq_refl) as [Heq _].
  vm_compute in Heq. discriminate.
Qed.

(** ** Transactions *)

Lemma tx_ok_quiet cur evs rest :
  Forall (λ e, no_tx e = true) evs → tx_ok cur (evs ++ rest) = tx_ok cur rest.
Proof.
  induction 1 as [|e evs He _ IH]; [done|]. simpl. by destruct e.
Qed.

Lemma tx_ok_app cur evs rest :
  tx_ok cur evs = true → tx_ok cur (evs ++ rest) = tx_ok None rest.
Proof.
  revert cur. induction evs as [|e evs IH]; intros cur Hok; simpl in *.
  - by destruct cur.
  - destruct e as [id ro|id|id|id k p|k f ts]; try by apply IH.
    + destruct cur; [done|]. apply andb_true_iff in Hok as [-> Hok]. simpl. by apply IH.
    + destruct cur as [id'|]; [|done]. apply andb_true_iff in Hok as [-> Hok]. simpl.
      by apply IH.
    + done.
Qed.

Lemma no_tx_read_only e : no_tx e = true → read_only e = true.
Proof. by destruct e. Qed.

Section Quiet.

Lemma quiet_ret {A} (a : A) : quiet (ret a : M A).
Proof. intros st. exists []. by rewrite app_nil_r. Qed.

Lemma quiet_panic {A} : quiet (panic : M A).
Proof. intros st. exists []. by rewrite app_nil_r. Qed.

Lemma quiet_Printf s : quiet (Printf s).
Proof. intros st. exists []. by rewrite app_nil_r. Qed.

Lemma quiet_Fprintf s : quiet (Fprintf s).
Proof. intros st. exists []. by rewrite app_nil_r. Qed.

Lemma quiet_emit e : no_tx e = true → quiet (emit e).
Proof. intros He st. exists [e]. split; [done|]. split; [by constructor|done]. Qed.

Lemma quiet_bind {A B} (f : M A) (k : A → M B) :
  quiet f → (∀ a, quiet (k a)) → quiet (bind f k).
Proof.
  intros Hf Hk st. unfold bind. destruct (Hf st) as (evs & Hl & Hall & Ho).
  destruct (f st) as [[a|h] st1]; simpl in *.
  - destruct (Hk a st1) as (evs' & Hl' & Hall' & Ho').
    exists (evs ++ evs'). rewrite Hl', Hl, Ho', Ho, app_assoc. split; [done|].
    split; [by apply Forall_app|done].
  - by exists evs.
Qed.

Lemma quiet_forEach {A} (body : A → M unit) l :
  (∀ x, quiet (body x)) → quiet (forEach body l).
Proof.
  intros Hb. induction l as [|x l IH]; simpl; [apply quiet_ret|].
  apply quiet_bind; [apply Hb|]. intros _. exact IH.
Qed.

End Quiet.

Lemma quiet_tx_Cursor tx key : quiet (tx_Cursor tx key).
Proof. destruct tx as [[??]|]; [apply quiet_ret|apply quiet_panic]. Qed.

Lemma quiet_sampleKeys id shard tx db m series :
  quiet (sampleKeys id shard tx db m series).
Proof.
  induction series as [|key rest IH]; simpl; [apply quiet_ret|].
  apply quiet_bind; [apply quiet_tx_Cursor|]. intros [items|]; [|exact IH].
  apply quiet_bind.
  { destruct items as [|p ?]; simpl; [apply quiet_ret|].
    apply quiet_bind; [by apply quiet_emit|]. intros _. apply quiet_ret. }
  intros value. apply quiet_bind; [|intros; apply quiet_Fprintf].
  destruct (FieldCodecOf shard (Name m)) as [codec|]; [|apply quiet_ret].
  apply quiet_bind; [|intros; apply quiet_ret].
  destruct (DecodeFieldsWithNames codec value).2; [apply quiet_Printf|apply quiet_ret].
Qed.

Lemma quiet_dumpPoints id key codec items : quiet (dumpPoints id key codec items).
Proof.
  induction items as [|p rest IH]; simpl; [apply quiet_ret|].
  apply quiet_bind; [by apply quiet_emit|]. intros _.
  apply quiet_bind.
  { destruct (DecodeFieldsWithNames codec p.2).2; [apply quiet_Printf|apply quiet_ret]. }
  intros _. destruct (btou64 p.1); [|apply quiet_panic].
  apply quiet_bind; [by apply quiet_emit|]. intros _.
  apply quiet_bind; [apply quiet_Fprintf|]. intros _. exact IH.
Qed.

Lemma quiet_dumpSeries id shard tx m key : quiet (dumpSeries id shard tx m key).
Proof.
  unfold dumpSeries. apply quiet_bind; [apply quiet_tx_Cursor|].
  intros [items|]; [|apply quiet_ret].
  destruct (FieldCodecOf shard (Name m)); [apply quiet_dumpPoints|apply quiet_ret].
Qed.

Lemma tx_safe_of_quiet {A} (f : M A) : quiet f → tx_safe f.
Proof.
  intros Hf st. destruct (Hf st) as (evs & Hl & Hall & Ho). exists evs.
  split; [done|]. split.
  - eapply Forall_impl; [exact Hall|]. apply no_tx_read_only.
  - intros a _. split; [|done].
    rewrite <- (app_nil_r evs). by rewrite tx_ok_quiet.
Qed.

Lemma tx_safe_bind {A B} (f : M A) (k : A → M B) :
  tx_safe f → (∀ a, tx_safe (k a)) → tx_safe (bind f k).
Proof.
  intros Hf Hk st. unfold bind. destruct (Hf st) as (evs & Hl & Hall & Hok).
  destruct (f st) as [[a|h] st1]; simpl in *.
  - destruct (Hk a st1) as (evs' & Hl' & Hall' & Hok').
    exists (evs ++ evs'). rewrite Hl', Hl, app_assoc. split; [done|].
    split; [by apply Forall_app|]. intros b Hb.
    destruct (Hok a eq_refl) as [Ht Ho]. destruct (Hok' b Hb) as [Ht' Ho'].
    split; [|congruence]. by rewrite (tx_ok_app None evs evs' Ht).
  - exists evs. split; [done|]. split; [done|]. intros a [=].
Qed.

Lemma tx_safe_forEach {A} (body : A → M unit) l :
  (∀ x, tx_safe (body x)) → tx_safe (forEach body l).
Proof.
  intros Hb. induction l as [|x l IH]; simpl.
  - apply tx_safe_of_quiet, quiet_ret.
  - apply tx_safe_bind; [apply Hb|]. intros _. exact IH.
Qed.

(** A scan of a shard: a read-only transaction, the scan, the rollback. *)
Lemma tx_safe_scan id shard (scan : Tx → M unit) :
  (∀ tx, quiet (scan tx)) →
  tx_safe (r <~ shard_ReadOnlyTx id shard;;
           match r.2 with
           | Some err => Printf ("Failed to get transaction: " +:+ err)
           | None => ret tt
           end >>
           scan r.1 >>
           tx_Rollback r.1).
Proof.
  intros Hscan st.
  match goal with |- context [log (?F st).2] => destruct (F st) as [res st'] eqn:Hrun end.
  simpl. unfold shard_ReadOnlyTx in Hrun. destruct (ReadOnlyTx shard) as [err|].
  - (* no transaction: the nil one panics when it is used *)
    unfold bind at 1 in Hrun. simpl in Hrun.
    unfold bind at 1 in Hrun. unfold Printf at 1 in Hrun. simpl in Hrun.
    unfold bind at 1 in Hrun.
    match type of Hrun with context [scan None ?st1] =>
      destruct (Hscan None st1) as (evs & Hl & Hall & Ho);
      destruct (scan None st1) as [[[]|h] st2] end;
      simpl in *; injection Hrun as <- <-.
    + exists evs. split; [done|]. split; [|intros a [=]].
      eapply Forall_impl; [exact Hall|]. apply no_tx_read_only.
    + exists evs. split; [done|]. split; [|intros a [=]].
      eapply Forall_impl; [exact Hall|]. apply no_tx_read_only.
  - unfold bind at 1 in Hrun. simpl in Hrun.
    unfold bind at 1 in Hrun. simpl in Hrun.
    unfold bind at 1 in Hrun.
    match type of Hrun with context [scan (Some (id, shard)) ?st1] =>
      destruct (Hscan (Some (id, shard)) st1) as (evs & Hl & Hall & Ho);
      destruct (scan (Some (id, shard)) st1) as [[[]|h] st2] end;
      simpl in *; injection Hrun as <- <-.
    + exists (TxBegin id true :: evs ++ [TxRollback id]). simpl.
      rewrite Hl, Ho, <- !app_assoc. simpl. split; [done|]. split.
      * constructor; [done|]. apply Forall_app. split; [|by repeat constructor].
        eapply Forall_impl; [exact Hall|]. apply no_tx_read_only.
      * intros _ _. rewrite tx_ok_quiet by done. simpl. by rewrite !N.eqb_refl.
    + exists (TxBegin id true :: evs). rewrite Hl, <- app_assoc. split; [done|].
      split; [|intros a [=]]. constructor; [done|].
      eapply Forall_impl; [exact Hall|]. apply no_tx_read_only.
Qed.

Lemma tx_safe_summary s : tx_safe (summary s).
Proof.
  unfold summary. apply tx_safe_forEach. intros db.
  apply tx_safe_forEach. intros m. apply tx_safe_forEach. intros id.
  apply (tx_safe_scan id (ShardOf s id)
           (λ tx, sampleKeys id (ShardOf s id) tx db m (sortStrings (SeriesKeys m)))).
  intros tx. apply quiet_sampleKeys.
Qed.

Lemma tx_safe_dumpData s : tx_safe (dumpData s).
Proof.
  unfold dumpData. apply tx_safe_bind; [apply tx_safe_of_quiet, quiet_Fprintf|]. intros _.
  apply tx_safe_bind; [|intros; apply tx_safe_of_quiet, quiet_ret].
  apply tx_safe_forEach. intros db.
  apply tx_safe_bind; [apply tx_safe_of_quiet, quiet_Fprintf|]. intros _.
  apply tx_safe_bind; [apply tx_safe_of_quiet, quiet_Fprintf|]. intros _.
  apply tx_safe_forEach. intros m. apply tx_safe_forEach. intros id.
  apply (tx_safe_scan id (ShardOf s id)
           (λ tx, forEach (dumpSeries id (ShardOf s id) tx m) (sortStrings (SeriesKeys m)))).
  intros tx. apply quiet_forEach. intros key. apply quiet_dumpSeries.
Qed.

(** ** Runs that end normally *)

Lemma total_ret {A} (a : A) : total (ret a : M A).
Proof. intros st. by exists a. Qed.

Lemma total_bind {A B} (f : M A) (k : A → M B) :
  total f → (∀ a, total (k a)) → total (bind f k).
Proof.
  intros Hf Hk st. unfold bind. destruct (Hf st) as (a & Ha).
  destruct (f st) as [[a'|h] st1]; simpl in *; [|done]. apply Hk.
Qed.

Lemma total_forEach {A} (body : A → M unit) l :
  (∀ x, x ∈ l → total (body x)) → total (forEach body l).
Proof.
  induction l as [|x l IH]; intros Hb; simpl; [apply total_ret|].
  apply total_bind; [apply Hb; by left|]. intros _. apply IH.
  intros y Hy. apply Hb. by right.
Qed.

Lemma total_Printf s : total (Printf s).
Proof. intros st. by exists tt. Qed.

Lemma total_Fprintf s : total (Fprintf s).
Proof. intros st. by exists tt. Qed.

Lemma total_emit e : total (emit e).
Proof. intros st. by exists tt. Qed.

Lemma total_dumpPoints id key codec items :
  Forall timed items → total (dumpPoints id key codec items).
Proof.
  intros Ht st. destruct (dumpPoints_run id key codec items Ht st) as (evs & diag & -> & _).
  by exists tt.
Qed.

Lemma total_dumpSeries id shard m key :
  (∀ items p, Cursor shard key = Some items → p ∈ items → timed p) →
  total (dumpSeries id shard (Some (id, shard)) m key).
Proof.
  intros Ht st. unfold dumpSeries, bind. simpl.
  destruct (Cursor shard key) as [items|] eqn:Hcur; [|by exists tt].
  destruct (FieldCodecOf shard (Name m)) as [codec|]; [|by exists tt].
  apply total_dumpPoints. apply Forall_forall. intros p Hp. by eapply Ht.
Qed.

Lemma total_scan id shard (scan : Tx → M unit) :
  ReadOnlyTx shard = None →
  total (scan (Some (id, shard))) →
  total (r <~ shard_ReadOnlyTx id shard;;
         match r.2 with
         | Some err => Printf ("Failed to get transaction: " +:+ err)
         | None => ret tt
         end >>
         scan r.1 >>
         tx_Rollback r.1).
Proof.
  intros Hro Hscan st. unfold shard_ReadOnlyTx. rewrite Hro.
  unfold bind at 1. simpl. unfold bind at 1. simpl. unfold bind at 1.
  match goal with |- context [scan (Some (id, shard)) ?st1] =>
    destruct (Hscan st1) as ([] & Hv);
    destruct (scan (Some (id, shard)) st1) as [[[]|h] st2] end;
    simpl in Hv; [|done].
  by exists tt.
Qed.

Lemma total_dumpData s : store_ok s → total (dumpData s).
Proof.
  intros Hok. unfold dumpData.
  apply total_bind; [apply total_Fprintf|]. intros _.
  apply total_bind; [|intros; apply total_ret].
  apply total_forEach. intros db _.
  apply total_bind; [apply total_Fprintf|]. intros _.
  apply total_bind; [apply total_Fprintf|]. intros _.
  apply total_forEach. intros m _. apply total_forEach. intros id Hid.
  unfold sortShardIDs in Hid. rewrite merge_sort_Permutation in Hid.
  destruct (Hok id Hid) as [Hro Ht].
  apply (total_scan id (ShardOf s id)
           (λ tx, forEach (dumpSeries id (ShardOf s id) tx m) (sortStrings (SeriesKeys m))));
    [done|].
  apply total_forEach. intros key _. apply total_dumpSeries. intros items p. apply Ht.
Qed.

(** ** The rows of the summary *)

Lemma yields_app evs evs' : yields (evs ++ evs') = yields evs ++ yields evs'.
Proof. unfold yields. apply omap_app. Qed.

Lemma writes_ret : writes [] (ret tt).
Proof.
  intros st. simpl. rewrite app_nil_r. repeat split. exists []. by rewrite app_nil_r.
Qed.

Lemma writes_bind rows rows' (f g : M unit) :
  writes rows f → writes rows' g → writes (rows ++ rows') (f >> g).
Proof.
  intros Hf Hg st. unfold bind. destruct (Hf st) as (Hv & Ho & evs & Hl & Hy).
  destruct (f st) as [[[]|h] st1]; simpl in *; [|done].
  destruct (Hg st1) as (Hv' & Ho' & evs' & Hl' & Hy').
  split; [done|]. split; [by rewrite Ho', Ho, app_assoc|].
  exists (evs ++ evs'). rewrite Hl', Hl, app_assoc. split; [done|].
  rewrite yields_app, !length_app. lia.
Qed.

Lemma writes_forEach {A} (rows : A → list string) (body : A → M unit) l :
  (∀ x, x ∈ l → writes (rows x) (body x)) →
  writes (l ≫= rows) (forEach body l).
Proof.
  induction l as [|x l IH]; intros Hb; simpl; [apply writes_ret|].
  apply writes_bind; [apply Hb; by left|]. apply IH. intros y Hy. apply Hb. by right.
Qed.

Lemma writes_sampleKeys id shard db m series :
  writes match omap (Cursor shard) series with
         | [] => []
         | items :: _ => [summaryRow id db m (inferred shard m (firstValue items))]
         end
         (sampleKeys id shard (Some (id, shard)) db m series).
Proof.
  induction series as [|key rest IH]; simpl; [apply writes_ret|].
  intros st. unfold bind, tx_Cursor, ret. simpl.
  destruct (Cursor shard key) as [items|] eqn:Hc; simpl; [|apply IH].
  unfold inferred, seekFirst, bind, emit, ret, Printf, Fprintf.
  destruct items as [|p items]; simpl.
  - destruct (FieldCodecOf shard (Name m)) as [codec|]; simpl.
    + destruct (DecodeFieldsWithNames codec []) as [fields [err|]]; simpl;
        (split; [done|]; split; [done|]; exists []; rewrite app_nil_r; split; [done|];
         simpl; lia).
    + split; [done|]. split; [done|]. exists []. rewrite app_nil_r. split; [done|].
      simpl; lia.
  - destruct (FieldCodecOf shard (Name m)) as [codec|]; simpl.
    + destruct (DecodeFieldsWithNames codec p.2) as [fields [err|]]; simpl;
        (split; [done|]; split; [done|]; eexists [_]; split; [done|]; simpl; lia).
    + split; [done|]. split; [done|]. eexists [_]. split; [done|]. simpl; lia.
Qed.

Lemma writes_sampleShard s db m id :
  ReadOnlyTx (ShardOf s id) = None →
  writes (shardRow s db m id) (sampleShard s db m (sortStrings (SeriesKeys m)) id).
Proof.
  intros Hro st.
  destruct (sampleShard s db m (sortStrings (SeriesKeys m)) id st) as [res st'] eqn:Hrun.
  unfold sampleShard, shard_ReadOnlyTx in Hrun. rewrite Hro in Hrun.
  unfold bind at 1 in Hrun. simpl in Hrun. unfold bind at 1 in Hrun. simpl in Hrun.
  unfold bind at 1 in Hrun.
  match type of Hrun with context [sampleKeys id ?sh ?tx db m ?ser ?st1] =>
    destruct (writes_sampleKeys id sh db m ser st1) as (Hv & Ho & evs & Hl & Hy);
    destruct (sampleKeys id sh tx db m ser st1) as [[[]|h] st2] end;
    simpl in *; [|done].
  injection Hrun as <- <-. simpl.
  split; [done|]. split; [exact Ho|].
  exists (TxBegin id true :: evs ++ [TxRollback id]).
  rewrite Hl, <- !app_assoc. split; [done|].
  change (yields (TxBegin id true :: evs ++ [TxRollback id]))
    with (yields (evs ++ [TxRollback id])).
  rewrite yields_app. simpl. rewrite app_nil_r. exact Hy.
Qed.

Lemma writes_summary s :
  (∀ id, id ∈ ShardIDs s → ReadOnlyTx (ShardOf s id) = None) →
  writes (summaryRows s) (summary s).
Proof.
  intros Hro. unfold summary, summaryRows.
  apply writes_forEach. intros db _. apply writes_forEach. intros m _.
  apply writes_forEach. intros id Hid. apply writes_sampleShard, Hro.
  unfold sortShardIDs in Hid. by rewrite merge_sort_Permutation in Hid.
Qed.

(** ** The lines of the dump *)

Lemma omap_of_fmap_Some {A B} (f : A → option B) (l : list A) (l' : list B) :
  Some <$> l' = f <$> l → omap f l = l'.
Proof.
  revert l'. induction l as [|x l IH]; intros [|y l'] Heq; try done.
  rewrite !fmap_cons in Heq. injection Heq as Hx Heq. simpl. rewrite <- Hx.
  f_equal. by apply IH.
Qed.

Lemma writes_Fprintf s : writes [s] (Fprintf s).
Proof.
  intros st. split; [done|]. split; [done|]. exists []. rewrite app_nil_r.
  split; [done|]. simpl. lia.
Qed.

Lemma writes_dumpSeries id shard m key :
  (∀ items p, Cursor shard key = Some items → p ∈ items → timed p) →
  writes (seriesLines shard m key) (dumpSeries id shard (Some (id, shard)) m key).
Proof.
  intros Ht st. unfold seriesLines.
  destruct (dumpSeries id shard (Some (id, shard)) m key st) as [res st'] eqn:Hrun.
  unfold dumpSeries in Hrun. unfold bind at 1 in Hrun. simpl in Hrun.
  destruct (Cursor shard key) as [items|] eqn:Hc.
  2:{ injection Hrun as <- <-. simpl. rewrite app_nil_r. repeat split.
      exists []. by rewrite app_nil_r. }
  destruct (FieldCodecOf shard (Name m)) as [codec|].
  2:{ injection Hrun as <- <-. simpl. rewrite app_nil_r. repeat split.
      exists []. by rewrite app_nil_r. }
  destruct (dumpPoints_run id key codec items) with (st := st)
    as (evs & diag & Heq & Hy & Hl).
  { apply Forall_forall. intros p Hp. by eapply Ht. }
  rewrite Heq in Hrun. injection Hrun as <- <-. simpl.
  rewrite (omap_of_fmap_Some _ _ _ Hl). split; [done|]. split; [done|].
  exists evs. split; [done|]. rewrite Hy, length_fmap.
  apply (f_equal length) in Hl. rewrite !length_fmap in Hl. lia.
Qed.

Lemma writes_dumpShard s m id :
  ReadOnlyTx (ShardOf s id) = None →
  (∀ key items p, Cursor (ShardOf s id) key = Some items → p ∈ items → timed p) →
  writes (sortStrings (SeriesKeys m) ≫= seriesLines (ShardOf s id) m)
         (dumpShard s m (sortStrings (SeriesKeys m)) id).
Proof.
  intros Hro Ht st.
  destruct (dumpShard s m (sortStrings (SeriesKeys m)) id st) as [res st'] eqn:Hrun.
  unfold dumpShard, shard_ReadOnlyTx in Hrun. rewrite Hro in Hrun.
  unfold bind at 1 in Hrun. simpl in Hrun. unfold bind at 1 in Hrun. simpl in Hrun.
  unfold bind at 1 in Hrun.
  match type of Hrun with context [forEach ?body ?l ?st1] =>
    destruct (writes_forEach (seriesLines (ShardOf s id) m) body l) with (st := st1)
      as (Hv & Ho & evs & Hl & Hy);
    [intros key _; apply writes_dumpSeries; intros items p; apply Ht|];
    destruct (forEach body l st1) as [[[]|h] st2] end;
    simpl in *; [|done].
  injection Hrun as <- <-. simpl.
  split; [done|]. split; [exact Ho|].
  exists (TxBegin id true :: evs ++ [TxRollback id]).
  rewrite Hl, <- !app_assoc. split; [done|].
  change (yields (TxBegin id true :: evs ++ [TxRollback id]))
    with (yields (evs ++ [TxRollback id])).
  rewrite yields_app. simpl. rewrite app_nil_r. exact Hy.
Qed.

(** On a store that hands out its transactions and whose cursor keys
    are timestamps, the dump is the lines of every series of every
    measurement in every shard, in the order of the traversal. *)
Lemma dumpData_writes s st :
  store_ok s →
  (dumpData s st).1 = Val None ∧ out (dumpData s st).2 = out st ++ dumpRows s.
Proof.
  intros Hok.
  assert (Hloop : writes (tail (dumpRows s))
    (forEach
       (λ db,
          Fprintf ("# CONTEXT-DATABASE:" +:+ db +:+ nl) >>
          Fprintf ("# CONTEXT-RETENTION-POLICY:default" +:+ nl) >>
          forEach
            (λ m, forEach (dumpShard s m (sortStrings (SeriesKeys m)))
                          (sortShardIDs (ShardIDs s)))
            (sortMeasurements (Measurements s db)))
       (sortStrings (Databases s)))).
  { unfold dumpRows, tail.
    apply writes_forEach. intros db _.
    apply (writes_bind [_] _ _ _ (writes_Fprintf _)).
    apply (writes_bind [_] _ _ _ (writes_Fprintf _)).
    apply writes_forEach. intros m _. apply writes_forEach. intros id Hid.
    unfold sortShardIDs in Hid. rewrite merge_sort_Permutation in Hid.
    destruct (Hok id Hid) as [Hro Ht]. by apply writes_dumpShard. }
  destruct (dumpData s st) as [res st'] eqn:Hrun.
  unfold dumpData in Hrun. cbv zeta in Hrun.
  unfold bind at 1 in Hrun. simpl in Hrun. unfold bind at 1 in Hrun.
  match type of Hrun with context [forEach ?b ?l ?st1] =>
    destruct (Hloop st1) as (Hv & Ho & _);
    destruct (forEach b l st1) as [[[]|h] st2] end; simpl in *; [|done].
  injection Hrun as <- <-. simpl. split; [done|].
  rewrite Ho. unfold dumpRows. simpl. by rewrite <- app_assoc.
Qed.

Lemma dumpData_value s st a : (dumpData s st).1 = Val a → a = None.
Proof.
  unfold dumpData. unfold bind at 1. simpl. unfold bind at 1.
  match goal with |- context [forEach ?b ?l ?st1] =>
    destruct (forEach b l st1) as [[[]|h] st2] end; simpl; [|done].
  by intros [= <-].
Qed.




(** C6. In the summary and in the dump every transaction is begun
    read-only and none is committed; in a run that ends normally the
    transactions come one at a time, each rolled back after its scan,
    and none is left open. On a store that hands out its transactions
    and whose cursor keys are timestamps both runs end normally. *)
Theorem inspection_only_reads (s : Store) (st : State) :
  (∃ evs, log (summary s st).2 = log st ++ evs ∧
          Forall (λ e, read_only e = true) evs ∧
          (∀ a, (summary s st).1 = Val a →
                tx_ok None evs = true ∧ open_tx (summary s st).2 = open_tx st)) ∧
  (∃ evs, log (dumpData s st).2 = log st ++ evs ∧
          Forall (λ e, read_only e = true) evs ∧
          (∀ a, (dumpData s st).1 = Val a →
                tx_ok None evs = true ∧ open_tx (dumpData s st).2 = open_tx st)) ∧
  (store_ok s → (summary s st).1 = Val tt ∧ (dumpData s st).1 = Val None).
Proof.
  split; [apply tx_safe_summary|]. split; [apply tx_safe_dumpData|].
  intros Hok. split.
  - apply writes_summary. intros id Hid. by destruct (Hok id Hid).
  - destruct (total_dumpData s Hok st) as (a & Ha). rewrite Ha.
    by rewrite (dumpData_value s st a Ha).
Qed.

(** On the example store. *)
Lemma inspection_only_reads_witness :
  store_ok InspectSample.tstore ∧
  (summary InspectSample.tstore InspectSample.start).1 = Val tt ∧
  (dumpData InspectSample.tstore InspectSample.start).1 = Val None.
Proof.
  assert (Hok : store_ok InspectSample.tstore).
  { intros id _. split; [simpl; by destruct (N.eqb id 1)|].
    intros key items p Hc Hp. unfold timed. simpl in Hc.
    destruct (N.eqb id 1); [|discriminate]. simpl in Hc.
    destruct (String.eqb key "cpu,host=a"); [|destruct (String.eqb key "cpu,host=b")];
      simplify_eq;
      repeat (apply elem_of_cons in Hp as [->|Hp]; [simpl; lia|]);
      by apply elem_of_nil in Hp. }
  split; [exact Hok|].
  destruct (inspection_only_reads InspectSample.tstore InspectSample.start)
    as (_ & _ & Hrun).
  exact (Hrun Hok).
Defined.

(** ** Timestamps as bytes *)

Lemma byte_Z_range b : 0 ≤ byte_Z b < 256.
Proof.
  unfold byte_Z. pose proof (Byte.to_N_bounded b). lia.
Qed.

Lemma byte_Z_of_Z z : byte_Z (byte_of_Z z) = z mod 256.
Proof.
  unfold byte_Z, byte_of_Z.
  assert (Hz : 0 ≤ z mod 256 < 256) by (apply Z.mod_pos_bound; lia).
  destruct (Byte.of_N (Z.to_N (z mod 256))) as [b|] eqn:Hb.
  - apply Byte.to_of_N in Hb. simpl. rewrite Hb. lia.
  - apply Byte.of_N_None_iff in Hb. lia.
Qed.

Lemma byte_of_Z_byte_Z b : byte_of_Z (byte_Z b) = b.
Proof.
  unfold byte_of_Z. rewrite Z.mod_small by apply byte_Z_range.
  unfold byte_Z. rewrite N2Z.id, Byte.of_to_N. reflexivity.
Qed.

Lemma byte_of_Z_mod z b : z mod 256 = byte_Z b → byte_of_Z z = b.
Proof.
  intros Hz. rewrite <- (byte_of_Z_byte_Z b). unfold byte_of_Z at 1 2. rewrite Hz.
  by rewrite (Z.mod_small (byte_Z b)) by apply byte_Z_range.
Qed.


Lemma byte_Z_bits_high b n : 8 ≤ n → Z.testbit (byte_Z b) n = false.
Proof.
  intros Hn. rewrite <- (Z.mod_small (byte_Z b) (2 ^ 8)) by apply byte_Z_range.
  apply Z.mod_pow2_bits_high. lia.
Qed.

Lemma byte_shift_bits b k n :
  0 ≤ n →
  Z.testbit (Z.shiftl (byte_Z b) k) n
  = (k <=? n) && (n <? k + 8) && Z.testbit (byte_Z b) (n - k).
Proof.
  intros Hn. rewrite Z.shiftl_spec by done.
  destruct (Z.leb_spec k n); simpl; [|by apply Z.testbit_neg_r; lia].
  destruct (Z.ltb_spec n (k + 8)); simpl; [done|]. apply byte_Z_bits_high. lia.
Qed.

(** The bits of a big-endian word: bit [n] is bit [n mod 8] of the byte
    at place [7 - n / 8]. *)
Lemma btou64_bits b0 b1 b2 b3 b4 b5 b6 b7 rest x n :
  btou64 (b0 :: b1 :: b2 :: b3 :: b4 :: b5 :: b6 :: b7 :: rest) = Some x →
  0 ≤ n →
  Z.testbit x n =
    if n <? 8 then Z.testbit (byte_Z b7) n
    else if n <? 16 then Z.testbit (byte_Z b6) (n - 8)
    else if n <? 24 then Z.testbit (byte_Z b5) (n - 16)
    else if n <? 32 then Z.testbit (byte_Z b4) (n - 24)
    else if n <? 40 then Z.testbit (byte_Z b3) (n - 32)
    else if n <? 48 then Z.testbit (byte_Z b2) (n - 40)
    else if n <? 56 then Z.testbit (byte_Z b1) (n - 48)
    else if n <? 64 then Z.testbit (byte_Z b0) (n - 56)
    else false.
Proof.
  intros [= <-] Hn. rewrite !Z.lor_spec, !byte_shift_bits by done.
  repeat match goal with
         | |- context [?a <? ?b] => destruct (Z.ltb_spec a b); try (exfalso; lia)
         | |- context [?a <=? ?b] => destruct (Z.leb_spec a b); try (exfalso; lia)
         end; simpl; rewrite ?(byte_Z_bits_high b7 n) by lia;
    rewrite ?orb_false_r, ?Z.sub_0_r; reflexivity.
Qed.

Lemma btou64_range b x : btou64 b = Some x → 0 ≤ x < 2 ^ 64.
Proof.
  intros Hx.
  destruct b as [|b0 [|b1 [|b2 [|b3 [|b4 [|b5 [|b6 [|b7 rest]]]]]]]]; try done.
  assert (Hnn : 0 ≤ x).
  { apply Z.bits_iff_nonneg_ex. exists 64. intros n Hn.
    rewrite (btou64_bits _ _ _ _ _ _ _ _ _ _ _ Hx) by lia.
    repeat match goal with
           | |- context [?a <? ?b] => destruct (Z.ltb_spec a b); try (exfalso; lia)
           end; done. }
  split; [done|].
  destruct (Z.eq_dec x 0) as [->|Hne]; [done|].
  apply Z.log2_lt_pow2; [lia|].
  destruct (Z.lt_ge_cases (Z.log2 x) 64) as [|Hge]; [done|exfalso].
  pose proof (Z.bit_log2 x ltac:(lia)) as Hbit.
  rewrite (btou64_bits _ _ _ _ _ _ _ _ _ _ _ Hx) in Hbit by lia.
  repeat match type of Hbit with
         | context [?a <? ?b] => destruct (Z.ltb_spec a b); try (exfalso; lia)
         end; done.
Qed.

Lemma shift_byte_bits x k b :
  0 ≤ k →
  (∀ n, 0 ≤ n < 8 → Z.testbit x (n + k) = Z.testbit (byte_Z b) n) →
  byte_of_Z (Z.shiftr x k) = b.
Proof.
  intros Hk Hbits. apply byte_of_Z_mod. apply Z.bits_inj'. intros n Hn.
  change 256 with (2 ^ 8). rewrite Z.testbit_mod_pow2 by lia.
  destruct (Z.ltb_spec n 8); simpl.
  - rewrite Z.shiftr_spec by done. apply Hbits. lia.
  - symmetry. by apply byte_Z_bits_high.
Qed.

(** X11. [u64tob] and [btou64] are inverse: the eight bytes of a
    [uint64] decode to it, and the word decoded from a slice encodes to
    the first eight bytes of the slice. *)
Theorem u64tob_btou64 (v : Z) (b : list Byte.byte) (x : Z) :
  (0 ≤ v < 2 ^ 64 → btou64 (u64tob v) = Some v) ∧
  length (u64tob v) = 8%nat ∧
  (btou64 b = Some x → u64tob x = take 8 b).
Proof.
  split; [|split; [done|]].
  - intros Hv.
    destruct (btou64 (u64tob v)) as [x'|] eqn:Hx; [|done]. f_equal.
    apply Z.bits_inj'. intros n Hn.
    unfold u64tob in Hx.
    rewrite (btou64_bits _ _ _ _ _ _ _ _ _ _ _ Hx) by done.
    rewrite !byte_Z_of_Z. change 256 with (2 ^ 8).
    rewrite !Z.testbit_mod_pow2 by lia.
    repeat match goal with
           | |- context [?a <? ?b] => destruct (Z.ltb_spec a b); try (exfalso; lia)
           end; simpl; rewrite ?Z.shiftr_spec by lia; try (f_equal; lia).
    symmetry. destruct (Z.eq_dec v 0) as [->|Hne]; [apply Z.bits_0|].
    apply Z.bits_above_log2; [lia|].
    assert (Z.log2 v < 64) by (apply Z.log2_lt_pow2; lia). lia.
  - intros Hx.
    destruct b as [|b0 [|b1 [|b2 [|b3 [|b4 [|b5 [|b6 [|b7 rest]]]]]]]]; try done.
    pose proof (λ n, btou64_bits _ _ _ _ _ _ _ _ _ _ n Hx) as Hb. clear Hx.
    unfold u64tob. simpl take. rewrite take_0.
    rewrite <- (Z.shiftr_0_r x) at 8.
    repeat f_equal; apply shift_byte_bits; try lia; intros n Hn;
      rewrite (Hb _) by lia;
      repeat match goal with
             | |- context [?a <? ?b] => destruct (Z.ltb_spec a b); try (exfalso; lia)
             end; f_equal; lia.
Qed.

Lemma top_bit a n : 0 ≤ n → 0 ≤ a < 2 ^ (n + 1) → (Z.testbit a n = true ↔ 2 ^ n ≤ a).
Proof.
  intros Hn Ha. rewrite Z.testbit_true by done.
  rewrite Z.pow_add_r, Z.pow_1_r in Ha by lia.
  assert (Hp : 0 < 2 ^ n) by (apply Z.pow_pos_nonneg; lia).
  pose proof (Z.div_mod a (2 ^ n) ltac:(lia)) as Hdm.
  pose proof (Z.mod_pos_bound a (2 ^ n) Hp) as Hr.
  assert (Hq : a / 2 ^ n = 0 ∨ a / 2 ^ n = 1) by nia.
  destruct Hq as [Hq|Hq]; rewrite Hq in *; split; intros H; try done; nia.
Qed.

(** X12. The timestamp of a line of the dump, [int64(btou64(ts))], is
    the key read as a signed big-endian word: it lies in
    [-2^63, 2^63), is the decoded word modulo [2^64], and is negative
    exactly when the first byte of the key is [0x80] or more. *)
Theorem timestamp_is_signed (p : item) (ts : Z) :
  pointTime p = Some ts →
  - 2 ^ 63 ≤ ts < 2 ^ 63 ∧
  btou64 p.1 = Some (ts mod 2 ^ 64) ∧
  (ts < 0 ↔ ∃ b0 rest, p.1 = b0 :: rest ∧ 128 ≤ byte_Z b0).
Proof.
  unfold pointTime. destruct (btou64 p.1) as [u|] eqn:Hu; [|done]. intros [= <-].
  pose proof (btou64_range _ _ Hu) as Hr.
  assert (Hneg : int64 u < 0 ↔ 2 ^ 63 ≤ u).
  { unfold int64. destruct (Z.ltb_spec u (2 ^ 63)); lia. }
  split; [|split].
  - unfold int64. destruct (Z.ltb_spec u (2 ^ 63)); lia.
  - f_equal. unfold int64. destruct (Z.ltb_spec u (2 ^ 63)).
    + rewrite Z.mod_small; lia.
    + apply (Z.mod_unique_pos _ _ (-1)); lia.
  - rewrite Hneg. destruct p as [k v]. simpl in *.
    destruct k as [|b0 [|b1 [|b2 [|b3 [|b4 [|b5 [|b6 [|b7 rest]]]]]]]]; try done.
    rewrite <- (top_bit u 63) by lia.
    rewrite (btou64_bits _ _ _ _ _ _ _ _ _ _ _ Hu) by lia. simpl.
    rewrite (top_bit (byte_Z b0) 7) by (pose proof (byte_Z_range b0); lia).
    split.
    + intros H. eexists _, _. split; [reflexivity|]. exact H.
    + intros (b0' & rest' & [= <- _] & H). exact H.
Qed.

Lemma untimed_btou64 p : ¬ timed p → btou64 p.1 = None.
Proof.
  unfold timed. destruct p as [ts v]. simpl.
  do 8 (destruct ts as [|? ts]; [done|]). simpl. lia.
Qed.

Lemma dumpPoints_short id key codec pre p post :
  Forall timed pre → ¬ timed p →
  ∀ st, ∃ evs diag,
    dumpPoints id key codec (pre ++ p :: post) st
    = (Halt Panic,
       mkState (out st ++ (render <$> omap (lineOf key codec) pre)) (stdout st ++ diag)
               (open_tx st) (log st ++ evs)) ∧
    yields evs = pre ++ [p].
Proof.
  intros Hpre Hp. induction Hpre as [|q pre Hq _ IH]; intros st.
  - simpl dumpPoints. rewrite (untimed_btou64 p Hp).
    unfold bind, emit, Printf, Fprintf, ret, panic. simpl.
    destruct (DecodeFieldsWithNames codec p.2) as [fields [e|]]; simpl.
    + exists [Yield id key p], ["Failed to decode values: " +:+ e].
      by rewrite app_nil_r.
    + exists [Yield id key p], []. by rewrite !app_nil_r.
  - destruct (timed_btou64 q Hq) as (u & Hu).
    simpl app. simpl dumpPoints. rewrite Hu.
    unfold bind, emit, Printf, Fprintf, ret. simpl.
    assert (Hline : lineOf key codec q
                    = Some (key, Str.Join (fieldValues (DecodeFieldsWithNames codec q.2).1) ",",
                            int64 u)).
    { unfold lineOf, pointTime. by rewrite Hu. }
    rewrite Hline.
    destruct (DecodeFieldsWithNames codec q.2) as [fields [e|]]; simpl.
    + match goal with |- context [dumpPoints id key codec _ ?st2] =>
        destruct (IH st2) as (evs & diag & -> & Hy) end.
      exists (Yield id key q :: PointLine key (Str.Join (fieldValues fields) ",") (int64 u)
              :: evs), (("Failed to decode values: " +:+ e) :: diag).
      split; [|simpl; by rewrite Hy].
      cbn [out stdout open_tx log]. rewrite <- !app_assoc. reflexivity.
    + match goal with |- context [dumpPoints id key codec _ ?st2] =>
        destruct (IH st2) as (evs & diag & -> & Hy) end.
      exists (Yield id key q :: PointLine key (Str.Join (fieldValues fields) ",") (int64 u)
              :: evs), diag.
      split; [|simpl; by rewrite Hy].
      cbn [out stdout open_tx log]. rewrite <- !app_assoc. reflexivity.
Qed.

(** X13. A key of fewer than eight bytes stops the dump: with a codec
    for the measurement, the series is written up to the point before
    the short key, one line for each point, and the run panics in
    [btou64] after the cursor has returned the point with the short
    key. *)
Theorem dump_short_key_panics
    (id : N) (shard : Shard) (m : Measurement) (key : string) (codec : FieldCodec)
    (pre : list item) (p : item) (post : list item) (st : State) :
  Cursor shard key = Some (pre ++ p :: post) →
  FieldCodecOf shard (Name m) = Some codec →
  Forall timed pre → ¬ timed p →
  let r := dumpSeries id shard (Some (id, shard)) m key st in
  r.1 = Halt Panic ∧
  out r.2 = out st ++ (render <$> omap (lineOf key codec) pre) ∧
  length (omap (lineOf key codec) pre) = length pre ∧
  ∃ evs, log r.2 = log st ++ evs ∧ yields evs = pre ++ [p].
Proof.
  intros Hc Hcodec Hpre Hp r. subst r.
  destruct (dumpSeries id shard (Some (id, shard)) m key st) as [res st'] eqn:Hrun.
  unfold dumpSeries in Hrun. unfold bind at 1 in Hrun. simpl in Hrun.
  rewrite Hc, Hcodec in Hrun.
  destruct (dumpPoints_short id key codec pre p post Hpre Hp st) as (evs & diag & Heq & Hy).
  rewrite Heq in Hrun. injection Hrun as <- <-.
  simpl. split; [done|]. split; [done|]. split; [|by exists evs].
  clear -Hpre. induction Hpre as [|q pre Hq _ IH]; [done|].
  destruct (timed_btou64 q Hq) as (u & Hu).
  change (omap (lineOf key codec) (q :: pre))
    with (match lineOf key codec q with
          | Some l => l :: omap (lineOf key codec) pre
          | None => omap (lineOf key codec) pre
          end).
  unfold lineOf at 1, pointTime. rewrite Hu. cbn [fmap option_fmap option_map mbind option_bind].
  rewrite !length_cons. by rewrite IH.
Qed.

Lemma countSeries_run (s : Store) (st : State) :
  countSeries s st
  = (Val (seriesTotal s (ShardIDs s)),
     mkState (out st) (stdout st ++ countFailures s (ShardIDs s)) (open_tx st) (log st)).
Proof.
  unfold countSeries.
  assert (H : ∀ ids count st,
    countSeries_loop s ids count st
    = (Val (count + seriesTotal s ids),
       mkState (out st) (stdout st ++ countFailures s ids) (open_tx st) (log st))).
  { induction ids as [|id ids IH]; intros count st'; simpl.
    - rewrite Z.add_0_r, app_nil_r. by destruct st'.
    - destruct (SeriesCount (ShardOf s id)) as [cnt|err]; simpl.
      + rewrite IH. do 2 f_equal. lia.
      + unfold bind, Printf. simpl. rewrite IH. simpl. by rewrite <- app_assoc. }
  by rewrite H.
Qed.

(** X14. [countSeries] never fails: it returns the sum of the counts of
    the shards that can be counted and prints one "series count failed"
    line, in the order of the shard ids, for each shard that cannot; it
    writes nothing to the output and begins no transaction. *)
Theorem countSeries_skips_failures (s : Store) (st : State) :
  countSeries s st
  = (Val (seriesTotal s (ShardIDs s)),
     mkState (out st) (stdout st ++ countFailures s (ShardIDs s)) (open_tx st) (log st)).
Proof. apply countSeries_run. Qed.

(** ** Shards without transaction, fields and shard ids *)

(** X15. A shard that hands out no transaction stops the tool: both
    the summary and the dump print "Failed to get transaction" and go on
    with the nil transaction, whose first use (the cursor of the first
    series key, or the rollback when there is no key) panics; no row and
    no line is written for the shard. *)
Theorem failed_transaction_panics
    (s : Store) (db : string) (m : Measurement) (series : list string) (id : N)
    (err : string) (st : State) :
  ReadOnlyTx (ShardOf s id) = Some err →
  let st' := mkState (out st) (stdout st ++ ["Failed to get transaction: " +:+ err])
                     (open_tx st) (log st) in
  sampleShard s db m series id st = (Halt Panic, st') ∧
  dumpShard s m series id st = (Halt Panic, st').
Proof.
  intros Hro st'. subst st'.
  unfold sampleShard, dumpShard, shard_ReadOnlyTx. rewrite Hro.
  destruct series as [|key rest]; split; reflexivity.
Qed.

(** X16. The field column of a summary row does not depend on the
    order in which the decoded fields are visited: the [name:type]
    strings are sorted before they are joined. *)
Theorem summary_fields_order_free (fields fields' : list (string * FieldValue)) :
  fields ≡ₚ fields' →
  fieldTypes fields = fieldTypes fields' ∧ Sorted String.le (fieldTypes fields).
Proof.
  intros Hp. unfold fieldTypes, sortStrings. split.
  - apply (Sorted_unique String.le); try apply Sorted_merge_sort; try apply _.
    rewrite !merge_sort_Permutation. by rewrite Hp.
  - apply Sorted_merge_sort; apply _.
Qed.

Lemma StronglySorted_lookup {A} (R : relation A) l i j x y :
  StronglySorted R l → (i < j)%nat → l !! i = Some x → l !! j = Some y → R x y.
Proof.
  intros Hs. revert i j. induction Hs as [|a l Hs IH Hall]; intros i j Hij Hi Hj; [done|].
  destruct j as [|j]; [lia|]. destruct i as [|i]; simplify_eq/=.
  - eapply Forall_forall in Hall; [done|]. by eapply list_elem_of_lookup_2.
  - eapply IH; [|done..]. lia.
Qed.

Lemma Swap_lookup a i j a' :
  Swap a i j = Some a' →
  length a' = length a ∧ a' !! i = a !! j ∧ a' !! j = a !! i ∧
  ∀ k, k ≠ i → k ≠ j → a' !! k = a !! k.
Proof.
  unfold Swap. destruct (a !! i) as [x|] eqn:Hi; [|done].
  destruct (a !! j) as [y|] eqn:Hj; [|done]. simpl. intros [= <-].
  pose proof (lookup_lt_Some _ _ _ Hi) as Hli.
  pose proof (lookup_lt_Some _ _ _ Hj) as Hlj.
  split; [by rewrite !length_insert|]. split; [|split].
  - rewrite list_lookup_insert_eq by (by rewrite length_insert). done.
  - destruct (decide (i = j)) as [->|Hne].
    + rewrite list_lookup_insert_eq by (by rewrite length_insert). congruence.
    + rewrite list_lookup_insert_ne by done. by rewrite list_lookup_insert_eq.
  - intros k Hki Hkj. by rewrite !list_lookup_insert_ne.
Qed.

(** X17. [ShardIDs] is a [sort.Interface] for ascending order: [Swap]
    exchanges two elements and keeps the rest, so that the slice stays a
    permutation of itself; [Less] is defined exactly on the indices in
    range and is asymmetric; and the sorted slice is a permutation of the
    shard ids in which no later element is [Less] than an earlier one. *)
Theorem ShardIDs_sort_interface (a : list N) :
  (∀ i j a', Swap a i j = Some a' →
     a' ≡ₚ a ∧ a' !! i = a !! j ∧ a' !! j = a !! i ∧
     ∀ k, k ≠ i → k ≠ j → a' !! k = a !! k) ∧
  (∀ i j, Less a i j = Some true → Less a j i = Some false) ∧
  (∀ i j, is_Some (Less a i j) ↔ (i < Len a ∧ j < Len a)%nat) ∧
  sortShardIDs a ≡ₚ a ∧
  (∀ i j, (i < j < Len (sortShardIDs a))%nat → Less (sortShardIDs a) j i = Some false).
Proof.
  split; [|split; [|split; [|split]]].
  - intros i j a' Hsw. destruct (Swap_lookup _ _ _ _ Hsw) as (Hlen & Hi & Hj & Hk).
    split; [|done]. apply Permutation_inj. split; [done|].
    exists (λ k, if decide (k = i) then j else if decide (k = j) then i else k). split.
    + intros k1 k2. repeat case_decide; intros; subst; congruence.
    + intros k. repeat case_decide; subst; auto.
  - intros i j. unfold Less.
    destruct (a !! i) as [x|]; [|done]. destruct (a !! j) as [y|]; [|done]. simpl.
    intros [= H]. f_equal. apply N.ltb_lt in H. apply N.ltb_ge. lia.
  - intros i j. unfold Less, Len. rewrite <- !lookup_lt_is_Some.
    destruct (a !! i) as [x|]; destruct (a !! j) as [y|]; simpl;
      split; try (intros [? ?]; done); try (intros [[? ?] [? ?]]; done); eauto.
  - apply merge_sort_Permutation.
  - intros i j [Hij Hj]. unfold Less, Len in *.
    destruct (lookup_lt_is_Some_2 (sortShardIDs a) j Hj) as [y Hy].
    destruct (lookup_lt_is_Some_2 (sortShardIDs a) i ltac:(lia)) as [x Hx].
    rewrite Hy, Hx. simpl. f_equal. apply N.ltb_ge.
    eapply (StronglySorted_lookup N.le); [|exact Hij|exact Hx|exact Hy].
    apply StronglySorted_merge_sort; apply _.
Qed.

(** ** The scans and the whole output *)

Lemma begun_app evs evs' : begun (evs ++ evs') = begun evs ++ begun evs'.
Proof. unfold begun. apply omap_app. Qed.

Lemma begun_quiet evs : Forall (λ e, no_tx e = true) evs → begun evs = [].
Proof. induction 1 as [|e evs He _ IH]; [done|]. simpl. by destruct e. Qed.

Lemma opens_of_quiet {A} (f : M A) : quiet f → opens [] f.
Proof.
  intros Hf st a _. destruct (Hf st) as (evs & Hl & Hall & _).
  exists evs. split; [done|]. by apply begun_quiet.
Qed.

Lemma opens_bind {A B} ids ids' (f : M A) (k : A → M B) :
  opens ids f → (∀ a, opens ids' (k a)) → opens (ids ++ ids') (bind f k).
Proof.
  intros Hf Hk st b. unfold bind. specialize (Hf st).
  destruct (f st) as [[a|h] st1]; simpl in *; [|done].
  intros Hb. destruct (Hf a eq_refl) as (evs & Hl & Hi).
  destruct (Hk a st1 b Hb) as (evs' & Hl' & Hi').
  exists (evs ++ evs'). rewrite Hl', Hl, app_assoc. split; [done|].
  by rewrite begun_app, Hi, Hi'.
Qed.

Lemma opens_forEach {A} (ids : A → list N) (body : A → M unit) l :
  (∀ x, opens (ids x) (body x)) → opens (l ≫= ids) (forEach body l).
Proof.
  intros Hb. induction l as [|x l IH]; simpl.
  - apply opens_of_quiet, quiet_ret.
  - apply opens_bind; [apply Hb|]. intros _. exact IH.
Qed.

Lemma opens_scan id shard (scan : Tx → M unit) :
  (∀ tx, quiet (scan tx)) →
  opens [id] (r <~ shard_ReadOnlyTx id shard;;
              match r.2 with
              | Some err => Printf ("Failed to get transaction: " +:+ err)
              | None => ret tt
              end >>
              scan r.1 >>
              tx_Rollback r.1)%go.
Proof.
  intros Hscan st a.
  match goal with |- context [log (?F st).2] => destruct (F st) as [res st'] eqn:Hrun end.
  simpl. unfold shard_ReadOnlyTx in Hrun. destruct (ReadOnlyTx shard) as [err|].
  - unfold bind at 1 in Hrun. simpl in Hrun.
    unfold bind at 1 in Hrun. unfold Printf at 1 in Hrun. simpl in Hrun.
    unfold bind at 1 in Hrun.
    match type of Hrun with context [scan None ?st1] =>
      destruct (scan None st1) as [[[]|h] st2] end;
      simpl in *; injection Hrun as <- <-; done.
  - unfold bind at 1 in Hrun. simpl in Hrun.
    unfold bind at 1 in Hrun. simpl in Hrun.
    unfold bind at 1 in Hrun.
    match type of Hrun with context [scan (Some (id, shard)) ?st1] =>
      destruct (Hscan (Some (id, shard)) st1) as (evs & Hl & Hall & Ho);
      destruct (scan (Some (id, shard)) st1) as [[[]|h] st2] end;
      simpl in *; injection Hrun as <- <-; [|done].
    intros _. exists (TxBegin id true :: evs ++ [TxRollback id]). simpl.
    rewrite Hl, <- !app_assoc. split; [done|].
    change (begun (TxBegin id true :: evs ++ [TxRollback id]))
      with (id :: begun (evs ++ [TxRollback id])).
    by rewrite begun_app, (begun_quiet evs Hall).
Qed.

Lemma opens_each (body : N → M unit) l :
  (∀ id, opens [id] (body id)) → opens l (forEach body l).
Proof.
  intros Hb. induction l as [|id l IH]; simpl.
  - apply opens_of_quiet, quiet_ret.
  - apply (opens_bind [id] l); [apply Hb|]. intros _. exact IH.
Qed.

Lemma opens_summary s : opens (scans s) (summary s).
Proof.
  unfold summary, scans. apply opens_forEach. intros db.
  apply opens_forEach. intros m.
  apply opens_each. intros id.
  apply (opens_scan id (ShardOf s id)
           (λ tx, sampleKeys id (ShardOf s id) tx db m (sortStrings (SeriesKeys m)))).
  intros tx. apply quiet_sampleKeys.
Qed.

Lemma opens_dumpData s : opens (scans s) (dumpData s).
Proof.
  unfold dumpData.
  apply (opens_bind [] (scans s) _ _ (opens_of_quiet _ (quiet_Fprintf _))). intros _.
  rewrite <- (app_nil_r (scans s)).
  apply (opens_bind (scans s) []); [|intros; apply opens_of_quiet, quiet_ret].
  unfold scans. apply opens_forEach. intros db.
  apply (opens_bind [] _ _ _ (opens_of_quiet _ (quiet_Fprintf _))). intros _.
  apply (opens_bind [] _ _ _ (opens_of_quiet _ (quiet_Fprintf _))). intros _.
  apply opens_forEach. intros m.
  apply opens_each. intros id.
  apply (opens_scan id (ShardOf s id)
           (λ tx, forEach (dumpSeries id (ShardOf s id) tx m) (sortStrings (SeriesKeys m)))).
  intros tx. apply quiet_forEach. intros key. apply quiet_dumpSeries.
Qed.

Lemma length_list_bind {A B} (f : A → list B) (l : list A) :
  length (l ≫= f) = list_sum ((λ x, length (f x)) <$> l).
Proof.
  induction l as [|x l IH]; [done|]. csimpl. by rewrite length_app, IH.
Qed.

Lemma list_sum_const {A} (l : list A) (n : nat) :
  list_sum ((λ _, n) <$> l) = (n * length l)%nat.
Proof. induction l as [|x l IH]; csimpl; lia. Qed.

Lemma length_scans s :
  length (scans s)
  = (length (ShardIDs s)
     * list_sum ((λ db, length (Measurements s db)) <$> sortStrings (Databases s)))%nat.
Proof.
  unfold scans. rewrite length_list_bind.
  induction (sortStrings (Databases s)) as [|db dbs IH]; csimpl; [lia|].
  rewrite IH, length_list_bind, list_sum_const.
  unfold sortMeasurements, sortShardIDs. rewrite !merge_sort_Permutation. lia.
Qed.

(** X18. The summary and the dump scan every shard of the store for
    every measurement of every database, whether or not the shard holds
    the database: in a run that ends normally the transactions begun
    are, for each database and each of its measurements in the order of
    their names, one on each shard in ascending order; they number the
    shards times the measurements. *)
Theorem every_shard_scanned_for_every_measurement (s : Store) (st : State) :
  (∀ a, (summary s st).1 = Val a →
        ∃ evs, log (summary s st).2 = log st ++ evs ∧ begun evs = scans s) ∧
  (∀ a, (dumpData s st).1 = Val a →
        ∃ evs, log (dumpData s st).2 = log st ++ evs ∧ begun evs = scans s) ∧
  length (scans s)
  = (length (ShardIDs s)
     * list_sum ((λ db, length (Measurements s db)) <$> sortStrings (Databases s)))%nat.
Proof.
  split; [apply opens_summary|]. split; [apply opens_dumpData|]. apply length_scans.
Qed.

(** X19. On a store that hands out its transactions and whose cursor
    keys are timestamps, [dumpData] returns nil and has written the
    header [# DML] and then, for each database in the order of the
    names, the two context lines and the lines of every point: by
    measurement, then by shard in ascending order, then by series key in
    lexical order. *)
Theorem dump_in_traversal_order (s : Store) (st : State) :
  store_ok s →
  (dumpData s st).1 = Val None ∧ out (dumpData s st).2 = out st ++ dumpRows s.
Proof. apply dumpData_writes. Qed.

(** X20. The output of [main] on such a store: the line of counts (with
    the series counted by [countSeries]), the line [#], the column
    heads, the rows of the summary and the dump, in this order; an error
    of [DiskSize] is printed and changes nothing of it. *)
Theorem main_output (env : Env) (st : State) :
  open_err env = None → outfile_err env = None → store_ok (store env) →
  (main env st).1 = Val tt ∧
  out (main env st).2
  = out st ++ [statsLine (store env); "#" +:+ nl; columns]
    ++ summaryRows (store env) ++ dumpRows (store env).
Proof.
  intros Hopen Hout Hok.
  destruct (main env st) as [res st'] eqn:Hrun.
  unfold main in Hrun. rewrite Hopen, Hout in Hrun. cbv zeta in Hrun.
  unfold bind at 1 in Hrun.
  match type of Hrun with (let (_, _) := ?X in _) = _ =>
    destruct X as [r0 st0] eqn:Heq0
  end.
  assert (Hst0 : r0 = Val tt ∧ out st0 = out st).
  { destruct (DiskSize (store env)).2; by injection Heq0 as <- <-. }
  destruct Hst0 as [-> Hout0]. clear Heq0. cbv beta iota in Hrun.
  unfold bind at 1 in Hrun. rewrite countSeries_run in Hrun.
  unfold bind at 1 in Hrun. unfold Fprintf at 1 in Hrun.
  unfold bind at 1 in Hrun. unfold Fprintf at 1 in Hrun.
  unfold bind at 1 in Hrun. unfold Fprintf at 1 in Hrun.
  cbn [out stdout open_tx log] in Hrun.
  unfold bind at 1 in Hrun.
  match type of Hrun with context [summary _ ?st1] =>
    destruct (writes_summary (store env)) with (st := st1) as (Hv & Ho & _);
    [intros id Hid; by destruct (Hok id Hid)|];
    destruct (summary (store env) st1) as [[[]|h] st2]; [|done] end.
  simpl in Ho.
  unfold bind at 1 in Hrun.
  destruct (dumpData_writes (store env) st2 Hok) as [Hv' Ho'].
  destruct (dumpData (store env) st2) as [[[e|]|h] st3]; try done.
  injection Hrun as <- <-. simpl in *. split; [done|].
  rewrite Ho', Ho, Hout0. rewrite <- !app_assoc. reflexivity.
Qed.

(** ** The further properties on the example store *)

Example u64tob_one : u64tob 1 = InspectSample.time Byte.x01.
Proof. by vm_compute. Qed.

Example Less_out_of_range : Less [2%N; 1%N] 0 2 = None.
Proof. reflexivity. Qed.

(** The second store: shard 3 cannot be counted, shard 1 has two
    series. *)
Example countSeries_undercounts :
  let r := countSeries InspectSample.tstore_locked InspectSample.start in
  r.1 = Val 2 ∧ stdout r.2 = ["series count failed: timeout" +:+ nl].
Proof. by vm_compute. Qed.

Lemma u64tob_btou64_witness :
  0 ≤ 258 < 2 ^ 64 ∧
  btou64 (InspectSample.time Byte.x01) = Some 1 ∧
  btou64 (u64tob 258) = Some 258 ∧
  u64tob 1 = take 8 (InspectSample.time Byte.x01).
Proof.
  assert (H1 : 0 ≤ 258 < 2 ^ 64) by lia.
  assert (H2 : btou64 (InspectSample.time Byte.x01) = Some 1) by reflexivity.
  destruct (u64tob_btou64 258 (InspectSample.time Byte.x01) 1) as (Ha & _ & Hb).
  split; [exact H1|]. split; [exact H2|]. split; [exact (Ha H1)|exact (Hb H2)].
Defined.

(** The largest key is the timestamp [-1]. *)
Lemma timestamp_is_signed_witness :
  pointTime InspectSample.last_point = Some (-1) ∧
  btou64 InspectSample.last_point.1 = Some (2 ^ 64 - 1) ∧
  (-1 < 0 ↔ ∃ b0 rest, InspectSample.last_point.1 = b0 :: rest ∧ 128 ≤ byte_Z b0).
Proof.
  assert (H : pointTime InspectSample.last_point = Some (-1)) by (vm_compute; reflexivity).
  split; [exact H|].
  destruct (timestamp_is_signed InspectSample.last_point (-1) H) as (_ & Hb & Hneg).
  split; [exact Hb|exact Hneg].
Defined.

(** The series with the short key: one line, then the panic. *)
Lemma dump_short_key_panics_witness :
  Cursor InspectSample.shard_short "cpu,host=a"
  = Some ([(InspectSample.time Byte.x01, [Byte.x2a])]
          ++ ([Byte.x00; Byte.x02], [Byte.x2a])
          :: [(InspectSample.time Byte.x03, [Byte.x2a])]) ∧
  FieldCodecOf InspectSample.shard_short (Name InspectSample.cpu)
  = Some InspectSample.codec ∧
  Forall timed [(InspectSample.time Byte.x01, [Byte.x2a])] ∧
  ¬ timed ([Byte.x00; Byte.x02], [Byte.x2a]) ∧
  (dumpSeries 1 InspectSample.shard_short (Some (1%N, InspectSample.shard_short))
     InspectSample.cpu "cpu,host=a" InspectSample.start).1 = Halt Panic ∧
  out (dumpSeries 1 InspectSample.shard_short (Some (1%N, InspectSample.shard_short))
         InspectSample.cpu "cpu,host=a" InspectSample.start).2
  = [pointLine "cpu,host=a" "value=1" 1].
Proof.
  assert (H1 : Cursor InspectSample.shard_short "cpu,host=a"
               = Some ([(InspectSample.time Byte.x01, [Byte.x2a])]
                       ++ ([Byte.x00; Byte.x02], [Byte.x2a])
                       :: [(InspectSample.time Byte.x03, [Byte.x2a])])) by reflexivity.
  assert (H2 : FieldCodecOf InspectSample.shard_short (Name InspectSample.cpu)
               = Some InspectSample.codec) by reflexivity.
  assert (H3 : Forall timed [(InspectSample.time Byte.x01, [Byte.x2a])]).
  { constructor; [unfold timed; simpl; lia|constructor]. }
  assert (H4 : ¬ timed ([Byte.x00; Byte.x02], [Byte.x2a])).
  { unfold timed. simpl. lia. }
  split; [exact H1|]. split; [exact H2|]. split; [exact H3|]. split; [exact H4|].
  destruct (dump_short_key_panics 1 InspectSample.shard_short InspectSample.cpu
              "cpu,host=a" InspectSample.codec _ _ _ InspectSample.start H1 H2 H3 H4)
    as (Hp & Ho & _).
  split; [exact Hp|]. rewrite Ho. vm_compute. reflexivity.
Defined.

(** Shard 3 of the second store hands out no transaction. *)
Lemma failed_transaction_panics_witness :
  ReadOnlyTx (ShardOf InspectSample.tstore_locked 3) = Some "timeout" ∧
  (sampleShard InspectSample.tstore_locked "db" InspectSample.cpu
     ["cpu,host=a"; "cpu,host=b"] 3 InspectSample.start).1 = Halt Panic ∧
  (dumpShard InspectSample.tstore_locked InspectSample.cpu
     ["cpu,host=a"; "cpu,host=b"] 3 InspectSample.start).1 = Halt Panic.
Proof.
  assert (H : ReadOnlyTx (ShardOf InspectSample.tstore_locked 3) = Some "timeout")
    by reflexivity.
  split; [exact H|].
  destruct (failed_transaction_panics InspectSample.tstore_locked "db" InspectSample.cpu
              ["cpu,host=a"; "cpu,host=b"] 3 "timeout" InspectSample.start H) as [-> ->].
  split; reflexivity.
Defined.

(** Two fields, visited in either order. *)
Lemma summary_fields_order_free_witness :
  [("value", Int64 1); ("idle", Bool true)] ≡ₚ [("idle", Bool true); ("value", Int64 1)] ∧
  fieldTypes [("value", Int64 1); ("idle", Bool true)] = ["idle:bool"; "value:int64"] ∧
  fieldTypes [("idle", Bool true); ("value", Int64 1)] = ["idle:bool"; "value:int64"].
Proof.
  assert (H : [("value", Int64 1); ("idle", Bool true)]
              ≡ₚ [("idle", Bool true); ("value", Int64 1)]) by apply perm_swap.
  split; [exact H|].
  destruct (summary_fields_order_free _ _ H) as [<- _].
  split; vm_compute; reflexivity.
Defined.

(** The shard ids of the example store. *)
Lemma ShardIDs_sort_interface_witness :
  Swap [2%N; 1%N] 0 1 = Some [1%N; 2%N] ∧
  [1%N; 2%N] ≡ₚ [2%N; 1%N] ∧
  (0 < 1 < Len (sortShardIDs [2%N; 1%N]))%nat ∧
  Less (sortShardIDs [2%N; 1%N]) 1 0 = Some false.
Proof.
  assert (H1 : Swap [2%N; 1%N] 0 1 = Some [1%N; 2%N]) by reflexivity.
  assert (H2 : (0 < 1 < Len (sortShardIDs [2%N; 1%N]))%nat) by (vm_compute; lia).
  destruct (ShardIDs_sort_interface [2%N; 1%N]) as (Hswap & _ & _ & _ & Hsorted).
  split; [exact H1|]. split; [exact (proj1 (Hswap _ _ _ H1))|].
  split; [exact H2|exact (Hsorted _ _ H2)].
Defined.

(** Both shards are scanned for the one measurement. *)
Lemma every_shard_scanned_for_every_measurement_witness :
  (summary InspectSample.tstore InspectSample.start).1 = Val tt ∧
  scans InspectSample.tstore = [1%N; 2%N] ∧
  ∃ evs, log (summary InspectSample.tstore InspectSample.start).2
         = log InspectSample.start ++ evs ∧
         begun evs = scans InspectSample.tstore.
Proof.
  assert (H : (summary InspectSample.tstore InspectSample.start).1 = Val tt)
    by (vm_compute; reflexivity).
  split; [exact H|]. split; [vm_compute; reflexivity|].
  destruct (every_shard_scanned_for_every_measurement InspectSample.tstore
              InspectSample.start) as (Hs & _ & _).
  exact (Hs tt H).
Defined.

(** The dump of the example store. *)
Lemma dump_in_traversal_order_witness :
  store_ok InspectSample.tstore ∧
  out (dumpData InspectSample.tstore InspectSample.start).2
  = ["# DML" +:+ nl; "# CONTEXT-DATABASE:db" +:+ nl;
     "# CONTEXT-RETENTION-POLICY:default" +:+ nl;
     pointLine "cpu,host=a" "value=1" 1; pointLine "cpu,host=a" "value=2" 2;
     pointLine "cpu,host=b" "value=1" 5].
Proof.
  split; [exact tstore_ok|].
  destruct (dump_in_traversal_order InspectSample.tstore InspectSample.start tstore_ok)
    as [_ ->].
  vm_compute. reflexivity.
Defined.

(** The whole output on the example store. *)
Lemma main_output_witness :
  open_err (mkEnv None None InspectSample.tstore) = None ∧
  outfile_err (mkEnv None None InspectSample.tstore) = None ∧
  store_ok (store (mkEnv None None InspectSample.tstore)) ∧
  (main (mkEnv None None InspectSample.tstore) InspectSample.start).1 = Val tt ∧
  length (out (main (mkEnv None None InspectSample.tstore) InspectSample.start).2) = 10%nat.
Proof.
  split; [reflexivity|]. split; [reflexivity|]. split; [exact tstore_ok|].
  destruct (main_output (mkEnv None None InspectSample.tstore) InspectSample.start
              eq_refl eq_refl tstore_ok) as [-> ->].
  split; [reflexivity|]. vm_compute. reflexivity.
Defined.

End InspectProps.
